(** * mox store package: archival (NATS) client, spool and lifecycle

    A shallow embedding of the Go package [store] (files [nats.go] with the
    spool-backed client, and the [Init]/[Close] lifecycle code).  Go code
    that mutates the process and the operating system is written here as
    explicit state passing over a [World]; results of calls into the
    operating system and the NATS library that the program cannot predict
    are read from an environment [Env] indexed by a logical clock. *)

From Stdlib Require Import ZArith Lia Ascii String.
From stdpp Require Import base tactics option list sorting gmap strings pretty.

Open Scope Z_scope.

(* stdpp's solvers clear hypotheses by name; silence the notice. *)
Set Warnings "-clear-no-such-hyp".

(** ** Errors *)

(** [ErrExternal] is an error value produced outside the package (operating
    system, NATS library, database); [ErrorString] is [fmt.Errorf] of a
    plain message; [Errorf] is [fmt.Errorf(format, args..., err)] with the
    format string and the arguments kept as written. *)
Inductive error : Type :=
  | ErrExternal (msg : string)
  | ErrBucketNotFound
  | ErrorString (msg : string)
  | Errorf (format : string) (args : list string) (err : error).

Inductive result (A : Type) : Type :=
  | Ok (a : A)
  | Err (e : error).
Arguments Ok {A} a.
Arguments Err {A} e.

(** ** Configuration and connection options *)

Module config.
(** [config.NATS]; durations are nanoseconds as in [time.Duration]. *)
Record NATS : Type := {
  URL : string;
  BucketName : string;
  Username : string;
  Password : string;
  Token : string;
  CredentialsFile : string;
  ConnectTimeout : Z;
  RequestTimeout : Z;
  DeleteAfterStore : bool
}.
End config.

Definition Second : Z := 1000000000.
Definition Hour : Z := 3600 * Second.

Module nats.
(** The [nats.Option] values the client builds. *)
Inductive Option : Type :=
  | Name (s : string)
  | Timeout (d : Z)
  | ReconnectWait (d : Z)
  | MaxReconnects (n : Z)
  | DisconnectErrHandler
  | ReconnectHandler
  | ClosedHandler
  | UserCredentials (file : string)
  | Token (token : string)
  | UserInfo (user password : string).

(** [*nats.Conn]: connections are told apart by a number. *)
Record Conn : Type := { conn_id : nat }.
End nats.

Definition is_auth_option (o : nats.Option) : bool :=
  match o with
  | nats.UserCredentials _ | nats.Token _ | nats.UserInfo _ _ => true
  | _ => false
  end.

(** ** The client *)

(** [NATSClient].  [conn] may be nil; [os] is the handle of the bucket,
    kept as the bucket's name.  The mutex [mu] has no counterpart: every
    function below runs to completion before another one starts. *)
Record NATSClient : Type := {
  conn : option nats.Conn;
  os : string;
  config : config.NATS
}.

(** ** Files *)

Abbreviation bytes := (list Byte.byte).

(** A path is the list of its components:
    [filepath.Join(dir, name)] is [dir ++ [name]]. *)
Abbreviation Path := (list string).

Definition Join (dir : Path) (name : string) : Path := dir ++ [name].

Inductive Node : Type :=
  | RegularFile (data : bytes)
  | Directory.

(** An open descriptor: the file it was opened on and the read/write
    offset. *)
Record Handle : Type := { h_path : Path; h_pos : nat }.

(** [*os.File]: a descriptor and the name it was opened with.  A nil or a
    closed [*os.File] is a [File] whose descriptor is not in the table of
    open handles; [Seek] fails on both. *)
Record File : Type := { file_fd : nat; file_name : Path }.

(** [os.DirEntry] as far as the package looks at it. *)
Record DirEntry : Type := { entry_name : string; entry_isdir : bool }.

Record ObjectMeta : Type := { meta_name : string; meta_description : string }.

Record Object : Type := {
  obj_bucket : string;
  obj_meta : ObjectMeta;
  obj_data : bytes
}.

Record ObjectInfo : Type := { info_size : nat; info_bucket : string }.

(** [context.Context]: only the timeout matters to the package. *)
Inductive Context : Type :=
  | Background
  | WithTimeout (parent : Context) (d : Z).

(** ** Goroutines and events *)

Inductive Goroutine : Type :=
  | GoProcessPendingNATSLoop
  | GoAsyncStore (nc : NATSClient) (messageID : Z) (data : bytes)
  | GoLoginAttemptWriter
  | GoLoginAttemptCleaner.

Inductive Level : Type := LDebug | LInfo | LError.

(** What the program did to the outside, in program order. *)
Inductive Event : Type :=
  | EvLog (lvl : Level) (msg : string) (err : option error)
  | EvConnect (url : string) (opts : list nats.Option) (ok : bool)
  | EvConnClose (c : nats.Conn)
  | EvSeek (f : File) (ok : bool)
  | EvPut (f : File) (meta : ObjectMeta) (data : bytes) (ok : bool)
  | EvReadFile (p : Path) (ok : bool)
  | EvOpen (p : Path) (ok : bool)
  | EvCreate (p : Path) (ok : bool)
  | EvWrite (f : File) (ok : bool)
  | EvClose (f : File)
  | EvRemove (p : Path)
  | EvReadDir (p : Path) (ok : bool)
  | EvMkdirAll (p : Path) (perm : Z) (ok : bool)
  | EvSleep (d : Z)
  | EvGo (g : Goroutine).

(** ** The world *)

Record World : Type := {
  fs : gmap Path Node;
  handles : gmap nat Handle;
  next_fd : nat;
  remote : list Object;
  clock : nat;
  trace : list Event;
  globalNATSClient : option NATSClient;
  natsOnce : bool;
  goroutines : list Goroutine
}.

Definition set_fs (f : gmap Path Node → gmap Path Node) (w : World) : World :=
  {| fs := f (fs w); handles := handles w; next_fd := next_fd w;
     remote := remote w; clock := clock w; trace := trace w;
     globalNATSClient := globalNATSClient w; natsOnce := natsOnce w;
     goroutines := goroutines w |}.

Definition set_handles (f : gmap nat Handle → gmap nat Handle) (w : World) : World :=
  {| fs := fs w; handles := f (handles w); next_fd := next_fd w;
     remote := remote w; clock := clock w; trace := trace w;
     globalNATSClient := globalNATSClient w; natsOnce := natsOnce w;
     goroutines := goroutines w |}.

Definition set_next_fd (n : nat) (w : World) : World :=
  {| fs := fs w; handles := handles w; next_fd := n;
     remote := remote w; clock := clock w; trace := trace w;
     globalNATSClient := globalNATSClient w; natsOnce := natsOnce w;
     goroutines := goroutines w |}.

Definition set_remote (r : list Object) (w : World) : World :=
  {| fs := fs w; handles := handles w; next_fd := next_fd w;
     remote := r; clock := clock w; trace := trace w;
     globalNATSClient := globalNATSClient w; natsOnce := natsOnce w;
     goroutines := goroutines w |}.

Definition set_clock (n : nat) (w : World) : World :=
  {| fs := fs w; handles := handles w; next_fd := next_fd w;
     remote := remote w; clock := n; trace := trace w;
     globalNATSClient := globalNATSClient w; natsOnce := natsOnce w;
     goroutines := goroutines w |}.

Definition set_trace (t : list Event) (w : World) : World :=
  {| fs := fs w; handles := handles w; next_fd := next_fd w;
     remote := remote w; clock := clock w; trace := t;
     globalNATSClient := globalNATSClient w; natsOnce := natsOnce w;
     goroutines := goroutines w |}.

Definition set_client (c : option NATSClient) (w : World) : World :=
  {| fs := fs w; handles := handles w; next_fd := next_fd w;
     remote := remote w; clock := clock w; trace := trace w;
     globalNATSClient := c; natsOnce := true;
     goroutines := goroutines w |}.

Definition set_goroutines (g : list Goroutine) (w : World) : World :=
  {| fs := fs w; handles := handles w; next_fd := next_fd w;
     remote := remote w; clock := clock w; trace := trace w;
     globalNATSClient := globalNATSClient w; natsOnce := natsOnce w;
     goroutines := g |}.

(** ** The environment *)

(** Answers of the outside world, by logical time: [env_fault t] is the
    error, if any, that the fallible call made at time [t] meets for a
    reason outside the model (network, permissions, disk);
    [env_partial t] is how many bytes a failing transfer at time [t]
    moved before it failed; [env_connected t] is what
    [conn.IsConnected()] answers; [env_now t] is the wall clock in
    nanoseconds since the epoch; [env_rand t] feeds [rand.Intn] and the
    random part of temporary file names.  [env_sscanf name] is the
    outcome of [fmt.Sscanf(name, "msg-%d-", &messageID)]: the message ID
    read from the name, or [None] when the call returns an error. *)
Record Env : Type := {
  env_fault : nat → option error;
  env_partial : nat → nat;
  env_connected : nat → bool;
  env_now : nat → Z;
  env_rand : nat → Z;
  env_sscanf : string → option Z
}.

(** ** State passing *)

Definition M (A : Type) : Type := World → A * World.

Definition ret {A} (a : A) : M A := λ w, (a, w).
Definition bind {A B} (m : M A) (k : A → M B) : M B :=
  λ w, let (a, w1) := m w in k a w1.

Notation "'let*' x ':=' m 'in' k" := (bind m (λ x, k))
  (at level 10, x binder, m at level 200, k at level 200).

Definition emit (e : Event) : M unit :=
  λ w, (tt, set_trace (trace w ++ [e]) w).

(** Read the clock and advance it: every call into the environment is made
    at a time of its own. *)
Definition tick : M nat :=
  λ w, (clock w, set_clock (S (clock w)) w).

Definition spawn (g : Goroutine) : M unit :=
  λ w, (tt, set_goroutines (goroutines w ++ [g])
              (set_trace (trace w ++ [EvGo g]) w)).

(** ** Operating system and library calls *)

Definition is_dir (m : gmap Path Node) (p : Path) : bool :=
  match p with
  | [] => true
  | _ => match m !! p with Some Directory => true | _ => false end
  end.

(** The entry of [dir] that a path of the file system stands for, if it
    lies directly under [dir]. *)
Definition entry_under (dir : Path) (kv : Path * Node) : option DirEntry :=
  match last kv.1 with
  | Some name =>
      if decide (kv.1 = Join dir name)
      then Some {| entry_name := name;
                   entry_isdir := match kv.2 with Directory => true | _ => false end |}
      else None
  | None => None
  end.

Definition entry_le (a b : DirEntry) : Prop :=
  String.leb (entry_name a) (entry_name b).

Global Instance entry_le_dec : RelDecision entry_le.
Proof. intros a b. unfold entry_le. apply _. Defined.

(** The entries of a directory, sorted by file name as [os.ReadDir]
    returns them. *)
Definition list_dir (dir : Path) (m : gmap Path Node) : list DirEntry :=
  merge_sort entry_le (omap (entry_under dir) (map_to_list m)).

(** [os.MkdirAll] walks down the path and creates what is missing; it
    fails on a component that exists and is not a directory. *)
Fixpoint mkdir_all (done : Path) (rest : list string) (m : gmap Path Node)
  : result (gmap Path Node) :=
  match rest with
  | [] => Ok m
  | c :: rest' =>
      let p := done ++ [c] in
      match m !! p with
      | Some Directory => mkdir_all p rest' m
      | Some (RegularFile _) => Err (ErrExternal "not a directory")
      | None => mkdir_all p rest' (<[p := Directory]> m)
      end
  end.

(** Bytes [data] written at offset [pos] of a file holding [old]. *)
Definition write_at (pos : nat) (data old : bytes) : bytes :=
  take pos old ++ data ++ drop (pos + length data) old.

Section WithEnv.
Variable env : Env.

(** A fallible call asks the environment whether it fails. *)
Definition fault : M (option error) :=
  let* t := tick in ret (env_fault env t).

(** [time.Now()], in nanoseconds since the epoch. *)
Definition timeNow : M Z :=
  let* t := tick in ret (env_now env t).

(** [rand.Intn(n)]. *)
Definition randIntn (n : Z) : M Z :=
  let* t := tick in ret (env_rand env t `mod` n).

Definition timeSleep (d : Z) : M unit := emit (EvSleep d).

(** [f.Seek(0, 0)]. *)
Definition Seek0 (f : File) : M (option error) :=
  λ w,
    match handles w !! file_fd f with
    | None =>
        (let* _ := emit (EvSeek f false) in
         ret (Some (ErrExternal "file already closed"))) w
    | Some h =>
        (let* e := fault in
         match e with
         | Some e => let* _ := emit (EvSeek f false) in ret (Some e)
         | None =>
             let* _ := emit (EvSeek f true) in
             λ w1, (None,
                    set_handles
                      (<[file_fd f := {| h_path := h_path h; h_pos := 0 |}]>) w1)
         end) w
    end.

(** Read an open file from its offset to the end; the offset ends up at
    the end of the file. *)
Definition readAll (f : File) : M (result bytes) :=
  λ w,
    match handles w !! file_fd f with
    | None => (Err (ErrExternal "file already closed"), w)
    | Some h =>
        match fs w !! h_path h with
        | Some (RegularFile d) =>
            (Ok (drop (h_pos h) d),
             set_handles
               (<[file_fd f := {| h_path := h_path h; h_pos := length d |}]>) w)
        | _ => (Err (ErrExternal "read error"), w)
        end
    end.

(** Write [data] through the open file [f] at its offset. *)
Definition writeAll (f : File) (data : bytes) : M (option error) :=
  λ w,
    match handles w !! file_fd f with
    | None => (Some (ErrExternal "file already closed"), w)
    | Some h =>
        match fs w !! h_path h with
        | Some (RegularFile old) =>
            (None,
             set_handles
               (<[file_fd f := {| h_path := h_path h;
                                  h_pos := (h_pos h + length data)%nat |}]>)
               (set_fs (<[h_path h := RegularFile (write_at (h_pos h) data old)]>) w))
        | _ => (Some (ErrExternal "write error"), w)
        end
    end.

(** A transfer of [data] into [f] that the environment may cut short. *)
Definition writeFallible (f : File) (data : bytes) : M (option error) :=
  let* t := tick in
  match env_fault env t with
  | Some e =>
      let* _ := writeAll f (take (env_partial env t) data) in
      let* _ := emit (EvWrite f false) in
      ret (Some e)
  | None =>
      let* r := writeAll f data in
      let* _ := emit (EvWrite f (bool_decide (r = None))) in
      ret r
  end.

(** [f.Write(data)]. *)
Definition Write (f : File) (data : bytes) : M (option error) :=
  writeFallible f data.

(** [io.Copy(dst, src)]. *)
Definition ioCopy (dst src : File) : M (option error) :=
  let* r := readAll src in
  match r with
  | Err e => ret (Some e)
  | Ok data => writeFallible dst data
  end.

(** [f.Close()]; the package never looks at its result. *)
Definition fileClose (f : File) : M unit :=
  let* _ := emit (EvClose f) in
  λ w, (tt, set_handles (delete (file_fd f)) w).

Definition newHandle (p : Path) : M File :=
  λ w,
    ({| file_fd := next_fd w; file_name := p |},
     set_next_fd (S (next_fd w))
       (set_handles (<[next_fd w := {| h_path := p; h_pos := 0 |}]>) w)).

(** [os.Open(path)]. *)
Definition osOpen (p : Path) : M (result File) :=
  λ w,
    match fs w !! p with
    | None =>
        (let* _ := emit (EvOpen p false) in
         ret (Err (ErrExternal "no such file or directory"))) w
    | Some _ =>
        (let* e := fault in
         match e with
         | Some e => let* _ := emit (EvOpen p false) in ret (Err e)
         | None =>
             let* _ := emit (EvOpen p true) in
             let* f := newHandle p in
             ret (Ok f)
         end) w
    end.

(** [os.OpenFile(path, os.O_CREATE|os.O_WRONLY|os.O_EXCL, perm)]: the
    call fails when the path exists, and creates an empty file
    otherwise. *)
Definition osOpenFileExcl (p : Path) (perm : Z) : M (result File) :=
  λ w,
    match fs w !! p with
    | Some _ =>
        (let* _ := emit (EvCreate p false) in
         ret (Err (ErrExternal "file exists"))) w
    | None =>
        if is_dir (fs w) (removelast p) then
          (let* e := fault in
           match e with
           | Some e => let* _ := emit (EvCreate p false) in ret (Err e)
           | None =>
               let* _ := emit (EvCreate p true) in
               let* f := newHandle p in
               λ w1, (Ok f, set_fs (<[p := RegularFile []]>) w1)
           end) w
        else
          (let* _ := emit (EvCreate p false) in
           ret (Err (ErrExternal "no such file or directory"))) w
    end.

(** [os.TempDir()]. *)
Definition TempDir : Path := ["tmp"].

(** [os.CreateTemp("", prefix*suffix)]: a file with a random name in
    the temporary directory.  The environment supplies the random part
    that the library settles on; a name that exists then stands for
    the library having run out of tries. *)
Definition osCreateTemp (prefix suffix : string) : M (result File) :=
  let* t := tick in
  osOpenFileExcl
    (Join TempDir (prefix +:+ pretty (env_rand env t) +:+ suffix)) 384.

(** [os.ReadFile(path)]. *)
Definition osReadFile (p : Path) : M (result bytes) :=
  λ w,
    match fs w !! p with
    | Some (RegularFile d) =>
        (let* e := fault in
         match e with
         | Some e => let* _ := emit (EvReadFile p false) in ret (Err e)
         | None => let* _ := emit (EvReadFile p true) in ret (Ok d)
         end) w
    | _ =>
        (let* _ := emit (EvReadFile p false) in
         ret (Err (ErrExternal "cannot read file"))) w
    end.

(** [os.Remove(path)] on a file deletes it, and does nothing to a path
    that is not a file.  The package never looks at the result of the
    call. *)
Definition osRemove (p : Path) : M unit :=
  let* _ := emit (EvRemove p) in
  λ w,
    match fs w !! p with
    | Some (RegularFile _) => (tt, set_fs (delete p) w)
    | _ => (tt, w)
    end.

(** [os.ReadDir(dir)]. *)
Definition osReadDir (dir : Path) : M (result (list DirEntry)) :=
  λ w,
    if is_dir (fs w) dir then
      (let* e := fault in
       match e with
       | Some e => let* _ := emit (EvReadDir dir false) in ret (Err e)
       | None =>
           let* _ := emit (EvReadDir dir true) in
           ret (Ok (list_dir dir (fs w)))
       end) w
    else
      (let* _ := emit (EvReadDir dir false) in
       ret (Err (ErrExternal "no such file or directory"))) w.

(** [os.MkdirAll(path, perm)]. *)
Definition osMkdirAll (p : Path) (perm : Z) : M (option error) :=
  let* e := fault in
  match e with
  | Some e => let* _ := emit (EvMkdirAll p perm false) in ret (Some e)
  | None =>
      λ w,
        match mkdir_all [] p (fs w) with
        | Ok m =>
            (None,
             set_fs (λ _, m)
               (set_trace (trace w ++ [EvMkdirAll p perm true]) w))
        | Err e =>
            (Some e, set_trace (trace w ++ [EvMkdirAll p perm false]) w)
        end
  end.

(** [bucket.Put(ctx, meta, file)]: the library reads the file from its
    offset to the end and sends it; on success the object is in the
    bucket. *)
Definition Put (bucket : string) (ctx : Context) (meta : ObjectMeta) (f : File)
  : M (result ObjectInfo) :=
  let* r := readAll f in
  match r with
  | Err e => let* _ := emit (EvPut f meta [] false) in ret (Err e)
  | Ok data =>
      let* e := fault in
      match e with
      | Some e => let* _ := emit (EvPut f meta data false) in ret (Err e)
      | None =>
          let* _ := emit (EvPut f meta data true) in
          λ w,
            (Ok {| info_size := length data; info_bucket := bucket |},
             set_remote
               (remote w ++ [{| obj_bucket := bucket; obj_meta := meta;
                                obj_data := data |}]) w)
      end
  end.

(** [conn.IsConnected()]. *)
Definition connIsConnected (c : nats.Conn) : M bool :=
  let* t := tick in ret (env_connected env t).

(** [conn.Close()]. *)
Definition connClose (c : nats.Conn) : M unit := emit (EvConnClose c).

Definition logx (lvl : Level) (msg : string) (err : option error) : M unit :=
  emit (EvLog lvl msg err).

End WithEnv.

(** ** The client: construction *)

Definition nonempty (s : string) : bool :=
  match s with EmptyString => false | _ => true end.

(** The options [newNATSClient] hands to [nats.Connect]. *)
Definition connectOptions (cfg : config.NATS) : list nats.Option :=
  let connectTimeout :=
    if decide (config.ConnectTimeout cfg = 0) then 30 * Second
    else config.ConnectTimeout cfg in
  let opts :=
    [ nats.Name "mox-email-server";
      nats.Timeout connectTimeout;
      nats.ReconnectWait (2 * Second);
      nats.MaxReconnects (-1);
      nats.DisconnectErrHandler;
      nats.ReconnectHandler;
      nats.ClosedHandler ] in
  if nonempty (config.CredentialsFile cfg) then
    opts ++ [nats.UserCredentials (config.CredentialsFile cfg)]
  else if nonempty (config.Token cfg) then
    opts ++ [nats.Token (config.Token cfg)]
  else if nonempty (config.Username cfg) then
    opts ++ [nats.UserInfo (config.Username cfg) (config.Password cfg)]
  else opts.

Definition pendingNATSDir : Path := ["store"; "tmp"; "nats-pending"].

Section Client.
Variable env : Env.

(** [nats.Connect(url, opts...)]. *)
Definition natsConnect (url : string) (opts : list nats.Option)
  : M (result nats.Conn) :=
  let* t := tick in
  match env_fault env t with
  | Some e => let* _ := emit (EvConnect url opts false) in ret (Err e)
  | None =>
      let* _ := emit (EvConnect url opts true) in
      ret (Ok {| nats.conn_id := t |})
  end.

(** [jetstream.New(conn)]. *)
Definition jetstreamNew (c : nats.Conn) : M (option error) := fault env.

(** [js.ObjectStore(ctx, bucket)] and [js.CreateObjectStore(ctx, cfg)]:
    the handle of the bucket, or an error, which for the former may be
    [jetstream.ErrBucketNotFound]. *)
Definition jsObjectStore (ctx : Context) (bucket : string) : M (result string) :=
  let* e := fault env in
  match e with Some e => ret (Err e) | None => ret (Ok bucket) end.

Definition jsCreateObjectStore (ctx : Context) (bucket description : string)
  : M (result string) :=
  let* e := fault env in
  match e with Some e => ret (Err e) | None => ret (Ok bucket) end.

Definition newNATSClient (cfg : config.NATS) : M (result NATSClient) :=
  let requestTimeout :=
    if decide (config.RequestTimeout cfg = 0) then 30 * Second
    else config.RequestTimeout cfg in
  let opts := connectOptions cfg in
  let* r := natsConnect (config.URL cfg) opts in
  match r with
  | Err err => ret (Err (Errorf "connecting to NATS: %w" [] err))
  | Ok c =>
      let* e := jetstreamNew c in
      match e with
      | Some err =>
          let* _ := connClose c in
          ret (Err (Errorf "creating JetStream context: %w" [] err))
      | None =>
          let ctx := WithTimeout Background requestTimeout in
          let* r := jsObjectStore ctx (config.BucketName cfg) in
          let* r :=
            match r with
            | Err ErrBucketNotFound =>
                let* _ := logx LInfo "creating NATS object store bucket" None in
                jsCreateObjectStore ctx (config.BucketName cfg)
                  "Email message storage for mox mail server"
            | _ => ret r
            end in
          match r with
          | Err err =>
              let* _ := connClose c in
              ret (Err (Errorf "creating/accessing object store bucket %q: %w"
                          [config.BucketName cfg] err))
          | Ok store =>
              let* _ := logx LInfo "NATS client initialized" None in
              ret (Ok {| conn := Some c; os := store; config := cfg |})
          end
      end
  end.

(** [InitNATS]: [natsOnce.Do] runs the construction at most once in the
    life of the process. *)
Definition InitNATS (cfg : option config.NATS) : M (option error) :=
  match cfg with
  | None =>
      let* _ := logx LDebug "NATS not configured, skipping initialization" None in
      ret None
  | Some cfg =>
      λ w,
        if natsOnce w then (None, w)
        else
          let (r, w1) := newNATSClient cfg w in
          match r with
          | Ok c => (None, set_client (Some c) w1)
          | Err e => (Some e, set_client None w1)
          end
  end.

Definition GetNATSClient : M (option NATSClient) :=
  λ w, (globalNATSClient w, w).

(** ** The client: methods.  A nil receiver is [None]. *)

Definition Config (nc : option NATSClient) : option config.NATS :=
  match nc with
  | None => None
  | Some c => Some (config c)
  end.

Definition StoreMessage (nc : option NATSClient) (ctx : Context)
    (messageID : Z) (msgFile : File) : M (option error) :=
  match nc with
  | None => ret None
  | Some c =>
      let* now := timeNow env in
      let objectName :=
        "msg-" +:+ pretty messageID +:+ "-" +:+ pretty (now `div` Second) in
      let* e := Seek0 env msgFile in
      match e with
      | Some err =>
          ret (Some (Errorf "seeking to start of message file: %w" [] err))
      | None =>
          let meta :=
            {| meta_name := objectName;
               meta_description := "Email message ID " +:+ pretty messageID |} in
          let* r := Put env (os c) ctx meta msgFile in
          match r with
          | Err err =>
              ret (Some (Errorf "storing message in NATS object store: %w" [] err))
          | Ok info =>
              let* _ := logx LDebug "message stored in NATS" None in
              ret None
          end
      end
  end.

Definition StoreMessageAsync (nc : option NATSClient) (ctx : Context)
    (messageID : Z) (msgFile : File) : M unit :=
  match nc with
  | None => ret tt
  | Some c =>
      let* e := Seek0 env msgFile in
      match e with
      | Some err =>
          logx LError "seeking to start of message file for async NATS storage"
            (Some err)
      | None =>
          let* r := osReadFile env (file_name msgFile) in
          match r with
          | Err err =>
              logx LError "reading message file for async NATS storage" (Some err)
          | Ok data => spawn (GoAsyncStore c messageID data)
          end
      end
  end.

Definition Close (nc : option NATSClient) : M (option error) :=
  match nc with
  | None => ret None
  | Some c =>
      match conn c with
      | None => ret None
      | Some cn => let* _ := connClose cn in ret None
      end
  end.

Definition IsConnected (nc : option NATSClient) : M bool :=
  match nc with
  | None => ret false
  | Some c =>
      match conn c with
      | None => ret false
      | Some cn => connIsConnected env cn
      end
  end.

(** Package initialisation. *)
Definition init : M unit :=
  let* _ := osMkdirAll env pendingNATSDir 448 in
  spawn GoProcessPendingNATSLoop.

Definition StoreMessageWithQueue (nc : option NATSClient) (ctx : Context)
    (messageID : Z) (msgFile : File) : M (option error) :=
  match nc with
  | None => ret None
  | Some c =>
      let* err := StoreMessage nc ctx messageID msgFile in
      match err with
      | None => ret None
      | Some err =>
          let* _ := logx LError "NATS store failed, queueing for retry" (Some err) in
          let* errSeek := Seek0 env msgFile in
          match errSeek with
          | Some errSeek => ret (Some (Errorf "seek for queue: %w" [] errSeek))
          | None =>
              let* now := timeNow env in
              let* salt := randIntn env 10000 in
              let queueName :=
                Join pendingNATSDir
                  ("msg-" +:+ pretty messageID +:+ "-" +:+ pretty now
                     +:+ "-" +:+ pretty salt) in
              let* r := osOpenFileExcl env queueName 384 in
              match r with
              | Err errCreate =>
                  ret (Some (Errorf "create queue file: %w" [] errCreate))
              | Ok out =>
                  let* errCopy := ioCopy env out msgFile in
                  let* _ := fileClose out in
                  match errCopy with
                  | Some errCopy =>
                      ret (Some (Errorf "copy to queue: %w" [] errCopy))
                  | None => ret (Some err)
                  end
              end
          end
      end
  end.

(** The goroutine that [StoreMessageAsync] starts, with the [data] it
    captured. *)
Definition asyncStore (c : NATSClient) (messageID : Z) (data : bytes) : M unit :=
  let ctx := WithTimeout Background (30 * Second) in
  let* r := osCreateTemp env "nats-tmp-async-" ".eml" in
  match r with
  | Err err =>
      logx LError "cannot create temp file for async NATS storage" (Some err)
  | Ok f =>
      let* err := Write env f data in
      let* _ :=
        match err with
        | None =>
            let* _ := Seek0 env f in
            let* _ := StoreMessageWithQueue (Some c) ctx messageID f in
            ret tt
        | Some _ => ret tt
        end in
      let* _ := fileClose f in
      osRemove (file_name f)
  end.

(** The body of [for _, f := range files] in [processPendingNATSLoop];
    returning without the rest of the list is the [break]. *)
Fixpoint processPendingFiles (files : list DirEntry) : M unit :=
  match files with
  | [] => ret tt
  | f :: rest =>
      if entry_isdir f then processPendingFiles rest
      else
        let path := Join pendingNATSDir (entry_name f) in
        match env_sscanf env (entry_name f) with
        | None => processPendingFiles rest
        | Some messageID =>
            let* client := GetNATSClient in
            match client with
            | None => ret tt
            | Some _ =>
                let* connected := IsConnected client in
                if negb connected then ret tt
                else
                  let* r := osOpen env path in
                  match r with
                  | Err _ => processPendingFiles rest
                  | Ok file =>
                      let ctx := WithTimeout Background (30 * Second) in
                      let* storeErr := StoreMessage client ctx messageID file in
                      let* _ := fileClose file in
                      let* _ :=
                        match storeErr with
                        | None => osRemove path
                        | Some _ => ret tt
                        end in
                      processPendingFiles rest
                  end
            end
        end
  end.

(** One round of the outer [for] of [processPendingNATSLoop]. *)
Definition processPendingPass : M unit :=
  let* r := osReadDir env pendingNATSDir in
  match r with
  | Err _ => timeSleep (10 * Second)
  | Ok files =>
      let* _ := processPendingFiles files in
      timeSleep (30 * Second)
  end.

(** [processPendingNATSLoop] is [for { ... }] without [return] and
    without a [break] of the outer loop: what can be said of it is
    where it stands after [n] rounds. *)
Fixpoint processPendingNATSLoop (n : nat) : M unit :=
  match n with
  | O => ret tt
  | S n' => let* _ := processPendingPass in processPendingNATSLoop n'
  end.

End Client.

(** ** Lifecycle: [Init], [Close] and the background workers *)

(** [AccountRemove]: the scheduled removal of an account. *)
Record AccountRemove : Type := { AccountName : string }.

(** How a call of [LoginAttemptCleanup(ctx)] ends. *)
Inductive CleanupResult : Type :=
  | CleanupReturns (err : option error)
  | CleanupPanics (x : string).

Definition Chan : Type := nat.

(** Where the goroutine started by [Init] (the login-attempt cleaner)
    stands: before the call of [LoginAttemptCleanup], blocked in its
    [select], about to send the acknowledgement on the channel it
    received, or returned. *)
Inductive CleanerPC : Type :=
  | CleanerNotStarted
  | CleanerBody
  | CleanerSelect
  | CleanerAck (c : Chan)
  | CleanerExited.

Inductive WriterPC : Type :=
  | WriterNotStarted
  | WriterRunning
  | WriterAck (c : Chan)
  | WriterExited.

(** Where a call of the package's [Close] stands. *)
Inductive ClosePC : Type :=
  | CloseNotCalled
  | CloseNotOpen
  | CloseSendWriter (stopc : Chan)
  | CloseRecvWriter (stopc : Chan)
  | CloseSendCleaner (stopc : Chan)
  | CloseRecvCleaner (stopc : Chan)
  | CloseClient
  | CloseDB
  | CloseReturned (err : option error).

Section Lifecycle.
(** What is not in the package's files: the state that account removal
    works on, the listing of the [AccountRemove] records of the
    database, [removeAccount], and the directory of [auth.db]. *)
Variable Accounts : Type.
Variable listRemovals : Accounts → list AccountRemove.
Variable removeAccount : string → Accounts → option error * Accounts.
Variable DataDir : Path.
Variable env : Env.

Record System : Type := {
  sys_world : World;
  sys_accounts : Accounts;
  sys_conf : option config.NATS;
  sys_authdb : bool;
  sys_ctx_done : bool;
  sys_tick_ready : bool;
  sys_cleaner : CleanerPC;
  sys_writer : WriterPC;
  sys_close : ClosePC;
  sys_next_chan : Chan;
  sys_cleanups : nat;
  sys_panics : nat
}.

Definition with_world (w : World) (s : System) : System :=
  {| sys_world := w; sys_accounts := sys_accounts s; sys_conf := sys_conf s;
     sys_authdb := sys_authdb s; sys_ctx_done := sys_ctx_done s;
     sys_tick_ready := sys_tick_ready s; sys_cleaner := sys_cleaner s;
     sys_writer := sys_writer s; sys_close := sys_close s;
     sys_next_chan := sys_next_chan s; sys_cleanups := sys_cleanups s;
     sys_panics := sys_panics s |}.

Definition with_accounts (a : Accounts) (s : System) : System :=
  {| sys_world := sys_world s; sys_accounts := a; sys_conf := sys_conf s;
     sys_authdb := sys_authdb s; sys_ctx_done := sys_ctx_done s;
     sys_tick_ready := sys_tick_ready s; sys_cleaner := sys_cleaner s;
     sys_writer := sys_writer s; sys_close := sys_close s;
     sys_next_chan := sys_next_chan s; sys_cleanups := sys_cleanups s;
     sys_panics := sys_panics s |}.

Definition with_authdb (b : bool) (s : System) : System :=
  {| sys_world := sys_world s; sys_accounts := sys_accounts s;
     sys_conf := sys_conf s;
     sys_authdb := b; sys_ctx_done := sys_ctx_done s;
     sys_tick_ready := sys_tick_ready s; sys_cleaner := sys_cleaner s;
     sys_writer := sys_writer s; sys_close := sys_close s;
     sys_next_chan := sys_next_chan s; sys_cleanups := sys_cleanups s;
     sys_panics := sys_panics s |}.

Definition with_ctx_done (b : bool) (s : System) : System :=
  {| sys_world := sys_world s; sys_accounts := sys_accounts s;
     sys_conf := sys_conf s;
     sys_authdb := sys_authdb s; sys_ctx_done := b;
     sys_tick_ready := sys_tick_ready s; sys_cleaner := sys_cleaner s;
     sys_writer := sys_writer s; sys_close := sys_close s;
     sys_next_chan := sys_next_chan s; sys_cleanups := sys_cleanups s;
     sys_panics := sys_panics s |}.

Definition with_tick_ready (b : bool) (s : System) : System :=
  {| sys_world := sys_world s; sys_accounts := sys_accounts s;
     sys_conf := sys_conf s;
     sys_authdb := sys_authdb s; sys_ctx_done := sys_ctx_done s;
     sys_tick_ready := b; sys_cleaner := sys_cleaner s;
     sys_writer := sys_writer s; sys_close := sys_close s;
     sys_next_chan := sys_next_chan s; sys_cleanups := sys_cleanups s;
     sys_panics := sys_panics s |}.

Definition with_cleaner (pc : CleanerPC) (s : System) : System :=
  {| sys_world := sys_world s; sys_accounts := sys_accounts s;
     sys_conf := sys_conf s;
     sys_authdb := sys_authdb s; sys_ctx_done := sys_ctx_done s;
     sys_tick_ready := sys_tick_ready s; sys_cleaner := pc;
     sys_writer := sys_writer s; sys_close := sys_close s;
     sys_next_chan := sys_next_chan s; sys_cleanups := sys_cleanups s;
     sys_panics := sys_panics s |}.

Definition with_writer (pc : WriterPC) (s : System) : System :=
  {| sys_world := sys_world s; sys_accounts := sys_accounts s;
     sys_conf := sys_conf s;
     sys_authdb := sys_authdb s; sys_ctx_done := sys_ctx_done s;
     sys_tick_ready := sys_tick_ready s; sys_cleaner := sys_cleaner s;
     sys_writer := pc; sys_close := sys_close s;
     sys_next_chan := sys_next_chan s; sys_cleanups := sys_cleanups s;
     sys_panics := sys_panics s |}.

Definition with_close (pc : ClosePC) (s : System) : System :=
  {| sys_world := sys_world s; sys_accounts := sys_accounts s;
     sys_conf := sys_conf s;
     sys_authdb := sys_authdb s; sys_ctx_done := sys_ctx_done s;
     sys_tick_ready := sys_tick_ready s; sys_cleaner := sys_cleaner s;
     sys_writer := sys_writer s; sys_close := pc;
     sys_next_chan := sys_next_chan s; sys_cleanups := sys_cleanups s;
     sys_panics := sys_panics s |}.

(** [make(chan struct{})]: a channel no one else has. *)
Definition make_chan (s : System) : Chan * System :=
  (sys_next_chan s,
   {| sys_world := sys_world s; sys_accounts := sys_accounts s;
      sys_conf := sys_conf s;
      sys_authdb := sys_authdb s; sys_ctx_done := sys_ctx_done s;
      sys_tick_ready := sys_tick_ready s; sys_cleaner := sys_cleaner s;
      sys_writer := sys_writer s; sys_close := sys_close s;
      sys_next_chan := S (sys_next_chan s); sys_cleanups := sys_cleanups s;
      sys_panics := sys_panics s |}).

Definition count_cleanup (s : System) : System :=
  {| sys_world := sys_world s; sys_accounts := sys_accounts s;
     sys_conf := sys_conf s;
     sys_authdb := sys_authdb s; sys_ctx_done := sys_ctx_done s;
     sys_tick_ready := sys_tick_ready s; sys_cleaner := sys_cleaner s;
     sys_writer := sys_writer s; sys_close := sys_close s;
     sys_next_chan := sys_next_chan s; sys_cleanups := S (sys_cleanups s);
     sys_panics := sys_panics s |}.

(** [metrics.PanicInc(metrics.Store)]. *)
Definition PanicInc (s : System) : System :=
  {| sys_world := sys_world s; sys_accounts := sys_accounts s;
     sys_conf := sys_conf s;
     sys_authdb := sys_authdb s; sys_ctx_done := sys_ctx_done s;
     sys_tick_ready := sys_tick_ready s; sys_cleaner := sys_cleaner s;
     sys_writer := sys_writer s; sys_close := sys_close s;
     sys_next_chan := sys_next_chan s; sys_cleanups := sys_cleanups s;
     sys_panics := S (sys_panics s) |}.

(** Run a piece of [World]-passing code inside the system. *)
Definition in_world {A} (m : M A) (s : System) : A * System :=
  let (a, w) := m (sys_world s) in (a, with_world w s).

(** The loop of [Init] over the pending removals. *)
Fixpoint removeAccounts (removals : list AccountRemove) (s : System) : System :=
  match removals with
  | [] => s
  | removal :: rest =>
      let (err, a) := removeAccount (AccountName removal) (sys_accounts s) in
      let s1 := with_accounts a s in
      let s2 :=
        match err with
        | Some e => (in_world (logx LError "removing old account" (Some e)) s1).2
        | None => s1
        end in
      removeAccounts rest s2
  end.

(** [Init(ctx)]. *)
Definition Init (s : System) : option error * System :=
  if sys_authdb s then (Some (ErrorString "already initialized"), s)
  else
    let s := (in_world (osMkdirAll env DataDir 504) s).2 in
    (* AuthDB, err = bstore.Open(...) *)
    let (e, s) := in_world (fault env) s in
    match e with
    | Some err => (Some err, s)
    | None =>
        let s := with_authdb true s in
        (* removals, err := bstore.QueryDB[AccountRemove](ctx, AuthDB).List() *)
        let (e, s) := in_world (fault env) s in
        match e with
        | Some err =>
            (Some (Errorf "listing scheduled account removals: %v" [] err), s)
        | None =>
            let removals := listRemovals (sys_accounts s) in
            let s := removeAccounts removals s in
            (* startLoginAttemptWriter() *)
            let s := (in_world (spawn GoLoginAttemptWriter) s).2 in
            let s := with_writer WriterRunning s in
            (* go func() { ... }() *)
            let s := (in_world (spawn GoLoginAttemptCleaner) s).2 in
            let s := with_tick_ready false (with_cleaner CleanerBody s) in
            let (e, s) := in_world (InitNATS env (sys_conf s)) s in
            let s :=
              match e with
              | Some err =>
                  (in_world (logx LError "initializing NATS client" (Some err)) s).2
              | None => s
              end in
            (None, s)
        end
    end.

Definition is_retry_loop (g : Goroutine) : bool :=
  match g with GoProcessPendingNATSLoop => true | _ => false end.

(** ** Interleaving of the goroutines

    One step of the process: a goroutine moves from one blocking point
    to the next, or the outside acts (the context is cancelled, the
    ticker fires).  A send on an unbuffered channel and the matching
    receive are one step of both parties. *)
Inductive Label : Type :=
  | LInit
  | LCancel
  | LTickFire
  | LCleanup (r : CleanupResult)
  | LCleanerRecvStop
  | LCleanerRecvTick
  | LCleanerRecvDone
  | LCleanerAck
  | LWriterRecvStop
  | LWriterAck
  | LCallClose
  | LCloseClient
  | LCloseDB
  | LRetryPass.

(** The cleaner calls [LoginAttemptCleanup(ctx)].  When the call
    returns, [pkglog.Check] logs the error if there is one and the
    goroutine reaches its [select].  When the call panics, the stack
    unwinds out of the [for] to the deferred function, which finds
    [recover() != nil], logs, and counts the panic; the goroutine's
    function has then returned. *)
Definition cleaner_body (r : CleanupResult) (s : System) : System :=
  let s := count_cleanup s in
  match r with
  | CleanupReturns err =>
      let s :=
        match err with
        | Some e =>
            (in_world (logx LError "cleaning up old historic login attempts"
                         (Some e)) s).2
        | None => s
        end in
      with_cleaner CleanerSelect s
  | CleanupPanics x =>
      let s :=
        (in_world (logx LError "unhandled panic in LoginAttemptCleanup"
                     (Some (ErrorString x))) s).2 in
      with_cleaner CleanerExited (PanicInc s)
  end.

(** Modelled from the spec: the login-attempt writer
    ([startLoginAttemptWriter], [writeLoginAttemptStop]) is not among the
    package's files.  The spec (section 5) has every worker stopped by
    the same rendezvous: the worker receives the acknowledgement channel
    that [Close] sends on the worker's stop channel
    ([writeLoginAttemptStop <- stopc] in [Close]), sends a value back on
    it and terminates; [Close] receives it ([<-stopc]) and goes on to
    make the channel for the cleaner. *)
Definition writer_recv_stop (s : System) : option System :=
  match sys_writer s, sys_close s with
  | WriterRunning, CloseSendWriter c =>
      Some (with_close (CloseRecvWriter c) (with_writer (WriterAck c) s))
  | _, _ => None
  end.

Definition writer_ack (s : System) : option System :=
  match sys_writer s, sys_close s with
  | WriterAck c, CloseRecvWriter c' =>
      if decide (c = c')
      then
        let s := with_writer WriterExited s in
        let (stopc, s) := make_chan s in
        Some (with_close (CloseSendCleaner stopc) s)
      else None
  | _, _ => None
  end.

Definition step (l : Label) (s : System) : option System :=
  match l with
  | LInit =>
      match sys_close s with
      | CloseNotCalled => Some (Init s).2
      | _ => None
      end
  | LCancel => Some (with_ctx_done true s)
  | LTickFire =>
      (* t := time.NewTicker(24 * time.Hour) is never stopped *)
      match sys_cleaner s with
      | CleanerNotStarted => None
      | _ => Some (with_tick_ready true s)
      end
  | LCleanup r =>
      match sys_cleaner s with
      | CleanerBody => Some (cleaner_body r s)
      | _ => None
      end
  | LCleanerRecvStop =>
      (* case c := <-loginAttemptCleanerStop *)
      match sys_cleaner s, sys_close s with
      | CleanerSelect, CloseSendCleaner c =>
          Some (with_close (CloseRecvCleaner c) (with_cleaner (CleanerAck c) s))
      | _, _ => None
      end
  | LCleanerRecvTick =>
      (* case <-t.C *)
      match sys_cleaner s with
      | CleanerSelect =>
          if sys_tick_ready s
          then Some (with_tick_ready false (with_cleaner CleanerBody s))
          else None
      | _ => None
      end
  | LCleanerRecvDone =>
      (* case <-ctx.Done(): return *)
      match sys_cleaner s with
      | CleanerSelect =>
          if sys_ctx_done s then Some (with_cleaner CleanerExited s) else None
      | _ => None
      end
  | LCleanerAck =>
      (* c <- struct{}{}; return   meets   <-stopc *)
      match sys_cleaner s, sys_close s with
      | CleanerAck c, CloseRecvCleaner c' =>
          if decide (c = c')
          then Some (with_close CloseClient (with_cleaner CleanerExited s))
          else None
      | _, _ => None
      end
  | LWriterRecvStop => writer_recv_stop s
  | LWriterAck => writer_ack s
  | LCallClose =>
      match sys_close s with
      | CloseNotCalled =>
          if sys_authdb s then
            let (stopc, s) := make_chan s in
            Some (with_close (CloseSendWriter stopc) s)
          else Some (with_close CloseNotOpen s)
      | _ => None
      end
  | LCloseClient =>
      match sys_close s with
      | CloseClient =>
          let (natsClient, s) := in_world GetNATSClient s in
          let s :=
            match natsClient with
            | Some _ =>
                let (err, s) := in_world (Close natsClient) s in
                match err with
                | Some e =>
                    (in_world (logx LError "closing NATS client" (Some e)) s).2
                | None => s
                end
            | None => s
            end in
          Some (with_close CloseDB s)
      | _ => None
      end
  | LCloseDB =>
      match sys_close s with
      | CloseDB =>
          (* err := AuthDB.Close(); AuthDB = nil; return err *)
          let (err, s) := in_world (fault env) s in
          Some (with_close (CloseReturned err) (with_authdb false s))
      | _ => None
      end
  | LRetryPass =>
      if existsb is_retry_loop (goroutines (sys_world s))
      then Some (in_world (processPendingPass env) s).2
      else None
  end.

Fixpoint run (ls : list Label) (s : System) : option System :=
  match ls with
  | [] => Some s
  | l :: ls' =>
      match step l s with
      | Some s' => run ls' s'
      | None => None
      end
  end.

End Lifecycle.

Arguments sys_world {Accounts} s.
Arguments sys_accounts {Accounts} s.
Arguments sys_conf {Accounts} s.
Arguments sys_authdb {Accounts} s.
Arguments sys_ctx_done {Accounts} s.
Arguments sys_tick_ready {Accounts} s.
Arguments sys_cleaner {Accounts} s.
Arguments sys_writer {Accounts} s.
Arguments sys_close {Accounts} s.
Arguments sys_next_chan {Accounts} s.
Arguments sys_cleanups {Accounts} s.
Arguments sys_panics {Accounts} s.
Arguments with_world {Accounts} w s.
Arguments with_accounts {Accounts} a s.
Arguments with_authdb {Accounts} b s.
Arguments with_ctx_done {Accounts} b s.
Arguments with_tick_ready {Accounts} b s.
Arguments with_cleaner {Accounts} pc s.
Arguments with_writer {Accounts} pc s.
Arguments with_close {Accounts} pc s.
Arguments make_chan {Accounts} s.
Arguments count_cleanup {Accounts} s.
Arguments PanicInc {Accounts} s.
Arguments in_world {Accounts A} m s.
Arguments removeAccounts {Accounts} removeAccount removals s.
Arguments Init {Accounts} listRemovals removeAccount DataDir env s.
Arguments cleaner_body {Accounts} r s.
Arguments writer_recv_stop {Accounts} s.
Arguments writer_ack {Accounts} s.
Arguments step {Accounts} listRemovals removeAccount DataDir env l s.
Arguments run {Accounts} listRemovals removeAccount DataDir env ls s.

(** * Notions used in the statements *)

(** The authentication option that the priority of [newNATSClient]
    selects: credentials file, else token, else user name and
    password, else none. *)
Definition auth_choice (cfg : config.NATS) : list nats.Option :=
  if nonempty (config.CredentialsFile cfg) then
    [nats.UserCredentials (config.CredentialsFile cfg)]
  else if nonempty (config.Token cfg) then [nats.Token (config.Token cfg)]
  else if nonempty (config.Username cfg) then
    [nats.UserInfo (config.Username cfg) (config.Password cfg)]
  else [].

Definition is_connect (e : Event) : bool :=
  match e with EvConnect _ _ _ => true | _ => false end.

Definition is_create (e : Event) : bool :=
  match e with EvCreate _ _ => true | _ => false end.

(** The statements of [StoreMessageWithQueue] between the log line and
    the final [return err], as a function of their own: seek, exclusive
    create, copy.  The result is the error that part returns, [None] when
    it reaches [return err]. *)
Definition spoolEnqueue (env : Env) (messageID : Z) (msgFile : File)
  : M (option error) :=
  let* errSeek := Seek0 env msgFile in
  match errSeek with
  | Some errSeek => ret (Some (Errorf "seek for queue: %w" [] errSeek))
  | None =>
      let* now := timeNow env in
      let* salt := randIntn env 10000 in
      let queueName :=
        Join pendingNATSDir
          ("msg-" +:+ pretty messageID +:+ "-" +:+ pretty now
             +:+ "-" +:+ pretty salt) in
      let* r := osOpenFileExcl env queueName 384 in
      match r with
      | Err errCreate => ret (Some (Errorf "create queue file: %w" [] errCreate))
      | Ok out =>
          let* errCopy := ioCopy env out msgFile in
          let* _ := fileClose out in
          match errCopy with
          | Some errCopy => ret (Some (Errorf "copy to queue: %w" [] errCopy))
          | None => ret None
          end
      end
  end.

(** The name of the spool entry that an enqueue generates when it reads
    the wall clock at logical time [t] (and the random source next). *)
Definition queueNameAt (env : Env) (messageID : Z) (t : nat) : Path :=
  Join pendingNATSDir
    ("msg-" +:+ pretty messageID +:+ "-" +:+ pretty (env_now env t)
       +:+ "-" +:+ pretty (env_rand env (S t) `mod` 10000)).

(** The world after the line
    [nc.log.Errorx("NATS store failed, queueing for retry", err, ...)]. *)
Definition logged_failure (err : error) (w : World) : World :=
  (logx LError "NATS store failed, queueing for retry" (Some err) w).2.

(** A collision being a retry-the-enqueue condition would show as a
    second attempt to create an entry. *)
Definition enqueue_retried (evs : list Event) : Prop :=
  (2 ≤ length (filter (λ e, is_create e = true) evs))%nat.

(** * Concrete inputs *)

Module Ex.
Definition net_down : error := ErrExternal "net down".

(** An environment whose only failure is the one met by the call made
    at logical time [2]; the connection always reports itself up. *)
Definition env : Env := {|
  env_fault := λ t, if decide (t = 2%nat) then Some net_down else None;
  env_partial := λ _, 0%nat;
  env_connected := λ _, true;
  env_now := λ t, 1700000000 * Second + Z.of_nat t;
  env_rand := λ t, 4242 + Z.of_nat t;
  env_sscanf := λ _, None
|}.

Definition cfg : config.NATS := {|
  config.URL := "nats://localhost:4222";
  config.BucketName := "mox-emails";
  config.Username := "user";
  config.Password := "secret";
  config.Token := "token";
  config.CredentialsFile := EmptyString;
  config.ConnectTimeout := 0;
  config.RequestTimeout := 0;
  config.DeleteAfterStore := false
|}.

Definition client : NATSClient :=
  {| conn := Some {| nats.conn_id := 0 |}; os := "mox-emails"; config := cfg |}.

Definition msg : bytes := [Byte.x48; Byte.x69; Byte.x0a].

Definition msgFile : File := {| file_fd := 3; file_name := ["data"; "msg"; "7"] |}.

(** The spool directory exists and is empty; the message file is open
    with its offset past the first byte. *)
Definition world : World := {|
  fs := <[ ["data"; "msg"; "7"] := RegularFile msg ]>
        (<[ ["tmp"] := Directory ]>
        (<[ ["store"; "tmp"; "nats-pending"] := Directory ]>
        (<[ ["store"; "tmp"] := Directory ]>
        (<[ ["store"] := Directory ]> ∅))));
  handles := <[ 3%nat := {| h_path := ["data"; "msg"; "7"]; h_pos := 1 |} ]> ∅;
  next_fd := 4;
  remote := [];
  clock := 0;
  trace := [];
  globalNATSClient := Some client;
  natsOnce := true;
  goroutines := []
|}.

(** The same world, where the name the enqueue will generate is already
    taken by another entry. *)
Definition world_collision : World :=
  set_fs (<[ queueNameAt env 42 4 := RegularFile [Byte.x58] ]>) world.

(** A reader for entry names, standing for
    [fmt.Sscanf(name, "msg-%d-", &messageID)] in the examples: the
    literal [msg-], blanks, an optional sign, decimal digits within
    [int64], and the literal [-]. *)
Definition digit_of (c : ascii) : option Z :=
  let n := Z.of_nat (nat_of_ascii c) in
  if (48 <=? n) && (n <=? 57) then Some (n - 48) else None.

Fixpoint scan_digits (s : string) (acc : option Z) : option Z * string :=
  match s with
  | String c rest =>
      match digit_of c with
      | Some d => scan_digits rest (Some (10 * default 0 acc + d))
      | None => (acc, s)
      end
  | EmptyString => (acc, s)
  end.

Fixpoint skip_blanks (s : string) : string :=
  match s with
  | String " " rest => skip_blanks rest
  | _ => s
  end.

Definition scan_msg_id (name : string) : option Z :=
  match name with
  | String "m" (String "s" (String "g" (String "-" rest))) =>
      let rest := skip_blanks rest in
      let '(neg, rest) :=
        match rest with
        | String "-" r => (true, r)
        | String "+" r => (false, r)
        | _ => (false, rest)
        end in
      match scan_digits rest None with
      | (Some n, String "-" _) =>
          let v := if (neg : bool) then - n else n in
          if (- 2 ^ 63 <=? v) && (v <? 2 ^ 63) then Some v else None
      | _ => None
      end
  | _ => None
  end.


(** The connection never reports itself up. *)
Definition env_disconnected : Env := {|
  env_fault := λ _, None;
  env_partial := λ _, 0%nat;
  env_connected := λ _, false;
  env_now := λ t, 1700000000 * Second + Z.of_nat t;
  env_rand := λ t, 4242 + Z.of_nat t;
  env_sscanf := scan_msg_id
|}.

Definition entry1 : Path := Join pendingNATSDir "msg-41-1700000000000000001-17".
Definition entry2 : Path := Join pendingNATSDir "msg-42-1700000000000000002-18".

(** A spool with two entries, a file whose name is not an entry name,
    and a subdirectory. *)
Definition world_spool : World :=
  set_fs (λ m,
    <[ entry1 := RegularFile [Byte.x41] ]>
    (<[ entry2 := RegularFile [Byte.x42; Byte.x43] ]>
    (<[ Join pendingNATSDir "README" := RegularFile [Byte.x3f] ]>
    (<[ Join pendingNATSDir "msg-9-sub" := Directory ]> m)))) world.

(** The same spool in a process without archival configuration. *)
Definition world_unconfigured : World :=
  {| fs := fs world_spool; handles := ∅; next_fd := 3; remote := [];
     clock := 0; trace := []; globalNATSClient := None; natsOnce := false;
     goroutines := [] |}.
End Ex.

(** * Notions for the retry loop *)

Definition entry_path (f : DirEntry) : Path := Join pendingNATSDir (entry_name f).

(** A well-formed entry: not a directory, and a name from which
    [fmt.Sscanf] reads a message ID. *)
Definition well_formed (env : Env) (f : DirEntry) : bool :=
  negb (entry_isdir f) && bool_decide (is_Some (env_sscanf env (entry_name f))).

(** The archival client is absent, or answers that it is not connected
    whenever it is asked. *)
Definition client_down (env : Env) (w : World) : Prop :=
  ∀ t, (IsConnected env (globalNATSClient w) (set_clock t w)).1 = false.

(** The client is there and answers, when asked now, that it is
    connected. *)
Definition live (env : Env) (w : World) : Prop :=
  ∃ c cn, globalNATSClient w = Some c ∧ conn c = Some cn
          ∧ env_connected env (clock w) = true.

(** [evs] is what was appended to the trace between [w] and [w']. *)
Definition new_events (w w' : World) (evs : list Event) : Prop :=
  trace w' = trace w ++ evs.



Definition is_readdir (e : Event) : bool :=
  match e with EvReadDir _ _ => true | _ => false end.


(** A path as the program writes it. *)
Definition path_string (p : Path) : string := String.concat "/" p.

(** The files handed to [Put], in the order of the attempts. *)
Definition put_paths (evs : list Event) : list Path :=
  omap (λ e, match e with EvPut f _ _ _ => Some (file_name f) | _ => None end) evs.

(** How the handling of one entry that the loop reaches with a live
    client ends. *)
Inductive Outcome : Type :=
  | OOpenFailed
  | OSeekFailed (file : File)
  | OPutFailed (file : File) (meta : ObjectMeta) (data : bytes)
  | OStored (file : File) (meta : ObjectMeta) (data : bytes).

Definition outcome_events (p : Path) (o : Outcome) : list Event :=
  match o with
  | OOpenFailed => [EvOpen p false]
  | OSeekFailed f => [EvOpen p true; EvSeek f false; EvClose f]
  | OPutFailed f m d =>
      [EvOpen p true; EvSeek f true; EvPut f m d false; EvClose f]
  | OStored f m d =>
      [EvOpen p true; EvSeek f true; EvPut f m d true;
       EvLog LDebug "message stored in NATS" None; EvClose f; EvRemove p]
  end.

Definition is_stored (o : Outcome) : bool :=
  match o with OStored _ _ _ => true | _ => false end.

(** The file of an outcome is the one opened on the entry's path. *)
Definition outcome_on (p : Path) (o : Outcome) : Prop :=
  match o with
  | OOpenFailed => True
  | OSeekFailed f | OPutFailed f _ _ | OStored f _ _ => file_name f = p
  end.

Definition outcomes_events (outs : list (DirEntry * Outcome)) : list Event :=
  outs ≫= λ fo, outcome_events (entry_path fo.1) fo.2.

Definition outcomes_fs (outs : list (DirEntry * Outcome)) (m : gmap Path Node)
  : gmap Path Node :=
  foldl (λ m fo, if is_stored fo.2 then delete (entry_path fo.1) m else m) m outs.

(** * Notions for the asynchronous store *)

(** The open file [f] holds [data]. *)
Definition holds (f : File) (data : bytes) (w : World) : Prop :=
  (∃ h, handles w !! file_fd f = Some h ∧ h_path h = file_name f)
  ∧ fs w !! file_name f = Some (RegularFile data)
  ∧ (file_fd f < next_fd w)%nat.

(** Between [w] and [w'] nothing but [data] was handed to [Put] or added
    to the bucket, and every file that was written holds [data] or, when
    the write was cut short, a prefix of it. *)
Definition only_data (data : bytes) (w w' : World) : Prop :=
  (∃ evs, new_events w w' evs ∧ ∀ f m d ok, EvPut f m d ok ∈ evs → d = data)
  ∧ (∃ objs, remote w' = remote w ++ objs
             ∧ Forall (λ o, obj_data o = data) objs)
  ∧ (∀ p d, fs w' !! p = Some (RegularFile d) →
            fs w !! p = Some (RegularFile d) ∨ d `prefix_of` data).

(** * Notions for the lifecycle *)

Section LifecycleNotions.
Variable Accounts : Type.
Variable listRemovals : Accounts → list AccountRemove.
Variable removeAccount : string → Accounts → option error * Accounts.
Variable DataDir : Path.
Variable env : Env.

(** Attempting every removal in turn, whatever the earlier ones
    returned: the attempts with their results, and the state of the
    accounts at the end. *)
Fixpoint removal_run (removals : list AccountRemove) (a : Accounts)
  : list (string * option error) * Accounts :=
  match removals with
  | [] => ([], a)
  | removal :: rest =>
      let (err, a1) := removeAccount (AccountName removal) a in
      let (attempts, a2) := removal_run rest a1 in
      ((AccountName removal, err) :: attempts, a2)
  end.

(** The log lines of the failed attempts. *)
Definition removal_logs (attempts : list (string * option error)) : list Event :=
  omap (λ attempt,
          match attempt.2 with
          | Some e => Some (EvLog LError "removing old account" (Some e))
          | None => None
          end) attempts.

(** [bstore.Open] is the fallible call that [Init] makes right after
    [os.MkdirAll], and the listing of the removals is the next one. *)
Definition db_opens (s : System Accounts) : Prop :=
  env_fault env (S (clock (sys_world s))) = None.

Definition db_lists (s : System Accounts) : Prop :=
  env_fault env (S (S (clock (sys_world s)))) = None.

(** The last statements of [Init]: [InitNATS], and the log line when it
    fails. *)
Definition InitNATS_logged (s1 : System Accounts) : System Accounts :=
  let (e, s) := in_world (InitNATS env (sys_conf s1)) s1 in
  match e with
  | Some err =>
      (in_world (logx LError "initializing NATS client" (Some err)) s).2
  | None => s
  end.

(** The retry loop has been started. *)
Definition retry_started (s : System Accounts) : Prop :=
  existsb is_retry_loop (goroutines (sys_world s)) = true.

(** What the rendezvous of [Close] guarantees at each of its program
    points. *)
Definition close_inv (s : System Accounts) : Prop :=
  match sys_close s with
  | CloseSendCleaner _ | CloseRecvCleaner _ => sys_writer s = WriterExited
  | CloseClient | CloseDB | CloseReturned _ =>
      sys_writer s = WriterExited ∧ sys_cleaner s = CleanerExited
  | _ => True
  end.

(** The retry loop has ceased: it takes no further round. *)
Definition retry_loop_ceased (s : System Accounts) : Prop :=
  step listRemovals removeAccount DataDir env LRetryPass s = None.

(** The cleaner's [select] takes the tick that is waiting in [t.C],
    and the stop request that [Close] is sending. *)
Definition cleaner_takes_tick (s : System Accounts) : Prop :=
  is_Some (step listRemovals removeAccount DataDir env LCleanerRecvTick s).

Definition cleaner_takes_stop (s : System Accounts) : Prop :=
  is_Some (step listRemovals removeAccount DataDir env LCleanerRecvStop s).

(** The cleaner has returned for good: no [Init] can start it again. *)
Definition cleaner_gone (s : System Accounts) : Prop :=
  sys_cleaner s = CleanerExited
  ∧ (sys_close s = CloseNotCalled → sys_authdb s = true).

End LifecycleNotions.

Arguments removal_run {Accounts} removeAccount removals a.
Arguments db_opens {Accounts} env s.
Arguments db_lists {Accounts} env s.
Arguments InitNATS_logged {Accounts} env s1.
Arguments retry_started {Accounts} s.
Arguments retry_loop_ceased {Accounts} listRemovals removeAccount DataDir env s.
Arguments cleaner_takes_tick {Accounts} listRemovals removeAccount DataDir env s.
Arguments cleaner_takes_stop {Accounts} listRemovals removeAccount DataDir env s.
Arguments close_inv {Accounts} s.
Arguments cleaner_gone {Accounts} s.

(** * A concrete process *)

Module ExSys.
(** The accounts are the pending removal records; removing account
    [a] fails, removing any other account retires its record. *)
Definition Accounts : Type := list AccountRemove.

Definition listRemovals (a : Accounts) : list AccountRemove := a.

Definition removeAccount (name : string) (a : Accounts) : option error * Accounts :=
  if decide (name = "a") then (Some (ErrExternal "account in use"), a)
  else (None, filter (λ r, AccountName r ≠ name) a).

Definition DataDir : Path := ["data"].

(** No call fails, the connection is never up. *)
Definition env : Env := Ex.env_disconnected.

(** The process after package initialisation and before [Init], with
    removals of [a] and [b] pending and no archival configuration. *)
Definition boot : System Accounts := {|
  sys_world := (init env Ex.world_unconfigured).2;
  sys_accounts := [ {| AccountName := "a" |}; {| AccountName := "b" |} ];
  sys_conf := None;
  sys_authdb := false;
  sys_ctx_done := false;
  sys_tick_ready := false;
  sys_cleaner := CleanerNotStarted;
  sys_writer := WriterNotStarted;
  sys_close := CloseNotCalled;
  sys_next_chan := 0%nat;
  sys_cleanups := 0;
  sys_panics := 0
|}.

Abbreviation step := (step listRemovals removeAccount DataDir env).
Abbreviation run := (run listRemovals removeAccount DataDir env).

(** Start-up, a first clean-up, then shutdown: the context is cancelled
    and [Close] runs to its return. *)
Definition shutdown : list (Label) :=
  [ LInit; LCleanup (CleanupReturns None); LCancel; LCallClose;
    LWriterRecvStop; LWriterAck; LCleanerRecvStop; LCleanerAck;
    LCloseClient; LCloseDB ].

(** Start-up, a clean-up that panics, and the next tick of the
    ticker. *)
Definition panic_then_tick : list (Label) :=
  [ LInit; LCleanup (CleanupPanics "boom"); LTickFire ].

(** The same, followed by a call of [Close] up to its stop request to
    the cleaner. *)
Definition panic_then_close : list (Label) :=
  panic_then_tick ++ [ LCallClose; LWriterRecvStop; LWriterAck ].
End ExSys.

(** * Notions for further properties of the client *)

(** The object that [StoreMessage] builds for message [messageID] when
    [time.Now()] is [now] (nanoseconds since the epoch) and the file
    holds [data]. *)
Definition message_object (bucket : string) (messageID now : Z) (data : bytes)
  : Object :=
  {| obj_bucket := bucket;
     obj_meta :=
       {| meta_name :=
            "msg-" +:+ pretty messageID +:+ "-" +:+ pretty (now `div` Second);
          meta_description := "Email message ID " +:+ pretty messageID |};
     obj_data := data |}.

Definition is_conn_close (e : Event) : bool :=
  match e with EvConnClose _ => true | _ => false end.

(** A sequence of calls of [InitNATS], one per element of [cfgs], with
    the errors they return. *)
Fixpoint InitNATS_calls (env : Env) (cfgs : list (option config.NATS))
  : M (list (option error)) :=
  match cfgs with
  | [] => ret []
  | cfg :: rest =>
      let* e := InitNATS env cfg in
      let* es := InitNATS_calls env rest in
      ret (e :: es)
  end.


(** An error of the enqueue part of [StoreMessageWithQueue]. *)
Definition is_queue_error (e : error) : Prop :=
  ∃ e', e = Errorf "seek for queue: %w" [] e'
        ∨ e = Errorf "create queue file: %w" [] e'
        ∨ e = Errorf "copy to queue: %w" [] e'.

(** An error of [StoreMessage]. *)
Definition is_store_error (e : error) : Prop :=
  ∃ e', e = Errorf "seeking to start of message file: %w" [] e'
        ∨ e = Errorf "storing message in NATS object store: %w" [] e'.

(** Descriptors that have not been handed out are not open. *)
Definition fds_fresh (w : World) : Prop :=
  ∀ fd, (next_fd w ≤ fd)%nat → handles w !! fd = None.

(** The file system [m'] is [m], or [m] with one new entry of the spool
    holding a prefix of [data]. *)
Definition spooled_prefix (env : Env) (messageID : Z) (data : bytes)
    (m m' : gmap Path Node) : Prop :=
  m' = m
  ∨ ∃ t d, m !! queueNameAt env messageID t = None
           ∧ m' = <[queueNameAt env messageID t := RegularFile d]> m
           ∧ d `prefix_of` data.


(** The descriptors other than that of [f] are as before, none has
    appeared or gone, and the fresh ones are still fresh. *)
Definition same_fds (f : File) (w w' : World) : Prop :=
  (∀ fd, fd ≠ file_fd f → handles w' !! fd = handles w !! fd)
  ∧ (is_Some (handles w' !! file_fd f) ↔ is_Some (handles w !! file_fd f))
  ∧ (next_fd w ≤ next_fd w')%nat.


(** * Notions for further properties of the retry loop *)

(** From logical time [t0] on, no call fails and the connection reports
    itself up. *)
Definition calm (env : Env) (t0 : nat) : Prop :=
  ∀ t, (t0 ≤ t)%nat → env_fault env t = None ∧ env_connected env t = true.

(** The time slept, in nanoseconds. *)
Definition slept (evs : list Event) : Z :=
  foldr (λ e acc, match e with EvSleep d => d + acc | _ => acc end) 0 evs.

(** The path that an event of the file system or of the bucket is
    about. *)
Definition event_path (e : Event) : option Path :=
  match e with
  | EvOpen p _ | EvRemove p | EvCreate p _ | EvReadFile p _ => Some p
  | EvSeek f _ | EvPut f _ _ _ | EvWrite f _ | EvClose f => Some (file_name f)
  | _ => None
  end.

(** Between the file systems [m] and [m'] nothing happened but the
    removal of regular files of the spool whose names are those of
    entries. *)
Definition retired (env : Env) (m m' : gmap Path Node) : Prop :=
  ∀ p, m' !! p = m !! p
       ∨ (m' !! p = None
          ∧ ∃ name id d, p = Join pendingNATSDir name
                         ∧ env_sscanf env name = Some id
                         ∧ m !! p = Some (RegularFile d)).

(** * Notions for further properties of the lifecycle *)

(** [Close] has not got past its stop request to the cleaner. *)
Definition close_waits (pc : ClosePC) : Prop :=
  match pc with
  | CloseNotCalled | CloseSendWriter _ | CloseRecvWriter _
  | CloseSendCleaner _ => True
  | _ => False
  end.

(** The cleaner has returned while the database is open and [Close]
    has not yet been served by it. *)
Definition close_stuck {Accounts : Type} (s : System Accounts) : Prop :=
  sys_cleaner s = CleanerExited
  ∧ sys_authdb s = true
  ∧ close_waits (sys_close s).

(** * Further concrete inputs *)

Module Ex2.
(** No call fails, the connection reports itself up, and entry names
    are read by [Ex.scan_msg_id]. *)
Definition env_up : Env := {|
  env_fault := λ _, None;
  env_partial := λ _, 0%nat;
  env_connected := λ _, true;
  env_now := λ t, 1700000000 * Second + Z.of_nat t;
  env_rand := λ t, 4242 + Z.of_nat t;
  env_sscanf := Ex.scan_msg_id
|}.

(** An outage that ends: the call made at logical time [2] fails, every
    later one succeeds. *)
Definition env_outage : Env := {|
  env_fault := λ t, if decide (t = 2%nat) then Some Ex.net_down else None;
  env_partial := λ _, 0%nat;
  env_connected := λ _, true;
  env_now := λ t, 1700000000 * Second + Z.of_nat t;
  env_rand := λ t, 4242 + Z.of_nat t;
  env_sscanf := Ex.scan_msg_id
|}.

(** Start-up and a first clean-up; the context is cancelled; [Close] is
    called and served by the writer, and stands at its stop request to
    the cleaner. *)
Definition cancel_then_close : list Label :=
  [ LInit; LCleanup (CleanupReturns None); LCancel; LCallClose;
    LWriterRecvStop; LWriterAck ].

(** A process with the archival client installed, after package
    initialisation and before [Init]. *)
Definition running : System ExSys.Accounts := {|
  sys_world := (init ExSys.env Ex.world).2;
  sys_accounts := [ {| AccountName := "b" |} ];
  sys_conf := Some Ex.cfg;
  sys_authdb := false;
  sys_ctx_done := false;
  sys_tick_ready := false;
  sys_cleaner := CleanerNotStarted;
  sys_writer := WriterNotStarted;
  sys_close := CloseNotCalled;
  sys_next_chan := 0%nat;
  sys_cleanups := 0;
  sys_panics := 0
|}.
End Ex2.

(** * Proofs *)

(** From [H : m w = (a, w')] get [(m w).2 = w'] without unfolding [m]. *)
Ltac snd_of H H' := pose proof (f_equal snd H) as H'; cbn [snd] in H'.

Ltac munfold :=
  unfold bind, ret, emit, tick, fault, logx, connClose, spawn, timeNow,
    randIntn, timeSleep in *.

(** ** Construction of the client *)

Lemma connectOptions_auth cfg :
  filter (λ o, is_auth_option o = true) (connectOptions cfg) = auth_choice cfg.
Proof.
  unfold connectOptions, auth_choice.
  repeat case_match; reflexivity.
Qed.

Lemma auth_choice_length cfg : (length (auth_choice cfg) ≤ 1)%nat.
Proof. unfold auth_choice. repeat case_match; simpl; lia. Qed.

Lemma newNATSClient_connect env cfg w :
  ∃ ok evs,
    trace (newNATSClient env cfg w).2
      = trace w ++ EvConnect (config.URL cfg) (connectOptions cfg) ok :: evs
    ∧ forallb (λ e, negb (is_connect e)) evs = true.
Proof.
  unfold newNATSClient, natsConnect, jetstreamNew, jsObjectStore,
    jsCreateObjectStore.
  munfold. simpl.
  repeat (case_match; simpl; simplify_eq/=);
    eexists _, _;
    (split; [rewrite <- ?app_assoc; simpl; reflexivity | reflexivity]).
Qed.

(** C9.  [newNATSClient] connects once, with the options of
    [connectOptions]; among them the authentication options are exactly
    the one selected by priority (the credentials file when set,
    otherwise the token when set, otherwise user name and password when
    the user name is set, otherwise none), so at most one, whatever
    combination of credential fields is filled in. *)
Theorem newNATSClient_single_auth_method (env : Env) (cfg : config.NATS) (w : World) :
  (∃ ok evs,
     trace (newNATSClient env cfg w).2
       = trace w ++ EvConnect (config.URL cfg) (connectOptions cfg) ok :: evs
     ∧ forallb (λ e, negb (is_connect e)) evs = true)
  ∧ filter (λ o, is_auth_option o = true) (connectOptions cfg) = auth_choice cfg
  ∧ (length (filter (λ o, is_auth_option o = true) (connectOptions cfg)) ≤ 1)%nat.
Proof.
  split; [apply newNATSClient_connect |].
  rewrite connectOptions_auth. split; [reflexivity | apply auth_choice_length].
Qed.

(** ** The unconfigured client *)

(** C6.  On a nil client every method returns at once: [StoreMessage],
    [StoreMessageWithQueue] and [Close] return nil, [StoreMessageAsync]
    returns, [Config] returns nil and [IsConnected] returns false; the
    world, and with it the spool directory, is left as it was, for every
    context, message ID and file. *)
Theorem nil_client_is_noop (env : Env) (ctx : Context) (messageID : Z)
    (msgFile : File) (w : World) :
  StoreMessage env None ctx messageID msgFile w = (None, w)
  ∧ StoreMessageWithQueue env None ctx messageID msgFile w = (None, w)
  ∧ Close None w = (None, w)
  ∧ StoreMessageAsync env None ctx messageID msgFile w = (tt, w)
  ∧ Config None = None
  ∧ IsConnected env None w = (false, w).
Proof. repeat split. Qed.

(** ** Files: what the calls leave unchanged *)

Lemma Seek0_fs env f w : fs (Seek0 env f w).2 = fs w.
Proof. unfold Seek0. munfold. repeat (case_match; simpl); reflexivity. Qed.

Lemma readAll_fs f w : fs (readAll f w).2 = fs w.
Proof. unfold readAll. repeat (case_match; simpl); reflexivity. Qed.

Lemma Put_fs env b ctx m f w : fs (Put env b ctx m f w).2 = fs w.
Proof.
  unfold Put, readAll. munfold.
  repeat (case_match; simpl; simplify_eq/=); reflexivity.
Qed.

Lemma StoreMessage_fs env nc ctx id f w :
  fs (StoreMessage env nc ctx id f w).2 = fs w.
Proof.
  unfold StoreMessage. destruct nc as [c|]; [|reflexivity].
  munfold. simpl.
  destruct (Seek0 env f _) as [[e|] w1] eqn:Hs;
    apply (f_equal snd) in Hs; simpl in Hs.
  - simpl. rewrite <- Hs, Seek0_fs. reflexivity.
  - destruct (Put env (os c) ctx _ f w1) as [[i|e] w2] eqn:Hp; simpl;
      apply (f_equal snd) in Hp; simpl in Hp;
      rewrite <- Hp, Put_fs, <- Hs, Seek0_fs; reflexivity.
Qed.

Lemma readAll_handles_path f w fd h :
  handles (readAll f w).2 !! fd = Some h →
  ∃ h0, handles w !! fd = Some h0 ∧ h_path h0 = h_path h.
Proof.
  unfold readAll. repeat (case_match; simpl); eauto.
  destruct (decide (fd = file_fd f)) as [->|Hne].
  - rewrite lookup_insert_eq. intros [= <-]. eauto.
  - rewrite lookup_insert_ne by done. eauto.
Qed.

Lemma writeAll_fs f data w :
  fs (writeAll f data w).2 = fs w ∨
  ∃ h old, handles w !! file_fd f = Some h
     ∧ fs w !! h_path h = Some (RegularFile old)
     ∧ fs (writeAll f data w).2
         = <[h_path h := RegularFile (write_at (h_pos h) data old)]> (fs w).
Proof.
  unfold writeAll. repeat (case_match; simpl; simplify_eq/=); eauto.
  right. eexists _, _. eauto.
Qed.

Lemma writeFallible_fs env f data w :
  fs (writeFallible env f data w).2 = fs w ∨
  ∃ h old d, handles w !! file_fd f = Some h
     ∧ fs w !! h_path h = Some (RegularFile old)
     ∧ fs (writeFallible env f data w).2 = <[h_path h := RegularFile d]> (fs w).
Proof.
  unfold writeFallible. munfold. simpl.
  destruct (env_fault env (clock w)); simpl.
  - destruct (writeAll_fs f (take (env_partial env (clock w)) data)
                (set_clock (S (clock w)) w))
      as [H|(h & old & ? & ? & H)]; simpl in *.
    + left. destruct (writeAll _ _ _); simpl in *. done.
    + right. destruct (writeAll _ _ _); simpl in *. eauto 10.
  - destruct (writeAll_fs f data (set_clock (S (clock w)) w))
      as [H|(h & old & ? & ? & H)]; simpl in *.
    + left. destruct (writeAll _ _ _); simpl in *. done.
    + right. destruct (writeAll _ _ _); simpl in *. eauto 10.
Qed.

Lemma osOpenFileExcl_spec env p perm w :
  (∃ e, (osOpenFileExcl env p perm w).1 = Err e
        ∧ fs (osOpenFileExcl env p perm w).2 = fs w)
  ∨ (fs w !! p = None
     ∧ (osOpenFileExcl env p perm w).1
         = Ok {| file_fd := next_fd w; file_name := p |}
     ∧ fs (osOpenFileExcl env p perm w).2 = <[p := RegularFile []]> (fs w)
     ∧ handles (osOpenFileExcl env p perm w).2
         = <[next_fd w := {| h_path := p; h_pos := 0 |}]> (handles w)).
Proof.
  unfold osOpenFileExcl, newHandle. munfold.
  repeat (case_match; simpl in *; simplify_eq/=); eauto 10.
Qed.

Lemma ioCopy_fs env dst src w p :
  (∃ h, handles w !! file_fd dst = Some h ∧ h_path h = p) →
  is_Some (fs w !! p) →
  fs (ioCopy env dst src w).2 = fs w
  ∨ ∃ d, fs (ioCopy env dst src w).2 = <[p := RegularFile d]> (fs w).
Proof.
  intros (h & Hh & Hp) Hsome. unfold ioCopy. munfold.
  destruct (readAll src w) as [[data|e] w1] eqn:Hr; simpl;
    [| left; apply (f_equal snd) in Hr; simpl in Hr; rewrite <- Hr;
       apply readAll_fs].
  pose proof (readAll_fs src w) as Hfs. rewrite Hr in Hfs. simpl in Hfs.
  destruct (writeFallible_fs env dst data w1)
    as [H|(h1 & old & d & Hh1 & Hold & H)].
  - left. congruence.
  - right. exists d. rewrite H, Hfs.
    pose proof (readAll_handles_path src w (file_fd dst) h1) as Hpath.
    rewrite Hr in Hpath. simpl in Hpath.
    destruct (Hpath Hh1) as (h0 & Hh0 & Heq).
    rewrite Hh in Hh0. simplify_eq. rewrite Heq. done.
Qed.

(** ** [StoreMessageWithQueue] *)

Lemma StoreMessageWithQueue_unfold env c ctx id f w :
  StoreMessageWithQueue env (Some c) ctx id f w =
    let (err, w1) := StoreMessage env (Some c) ctx id f w in
    match err with
    | None => (None, w1)
    | Some e =>
        let (q, w2) := spoolEnqueue env id f (logged_failure e w1) in
        (match q with Some eq => Some eq | None => Some e end, w2)
    end.
Proof.
  unfold StoreMessageWithQueue, spoolEnqueue, logged_failure.
  munfold. simpl.
  repeat (case_match; simpl in *; simplify_eq/=); reflexivity.
Qed.

Lemma spoolEnqueue_collision env id f w w2 :
  Seek0 env f w = (None, w2) →
  is_Some (fs w2 !! queueNameAt env id (clock w2)) →
  ∃ w3,
    spoolEnqueue env id f w
      = (Some (Errorf "create queue file: %w" [] (ErrExternal "file exists")), w3)
    ∧ fs w3 = fs w
    ∧ trace w3 = trace w2 ++ [EvCreate (queueNameAt env id (clock w2)) false].
Proof.
  intros Hs [n Hn]. unfold spoolEnqueue. munfold. rewrite Hs. simpl.
  unfold osOpenFileExcl. simpl. unfold queueNameAt in Hn. rewrite Hn.
  munfold. simpl. eexists. split; [reflexivity|]. simpl. split; [|reflexivity].
  apply (f_equal snd) in Hs. simpl in Hs. rewrite <- Hs. apply Seek0_fs.
Qed.

Lemma spoolEnqueue_subseteq env id f w :
  fs w ⊆ fs (spoolEnqueue env id f w).2.
Proof.
  unfold spoolEnqueue. munfold.
  destruct (Seek0 env f w) as [[es|] w2] eqn:Hs;
    apply (f_equal snd) in Hs; simpl in Hs;
    rewrite <- (Seek0_fs env f w), Hs; simpl; [done|].
  match goal with |- context [osOpenFileExcl env ?p ?perm ?w'] =>
    destruct (osOpenFileExcl_spec env p perm w')
      as [(e & He & Hfs)|(Hnone & Hok & Hfs & Hh)];
    destruct (osOpenFileExcl env p perm w') as [r w3] eqn:Ho;
    simpl in *; subst r; set (q := p) in *
  end.
  - simpl. rewrite Hfs. done.
  - simpl.
    destruct (ioCopy_fs env {| file_fd := next_fd w2; file_name := q |} f w3 q)
      as [H|[d H]].
    + rewrite Hh. simpl. rewrite lookup_insert_eq. eauto.
    + rewrite Hfs, lookup_insert_eq. eauto.
    + destruct (ioCopy _ _ _ _) as [[?|] w4]; simpl in *; rewrite H, Hfs;
        by apply insert_subseteq.
    + destruct (ioCopy _ _ _ _) as [[?|] w4]; simpl in *;
        rewrite H, Hfs, insert_insert_eq; by apply insert_subseteq.
Qed.

Lemma StoreMessageWithQueue_subseteq env nc ctx id f w :
  fs w ⊆ fs (StoreMessageWithQueue env nc ctx id f w).2.
Proof.
  destruct nc as [c|]; [|done].
  rewrite StoreMessageWithQueue_unfold.
  pose proof (StoreMessage_fs env (Some c) ctx id f w) as Hfs.
  destruct (StoreMessage env (Some c) ctx id f w) as [[e|] w1]; simpl in *.
  - pose proof (spoolEnqueue_subseteq env id f (logged_failure e w1)) as Hsub.
    destruct (spoolEnqueue env id f (logged_failure e w1)) as [q w2].
    simpl in *. rewrite <- Hfs. exact Hsub.
  - by rewrite Hfs.
Qed.

(** C2.  For a non-nil client: when the direct store fails with [e] and
    the enqueue that follows (seek, exclusive create, copy) succeeds,
    [StoreMessageWithQueue] returns exactly [e]; when the direct store
    succeeds it returns nil and has created no file. *)
Theorem StoreMessageWithQueue_returns_original_error
    (env : Env) (c : NATSClient) (ctx : Context) (messageID : Z)
    (msgFile : File) (w w1 : World) (r : option error) :
  StoreMessage env (Some c) ctx messageID msgFile w = (r, w1) →
  match r with
  | Some e =>
      ∀ w2, spoolEnqueue env messageID msgFile (logged_failure e w1) = (None, w2) →
            StoreMessageWithQueue env (Some c) ctx messageID msgFile w = (Some e, w2)
  | None =>
      StoreMessageWithQueue env (Some c) ctx messageID msgFile w = (None, w1)
      ∧ fs w1 = fs w
  end.
Proof.
  intros Hs. rewrite StoreMessageWithQueue_unfold, Hs.
  destruct r as [e|].
  - intros w2 Hq. rewrite Hq. reflexivity.
  - split; [reflexivity|].
    snd_of Hs Hs'. rewrite <- Hs'. apply StoreMessage_fs.
Qed.

Lemma StoreMessageWithQueue_returns_original_error_witness :
  (StoreMessageWithQueue Ex.env (Some Ex.client) Background 42 Ex.msgFile
     Ex.world).1
  = Some (Errorf "storing message in NATS object store: %w" [] Ex.net_down).
Proof.
  assert (H1 : StoreMessage Ex.env (Some Ex.client) Background 42 Ex.msgFile
                 Ex.world
               = (Some (Errorf "storing message in NATS object store: %w" []
                          Ex.net_down),
                  (StoreMessage Ex.env (Some Ex.client) Background 42
                     Ex.msgFile Ex.world).2))
    by (vm_compute; reflexivity).
  pose proof (StoreMessageWithQueue_returns_original_error _ _ _ _ _ _ _ _ H1)
    as H.
  cbv beta iota in H.
  rewrite (H (spoolEnqueue Ex.env 42 Ex.msgFile
                (logged_failure
                   (Errorf "storing message in NATS object store: %w" []
                      Ex.net_down)
                   (StoreMessage Ex.env (Some Ex.client) Background 42
                      Ex.msgFile Ex.world).2)).2);
    [reflexivity | vm_compute; reflexivity].
Defined.

(** C5, as stated, fails: a name collision is returned as the failure
    "create queue file", and no second entry name is tried. *)
Lemma enqueue_collision_not_retried :
  (StoreMessageWithQueue Ex.env (Some Ex.client) Background 42 Ex.msgFile
     Ex.world_collision).1
    = Some (Errorf "create queue file: %w" [] (ErrExternal "file exists"))
  ∧ ¬ enqueue_retried
        (trace (StoreMessageWithQueue Ex.env (Some Ex.client) Background 42
                  Ex.msgFile Ex.world_collision).2).
Proof.
  split; [vm_compute; reflexivity|].
  unfold enqueue_retried. vm_compute. lia.
Qed.

(** C5, amended.  [StoreMessageWithQueue] never overwrites or truncates
    an existing file: every file present before the call is present with
    the same content after it.  If the generated entry name already
    exists, the exclusive create fails, the call returns the error
    "create queue file" wrapping that failure, leaves the file system as
    it was, and makes no further attempt to create an entry. *)
Theorem enqueue_collision_is_returned_error
    (env : Env) (c : NATSClient) (ctx : Context) (messageID : Z)
    (msgFile : File) (w : World) :
  fs w ⊆ fs (StoreMessageWithQueue env (Some c) ctx messageID msgFile w).2
  ∧ ∀ e w1 w2,
      StoreMessage env (Some c) ctx messageID msgFile w = (Some e, w1) →
      Seek0 env msgFile (logged_failure e w1) = (None, w2) →
      is_Some (fs w2 !! queueNameAt env messageID (clock w2)) →
      ∃ w3,
        StoreMessageWithQueue env (Some c) ctx messageID msgFile w
          = (Some (Errorf "create queue file: %w" [] (ErrExternal "file exists")),
             w3)
        ∧ fs w3 = fs w
        ∧ trace w3
            = trace w2 ++ [EvCreate (queueNameAt env messageID (clock w2)) false].
Proof.
  split; [apply StoreMessageWithQueue_subseteq|].
  intros e w1 w2 Hs Hseek Hex.
  destruct (spoolEnqueue_collision env messageID msgFile _ _ Hseek Hex)
    as (w3 & Hq & Hfs & Htr).
  exists w3. rewrite StoreMessageWithQueue_unfold, Hs, Hq.
  split; [reflexivity|]. split; [|exact Htr].
  rewrite Hfs. unfold logged_failure. simpl.
  snd_of Hs Hs'. rewrite <- Hs'. apply StoreMessage_fs.
Qed.

Lemma enqueue_collision_is_returned_error_witness :
  ∃ w3,
    StoreMessageWithQueue Ex.env (Some Ex.client) Background 42 Ex.msgFile
      Ex.world_collision
    = (Some (Errorf "create queue file: %w" [] (ErrExternal "file exists")), w3)
    ∧ fs w3 = fs Ex.world_collision.
Proof.
  destruct (enqueue_collision_is_returned_error Ex.env Ex.client Background 42
              Ex.msgFile Ex.world_collision) as [_ H].
  destruct (H (Errorf "storing message in NATS object store: %w" [] Ex.net_down)
              (StoreMessage Ex.env (Some Ex.client) Background 42 Ex.msgFile
                 Ex.world_collision).2
              (Seek0 Ex.env Ex.msgFile
                 (logged_failure
                    (Errorf "storing message in NATS object store: %w" []
                       Ex.net_down)
                    (StoreMessage Ex.env (Some Ex.client) Background 42
                       Ex.msgFile Ex.world_collision).2)).2)
    as (w3 & Heq & Hfs & _).
  - vm_compute; reflexivity.
  - vm_compute; reflexivity.
  - vm_compute. eexists. reflexivity.
  - exists w3. split; assumption.
Defined.

(** ** The retry loop *)

Lemma processPendingFiles_cons env f rest w :
  (well_formed env f = false
   ∧ processPendingFiles env (f :: rest) w = processPendingFiles env rest w)
  ∨ (well_formed env f = true ∧ ¬ live env w
     ∧ ∃ w1, processPendingFiles env (f :: rest) w = (tt, w1)
       ∧ trace w1 = trace w ∧ fs w1 = fs w
       ∧ globalNATSClient w1 = globalNATSClient w)
  ∨ (well_formed env f = true ∧ live env w
     ∧ ∃ o w1, processPendingFiles env (f :: rest) w = processPendingFiles env rest w1
       ∧ trace w1 = trace w ++ outcome_events (entry_path f) o
       ∧ outcome_on (entry_path f) o
       ∧ fs w1 = (if is_stored o then delete (entry_path f) (fs w) else fs w)
       ∧ globalNATSClient w1 = globalNATSClient w).
Proof.
  unfold well_formed, live. cbn [processPendingFiles].
  destruct (entry_isdir f); [left; done|].
  destruct (env_sscanf env (entry_name f)) as [id|] eqn:Hid; [|left; done].
  right. cbn [negb andb]. rewrite bool_decide_eq_true_2 by eauto.
  unfold GetNATSClient, IsConnected, connIsConnected, StoreMessage, osOpen,
    Seek0, Put, readAll, fileClose, osRemove, newHandle.
  munfold. simpl.
  destruct (globalNATSClient w) as [c|] eqn:Hc; simpl.
  2:{ left. split; [done|]. split; [intros (? & ? & ? & ? & ?); congruence|]. eauto. }
  destruct (conn c) as [cn|] eqn:Hcn; simpl.
  2:{ left. split; [done|]. split; [intros (? & ? & ? & ? & ?); congruence|]. eauto. }
  destruct (env_connected env (clock w)) eqn:Hlive; simpl.
  2:{ left. split; [done|]. split; [intros (? & ? & ? & ? & ?); congruence|]. eauto. }
  right. split; [done|]. split; [eauto|].
  fold (entry_path f).
  destruct (fs w !! entry_path f) as [node|] eqn:Hnode; simpl.
  2:{ exists OOpenFailed. eexists. split; [reflexivity|]. simpl. done. }
  destruct (env_fault env (S (clock w))) eqn:Hf1; simpl.
  { exists OOpenFailed. eexists. split; [reflexivity|]. simpl. done. }
  rewrite lookup_insert_eq. simpl.
  destruct (env_fault env (S (S (S (clock w))))) eqn:Hf2; simpl.
  { eexists (OSeekFailed _). eexists. split; [reflexivity|]. simpl.
    rewrite <- !app_assoc. simpl. done. }
  rewrite lookup_insert_eq. simpl. rewrite Hnode.
  destruct node as [data|]; simpl.
  2:{ eexists (OPutFailed _ _ _). eexists. split; [reflexivity|]. simpl.
    rewrite <- !app_assoc. simpl. done. }
  destruct (env_fault env (S (S (S (S (clock w)))))) eqn:Hf3; simpl.
  { eexists (OPutFailed _ _ _). eexists. split; [reflexivity|]. simpl.
    rewrite <- !app_assoc. simpl. done. }
  rewrite Hnode.
  eexists (OStored _ _ _). eexists. split; [reflexivity|]. simpl.
    rewrite <- !app_assoc. simpl. done.
Qed.

Lemma outcomes_events_cons fo outs :
  outcomes_events (fo :: outs)
  = outcome_events (entry_path fo.1) fo.2 ++ outcomes_events outs.
Proof. reflexivity. Qed.

Lemma live_not_down env w : live env w → client_down env w → False.
Proof.
  intros (c & cn & Hc & Hcn & Hl) Hd. specialize (Hd (clock w)).
  rewrite Hc in Hd. unfold IsConnected in Hd. rewrite Hcn in Hd.
  unfold connIsConnected in Hd. munfold. simpl in Hd. congruence.
Qed.

Lemma processPendingFiles_outcomes env files w :
  ∃ outs,
    trace (processPendingFiles env files w).2 = trace w ++ outcomes_events outs
    ∧ outs.*1 `sublist_of` filter (λ f, well_formed env f = true) files
    ∧ Forall (λ fo, outcome_on (entry_path fo.1) fo.2) outs
    ∧ fs (processPendingFiles env files w).2 = outcomes_fs outs (fs w)
    ∧ globalNATSClient (processPendingFiles env files w).2 = globalNATSClient w
    ∧ (client_down env w → outs = []).
Proof.
  revert w. induction files as [|f rest IH]; intros w.
  - exists []. simpl. rewrite app_nil_r. repeat split; try done. 
  - destruct (processPendingFiles_cons env f rest w)
      as [[Hwf Heq]
         |[(Hwf & Hnl & w1 & Heq & Htr & Hfs & Hcl)
          |(Hwf & Hl & o & w1 & Heq & Htr & Hon & Hfs & Hc)]].
    + destruct (IH w) as (outs & H1 & H2 & H3 & H4 & H5 & H6).
      exists outs. rewrite Heq. rewrite filter_cons_False by congruence. done.
    + exists []. rewrite Heq. simpl. rewrite app_nil_r.
      repeat split; try done. apply sublist_nil_l.
    + destruct (IH w1) as (outs & H1 & H2 & H3 & H4 & H5 & H6).
      exists ((f, o) :: outs). rewrite Heq, H1, Htr, H4, Hfs, H5, Hc.
      rewrite filter_cons_True by done.
      split; [|split; [|split; [|split; [|split]]]].
      * rewrite outcomes_events_cons. simpl. by rewrite app_assoc.
      * simpl. by apply sublist_skip.
      * by constructor.
      * reflexivity.
      * reflexivity.
      * intros Hd. destruct (live_not_down env w Hl Hd).
Qed.

Lemma elem_outcomes_events e outs :
  e ∈ outcomes_events outs
  ↔ ∃ fo, fo ∈ outs ∧ e ∈ outcome_events (entry_path fo.1) fo.2.
Proof.
  unfold outcomes_events. rewrite list_elem_of_bind. naive_solver.
Qed.



Lemma outcomes_fs_None outs m p :
  m !! p = None → outcomes_fs outs m !! p = None.
Proof.
  revert m. induction outs as [|[f o] outs IH]; intros m Hm; [done|].
  simpl. apply IH. destruct (is_stored o); [|done]. simpl.
  destruct (decide (entry_path f = p)) as [->|]; [apply lookup_delete_eq|].
  by rewrite lookup_delete_ne.
Qed.



Lemma entry_path_inj f g : entry_path f = entry_path g → entry_name f = entry_name g.
Proof. unfold entry_path, Join. intros H. by apply app_inj_tail in H as [_ ?]. Qed.




(** Names in a directory listing are distinct. *)
Lemma entry_under_key dir kv e :
  entry_under dir kv = Some e → kv.1 = Join dir (entry_name e).
Proof.
  unfold entry_under. destruct (last kv.1); [|done].
  case_decide; [|done]. intros [= <-]. done.
Qed.

Lemma NoDup_omap_entry dir (l : list (Path * Node)) :
  NoDup l.*1 → NoDup (entry_name <$> omap (entry_under dir) l).
Proof.
  induction l as [|kv l IH]; simpl; [constructor|].
  intros [Hnin Hnd]%NoDup_cons. specialize (IH Hnd).
  destruct (entry_under dir kv) as [e|] eqn:He; [|done].
  simpl. constructor; [|done].
  intros Hin. apply list_elem_of_fmap in Hin as (e' & Hname & Hin).
  apply list_elem_of_omap in Hin as (kv' & Hin & He').
  apply entry_under_key in He, He'. apply Hnin.
  apply list_elem_of_fmap. exists kv'. split; [|done]. congruence.
Qed.

Lemma list_dir_NoDup dir m : NoDup (entry_name <$> list_dir dir m).
Proof.
  unfold list_dir. rewrite merge_sort_Permutation.
  apply NoDup_omap_entry, NoDup_fst_map_to_list.
Qed.


Lemma client_down_same env w w1 :
  globalNATSClient w1 = globalNATSClient w →
  client_down env w → client_down env w1.
Proof.
  intros Hc Hd t. specialize (Hd t). rewrite Hc.
  unfold IsConnected, connIsConnected in *. munfold.
  repeat case_match; simpl in *; done.
Qed.

(** What one round of the loop does, entry by entry. *)
Lemma processPendingPass_outcomes env w :
  ∃ outs ok d,
    trace (processPendingPass env w).2
      = trace w ++ [EvReadDir pendingNATSDir ok] ++ outcomes_events outs
          ++ [EvSleep d]
    ∧ outs.*1 `sublist_of`
        filter (λ f, well_formed env f = true) (list_dir pendingNATSDir (fs w))
    ∧ Forall (λ fo, outcome_on (entry_path fo.1) fo.2) outs
    ∧ fs (processPendingPass env w).2 = outcomes_fs outs (fs w)
    ∧ globalNATSClient (processPendingPass env w).2 = globalNATSClient w
    ∧ (client_down env w → outs = []).
Proof.
  unfold processPendingPass, osReadDir. munfold.
  destruct (is_dir (fs w) pendingNATSDir); simpl.
  2:{ exists [], false, (10 * Second). simpl. rewrite <- app_assoc.
      repeat split; try done. apply sublist_nil_l. }
  destruct (env_fault env (clock w)); simpl.
  { exists [], false, (10 * Second). simpl. rewrite <- app_assoc.
    repeat split; try done. apply sublist_nil_l. }
  match goal with |- context [processPendingFiles env ?l ?w1] =>
    destruct (processPendingFiles_outcomes env l w1)
      as (outs & H1 & H2 & H3 & H4 & H5 & H6);
    destruct (processPendingFiles env l w1) as [[] w2] eqn:Hrun
  end.
  simpl in *. exists outs, true, (30 * Second).
  rewrite H1, <- !app_assoc. simpl.
  repeat split; try done.
  intros Hd. apply H6. revert Hd. by apply client_down_same.
Qed.

Lemma pass_events_elem e ok d outs :
  e ∈ [EvReadDir pendingNATSDir ok] ++ outcomes_events outs ++ [EvSleep d]
  ↔ e = EvReadDir pendingNATSDir ok ∨ e ∈ outcomes_events outs ∨ e = EvSleep d.
Proof. set_solver. Qed.



(** ** Package initialisation and the loop without a live client *)


Arguments mkdir_all : simpl never.



Lemma pendingNATSDir_string : path_string pendingNATSDir = "store/tmp/nats-pending".
Proof. reflexivity. Qed.


(** ** The asynchronous store *)

Lemma write_at_fresh (data : list Byte.byte) : write_at 0 data [] = data.
Proof. unfold write_at. simpl. rewrite drop_nil. apply app_nil_r. Qed.

Lemma only_data_refl data w : only_data data w w.
Proof.
  split; [|split].
  - exists []. unfold new_events. rewrite app_nil_r. split; [done|]. by intros ???? ?%elem_of_nil.
  - exists []. by rewrite app_nil_r.
  - auto.
Qed.

Lemma only_data_trans data w1 w2 w3 :
  only_data data w1 w2 → only_data data w2 w3 → only_data data w1 w3.
Proof.
  intros ((e1 & He1 & Hp1) & (o1 & Ho1 & Hf1) & Hfs1) ((e2 & He2 & Hp2) & (o2 & Ho2 & Hf2) & Hfs2).
  unfold only_data, new_events in *. split; [|split].
  - exists (e1 ++ e2). rewrite He2, He1, app_assoc. split; [done|].
    intros f m d ok [?|?]%elem_of_app; eauto.
  - exists (o1 ++ o2). rewrite Ho2, Ho1, app_assoc. split; [done|]. by apply Forall_app.
  - intros p d H. destruct (Hfs2 _ _ H) as [H'|]; auto.
Qed.

Ltac quiet :=
  split; [eexists; split; [rewrite <- ?app_assoc; simpl; try reflexivity;
                            symmetry; apply app_nil_r
                          | intros ????; set_unfold; naive_solver]
         | split; [exists []; split; [symmetry; apply app_nil_r | constructor]
                  | try (intros ??; simpl; solve [auto]) ] ].

Lemma StoreMessage_content env c ctx id f data w :
  holds f data w →
  only_data data w (StoreMessage env (Some c) ctx id f w).2
  ∧ holds f data (StoreMessage env (Some c) ctx id f w).2.
Proof.
  intros ((h & Hh & Hp) & Hfs & Hlt). destruct h as [hp pos]. simpl in Hp. subst hp.
  unfold only_data, holds, new_events, StoreMessage, Seek0, Put, readAll. munfold. simpl.
  rewrite Hh. simpl.
  destruct (env_fault env (S (clock w))); simpl.
  { split; [quiet|]. rewrite Hh. eauto. }
  rewrite lookup_insert_eq. simpl. rewrite Hfs. simpl.
  destruct (env_fault env (S (S (clock w)))); simpl.
  - split; [quiet|]. rewrite lookup_insert_eq. eauto.
  - split.
    + split; [eexists; split; [rewrite <- ?app_assoc; simpl; reflexivity
                              | intros ????; set_unfold; naive_solver]|].
      split; [eexists; split; [reflexivity| by repeat constructor]|auto].
    + rewrite lookup_insert_eq. eauto.
Qed.

Arguments is_dir : simpl never.

Lemma write_at_prefix k (data : list Byte.byte) :
  write_at 0 (take k data) [] `prefix_of` data.
Proof. rewrite write_at_fresh. apply prefix_take. Qed.

Lemma spoolEnqueue_content env id f data w :
  holds f data w →
  only_data data w (spoolEnqueue env id f w).2.
Proof.
  intros ((h & Hh & Hp) & Hfs & Hlt). destruct h as [hp pos]. simpl in Hp. subst hp.
  assert (file_fd f ≠ next_fd w) as Hne by lia.
  unfold only_data, new_events, spoolEnqueue, Seek0. munfold. simpl.
  rewrite Hh. simpl.
  destruct (env_fault env (clock w)); simpl; [quiet|].
  unfold osOpenFileExcl. munfold. simpl.
  match goal with |- context [fs w !! ?p] => set (q := p) end.
  destruct (fs w !! q) eqn:Hq; simpl; [quiet|].
  assert (q ≠ file_name f) as Hqf by congruence.
  match goal with |- context [is_dir ?m ?p] => destruct (is_dir m p) end;
    simpl; [|quiet].
  destruct (env_fault env (S (S (S (clock w))))); simpl; [quiet|].
  unfold ioCopy, readAll, writeFallible, writeAll, fileClose, newHandle. munfold. simpl.
  rewrite lookup_insert_ne, lookup_insert_eq by done. simpl.
  rewrite lookup_insert_ne by done. rewrite Hfs. simpl.
  destruct (env_fault env (S (S (S (S (clock w)))))); simpl.
  - rewrite lookup_insert_ne, lookup_insert_eq by done. simpl.
    rewrite lookup_insert_eq. simpl.
    split; [eexists; split; [rewrite <- ?app_assoc; simpl; reflexivity
                            | intros ????; set_unfold; naive_solver]|].
    split; [exists []; split; [symmetry; apply app_nil_r | constructor]|].
    intros p d. rewrite insert_insert_eq.
    destruct (decide (p = q)) as [->|]; simplify_map_eq; auto.
    intros [= <-]. right. apply write_at_prefix.
  - rewrite lookup_insert_ne, lookup_insert_eq by done. simpl.
    rewrite lookup_insert_eq. simpl.
    split; [eexists; split; [rewrite <- ?app_assoc; simpl; reflexivity
                            | intros ????; set_unfold; naive_solver]|].
    split; [exists []; split; [symmetry; apply app_nil_r | constructor]|].
    intros p d. rewrite insert_insert_eq.
    destruct (decide (p = q)) as [->|]; simplify_map_eq; auto.
    intros [= <-]. right. by rewrite write_at_fresh.
Qed.

Lemma logged_failure_only_data data e w : only_data data w (logged_failure e w).
Proof. unfold only_data, new_events, logged_failure. munfold. simpl. quiet. Qed.

Lemma StoreMessageWithQueue_content env c ctx id f data w :
  holds f data w →
  only_data data w (StoreMessageWithQueue env (Some c) ctx id f w).2.
Proof.
  intros Hh. rewrite StoreMessageWithQueue_unfold.
  destruct (StoreMessage_content env c ctx id f data w Hh) as [Ho Hh1].
  destruct (StoreMessage env (Some c) ctx id f w) as [[e|] w1]; simpl in *; [|done].
  assert (holds f data (logged_failure e w1)) as Hh2 by exact Hh1.
  pose proof (spoolEnqueue_content env id f data _ Hh2) as Hq.
  destruct (spoolEnqueue env id f (logged_failure e w1)) as [q w2]. simpl in *.
  eapply only_data_trans; [exact Ho|].
  eapply only_data_trans; [apply logged_failure_only_data|exact Hq].
Qed.

Lemma cleanup_only_data data f w :
  only_data data w (osRemove (file_name f) (fileClose f w).2).2.
Proof.
  unfold only_data, new_events, osRemove, fileClose. munfold. simpl.
  destruct (fs w !! file_name f) as [[d0|]|] eqn:Hl; simpl; try quiet.
  intros p d [_ ?]%lookup_delete_Some. auto.
Qed.

Arguments StoreMessageWithQueue : simpl never.
Arguments Seek0 : simpl never.

Lemma asyncStore_content env c id data w :
  only_data data w (asyncStore env c id data w).2.
Proof.
  unfold asyncStore, osCreateTemp, osOpenFileExcl. munfold. simpl.
  match goal with |- context [fs w !! ?p] => set (p0 := p) end.
  destruct (fs w !! p0) eqn:Hp0; simpl.
  { unfold only_data, new_events. simpl. quiet. }
  match goal with |- context [is_dir ?m ?p] => destruct (is_dir m p) end; simpl.
  2:{ unfold only_data, new_events. simpl. quiet. }
  destruct (env_fault env (S (clock w))); simpl.
  { unfold only_data, new_events. simpl. quiet. }
  unfold newHandle. simpl.
  set (f := {| file_fd := next_fd w; file_name := p0 |}).
  unfold Write, writeFallible, writeAll. munfold. simpl.
  destruct (env_fault env (S (S (clock w)))); simpl.
  - rewrite lookup_insert_eq. simpl. rewrite lookup_insert_eq. simpl.
    unfold only_data, new_events, osRemove, fileClose. munfold. simpl.
    rewrite lookup_insert_eq. simpl. quiet.
    intros p d [Hne Hl]%lookup_delete_Some.
    rewrite !lookup_insert_ne in Hl by done. auto.
  - rewrite lookup_insert_eq. simpl. rewrite lookup_insert_eq. simpl.
    match goal with |- context [Seek0 env f ?w2] =>
      assert (only_data data w w2 ∧ holds f data w2) as [Ho2 Hh2]
    end.
    { split.
      - unfold only_data, new_events. simpl. quiet.
        intros p d. rewrite insert_insert_eq.
        destruct (decide (p = p0)) as [->|]; simplify_map_eq; auto.
        intros [= <-]. right. by rewrite write_at_fresh.
      - unfold holds. simpl. rewrite lookup_insert_eq, insert_insert_eq, lookup_insert_eq.
        rewrite write_at_fresh. split; [eauto|]. split; [done|lia]. }
    match goal with |- context [Seek0 env f ?w2] =>
      assert (only_data data w2 (Seek0 env f w2).2
              ∧ holds f data (Seek0 env f w2).2) as [Ho3 Hh3];
      [|destruct (Seek0 env f w2) as [r3 w3]]
    end.
    { destruct Hh2 as ((h & Hh & Hp) & Hfs & Hlt).
      unfold Seek0. munfold. rewrite Hh. simpl.
      destruct (env_fault env _); simpl.
      - split; [unfold only_data, new_events; simpl; quiet|].
        unfold holds. simpl. eauto.
      - split; [unfold only_data, new_events; simpl; quiet|].
        unfold holds. simpl. rewrite lookup_insert_eq. eauto. }
    cbn [snd] in *.
    pose proof (StoreMessageWithQueue_content env c
                  (WithTimeout Background (30 * Second)) id f data w3 Hh3)
      as Ho4.
    destruct (StoreMessageWithQueue env (Some c) _ id f w3) as [r4 w4]. cbn [snd] in *.
    eapply only_data_trans; [exact Ho2|].
    eapply only_data_trans; [exact Ho3|].
    eapply only_data_trans; [exact Ho4|].
    apply (cleanup_only_data data f).
Qed.

(** C7.  When the message file is readable, [StoreMessageAsync] has read
    all of it before it returns: the goroutine it starts carries the
    bytes [data] that the file held at the call, and at the return
    nothing has been stored yet and nothing is reported.  Whatever the
    caller does to its handle and its file afterwards, and whatever the
    environment does (any later world, any environment), the goroutine
    hands exactly [data] to [Put], adds only objects holding [data] to
    the bucket, and writes only [data] (or a prefix, when a write is cut
    short) to files. *)
Theorem StoreMessageAsync_snapshots_payload
    (env : Env) (c : NATSClient) (ctx : Context) (messageID : Z)
    (msgFile : File) (w w1 w2 : World) (data : bytes) :
  Seek0 env msgFile w = (None, w1) →
  osReadFile env (file_name msgFile) w1 = (Ok data, w2) →
  StoreMessageAsync env (Some c) ctx messageID msgFile w
    = (tt, (spawn (GoAsyncStore c messageID data) w2).2)
  ∧ fs w !! file_name msgFile = Some (RegularFile data)
  ∧ fs (spawn (GoAsyncStore c messageID data) w2).2 = fs w
  ∧ remote (spawn (GoAsyncStore c messageID data) w2).2 = remote w
  ∧ goroutines (spawn (GoAsyncStore c messageID data) w2).2
      = goroutines w ++ [GoAsyncStore c messageID data]
  ∧ ∀ env' w', only_data data w' (asyncStore env' c messageID data w').2.
Proof.
  intros Hs Hr.
  split.
  { unfold StoreMessageAsync. munfold. rewrite Hs, Hr. reflexivity. }
  assert (fs w1 = fs w ∧ remote w1 = remote w ∧ goroutines w1 = goroutines w)
    as (Hfs & Hrem & Hgo).
  { revert Hs. unfold Seek0. munfold.
    repeat (case_match; simpl); intros ?; simplify_eq/=; done. }
  assert (fs w1 !! file_name msgFile = Some (RegularFile data)
          ∧ fs w2 = fs w1 ∧ remote w2 = remote w1
          ∧ goroutines w2 = goroutines w1) as (Hdata & Hfs2 & Hrem2 & Hgo2).
  { revert Hr. unfold osReadFile. munfold.
    repeat (case_match; simpl); intros ?; simplify_eq/=; done. }
  simpl. rewrite Hfs2, Hrem2, Hgo2, Hrem, Hgo, <- Hfs.
  split; [done|]. split; [done|]. split; [done|]. split; [done|].
  intros env' w'. apply asyncStore_content.
Qed.

Lemma StoreMessageAsync_snapshots_payload_witness :
  goroutines
    (StoreMessageAsync Ex.env (Some Ex.client) Background 7 Ex.msgFile
       Ex.world).2
  = [GoAsyncStore Ex.client 7 Ex.msg].
Proof.
  destruct (StoreMessageAsync_snapshots_payload Ex.env Ex.client Background 7
              Ex.msgFile Ex.world
              (Seek0 Ex.env Ex.msgFile Ex.world).2
              (osReadFile Ex.env (file_name Ex.msgFile)
                 (Seek0 Ex.env Ex.msgFile Ex.world).2).2
              Ex.msg)
    as (Heq & _ & _ & _ & Hgo & _).
  - vm_compute; reflexivity.
  - vm_compute; reflexivity.
  - rewrite Heq. cbn [snd]. rewrite Hgo. reflexivity.
Defined.

(** ** The theorems on the example spool *)




(** ** Lifecycle *)

Lemma processPendingFiles_goroutines env files w :
  goroutines (processPendingFiles env files w).2 = goroutines w.
Proof.
  revert w. induction files as [|f rest IH]; intros w; [reflexivity|].
  cbn [processPendingFiles].
  destruct (entry_isdir f); [apply IH|].
  destruct (env_sscanf env (entry_name f)); [|apply IH].
  unfold GetNATSClient, IsConnected, connIsConnected, StoreMessage, osOpen,
    Seek0, Put, readAll, fileClose, osRemove, newHandle.
  munfold. simpl.
  repeat (case_match; simpl; simplify_eq/=); rewrite ?IH; reflexivity.
Qed.

Lemma processPendingPass_goroutines env w :
  goroutines (processPendingPass env w).2 = goroutines w.
Proof.
  unfold processPendingPass, osReadDir. munfold.
  destruct (is_dir (fs w) pendingNATSDir); simpl; [|reflexivity].
  destruct (env_fault env (clock w)); simpl; [reflexivity|].
  match goal with |- context [processPendingFiles env ?l ?w1] =>
    pose proof (processPendingFiles_goroutines env l w1) as H;
    destruct (processPendingFiles env l w1) as [[] w2]
  end.
  simpl in *. done.
Qed.

Section LifecycleProofs.
Variable Accounts : Type.
Variable listRemovals : Accounts → list AccountRemove.
Variable removeAccount : string → Accounts → option error * Accounts.
Variable DataDir : Path.
Variable env : Env.

Abbreviation Sys := (System Accounts).
Abbreviation removeAll := (removeAccounts removeAccount).
Abbreviation removalRun := (removal_run removeAccount).
Abbreviation InitS := (Init listRemovals removeAccount DataDir env).
Abbreviation stepS := (step listRemovals removeAccount DataDir env).
Abbreviation runS := (run listRemovals removeAccount DataDir env).

Lemma removeAccounts_spec removals (s : Sys) :
  let s' := removeAll removals s in
  sys_accounts s' = (removalRun removals (sys_accounts s)).2
  ∧ trace (sys_world s')
      = trace (sys_world s)
          ++ removal_logs (removalRun removals (sys_accounts s)).1
  ∧ (removalRun removals (sys_accounts s)).1.*1 = AccountName <$> removals
  ∧ s' = with_accounts (sys_accounts s')
           (with_world
              (set_trace (trace (sys_world s')) (sys_world s)) s).
Proof.
  revert s. induction removals as [|r rest IH]; intros s; simpl.
  - rewrite app_nil_r. destruct s as [[] ?]; done.
  - destruct (removeAccount (AccountName r) (sys_accounts s)) as [err a1] eqn:Hr.
    match goal with |- context [removeAll rest ?s2] => specialize (IH s2); set (s2' := s2) in * end.
    destruct (removalRun rest a1) as [attempts a2] eqn:Hrun.
    assert (sys_accounts s2' = a1) as Ha by (subst s2'; destruct err; reflexivity).
    rewrite Ha, Hrun in IH. simpl in IH. destruct IH as (H1 & H2 & H3 & H4).
    simpl. split; [done|]. split; [|split].
    + rewrite H2. subst s2'. destruct err; simpl; [|done].
      unfold removal_logs. simpl. by rewrite <- app_assoc.
    + simpl in *. by f_equal.
    + rewrite H4 at 1. subst s2'. destruct err; destruct s as [[] ?]; reflexivity.
Qed.

Lemma osMkdirAll_spec p perm w :
  ∃ ok m, (osMkdirAll env p perm w).2
          = set_fs (λ _, m)
              (set_trace (trace w ++ [EvMkdirAll p perm ok])
                 (set_clock (S (clock w)) w)).
Proof.
  unfold osMkdirAll. munfold. simpl.
  destruct (env_fault env (clock w)); simpl.
  - exists false, (fs w). destruct w; reflexivity.
  - destruct (mkdir_all [] p (fs w)) as [m|e]; simpl.
    + exists true, m. reflexivity.
    + exists false, (fs w). destruct w; reflexivity.
Qed.

Lemma in_world_fault (s : Sys) :
  in_world (fault env) s
  = (env_fault env (clock (sys_world s)),
     with_world (set_clock (S (clock (sys_world s))) (sys_world s)) s).
Proof. reflexivity. Qed.

(** C8.  When [Init] is called on a process that is not initialised, the
    database opens and the pending removals can be listed, then: the
    removal of every listed record is attempted, one at a time and in
    the order of the listing, each on the state left by the one before;
    every failure is logged and no failure stops the loop; the writer
    and the cleaner are started; a failure of [InitNATS] is logged; and
    [Init] returns nil in every case. *)
Theorem Init_survives_failures (s : Sys) :
  sys_authdb s = false →
  db_opens env s →
  db_lists env s →
  ∃ s1 ok,
    InitS s = (None, InitNATS_logged env s1)
    ∧ (removalRun (listRemovals (sys_accounts s)) (sys_accounts s)).1.*1
        = AccountName <$> listRemovals (sys_accounts s)
    ∧ sys_accounts s1
        = (removalRun (listRemovals (sys_accounts s)) (sys_accounts s)).2
    ∧ trace (sys_world s1)
        = trace (sys_world s) ++ [EvMkdirAll DataDir 504 ok]
            ++ removal_logs
                 (removalRun (listRemovals (sys_accounts s)) (sys_accounts s)).1
            ++ [EvGo GoLoginAttemptWriter; EvGo GoLoginAttemptCleaner]
    ∧ sys_writer s1 = WriterRunning
    ∧ sys_cleaner s1 = CleanerBody
    ∧ sys_authdb s1 = true
    ∧ ∀ e, (in_world (InitNATS env (sys_conf s1)) s1).1 = Some e →
           trace (sys_world (InitNATS_logged env s1))
           = trace (sys_world (in_world (InitNATS env (sys_conf s1)) s1).2)
               ++ [EvLog LError "initializing NATS client" (Some e)].
Proof.
  intros Hdb Hopen Hlist. unfold db_opens, db_lists in *.
  unfold Init. rewrite Hdb.
  destruct (osMkdirAll_spec DataDir 504 (sys_world s)) as (ok & m & Hmk).
  assert ((in_world (osMkdirAll env DataDir 504) s).2
          = with_world
              (set_fs (λ _, m)
                 (set_trace (trace (sys_world s) ++ [EvMkdirAll DataDir 504 ok])
                    (set_clock (S (clock (sys_world s))) (sys_world s)))) s)
    as Hin.
  { unfold in_world. destruct (osMkdirAll env DataDir 504 (sys_world s)).
    simpl in *. by subst. }
  cbv zeta. rewrite Hin. rewrite in_world_fault. simpl. rewrite Hopen.
  rewrite ?in_world_fault. simpl. rewrite Hlist.
  match goal with |- context [removeAccounts removeAccount ?rs ?s0] =>
    destruct (removeAccounts_spec rs s0) as (Ha & Htr & Hnames & Hshape);
    set (s' := removeAccounts removeAccount rs s0) in *
  end.
  simpl in *.
  match goal with |- context [in_world (InitNATS env ?c) ?s0] =>
    exists s0, ok; split;
    [unfold InitNATS_logged; simpl;
     destruct (in_world (InitNATS env c) s0) as [[e|] s2]; reflexivity|]
  end.
  simpl. rewrite Ha, Htr. simpl.
  split; [exact Hnames|]. split; [done|].
  split. { rewrite <- ?app_assoc. simpl. by rewrite <- ?app_assoc. }
  split; [done|]. split; [done|].
  split. { rewrite Hshape. reflexivity. }
  intros e. unfold InitNATS_logged. simpl.
  match goal with |- context [in_world ?m ?s1] =>
    destruct (in_world m s1) as [e' s2]
  end.
  simpl. intros ->. reflexivity.
Qed.

(** *** Frame properties of the steps *)

Lemma in_world_frame {A} (m : M A) (s : Sys) :
  (in_world m s).2 = with_world (m (sys_world s)).2 s.
Proof. unfold in_world. by destruct (m (sys_world s)). Qed.

Lemma in_world_eq {A} (m : M A) (s s' : Sys) a :
  in_world m s = (a, s') →
  a = (m (sys_world s)).1 ∧ s' = with_world (m (sys_world s)).2 s.
Proof. unfold in_world. destruct (m (sys_world s)). by intros [= <- <-]. Qed.

Ltac in_world_inv :=
  repeat match goal with
    | H : in_world ?m ?s = (?a, ?s') |- _ =>
        apply in_world_eq in H as [? ->]
    end.

Lemma removeAccounts_frame removals (s : Sys) :
  ∃ a t, removeAll removals s
         = with_accounts a (with_world (set_trace t (sys_world s)) s).
Proof.
  destruct (removeAccounts_spec removals s) as (_ & _ & _ & H). eauto.
Qed.

Lemma newNATSClient_goroutines cfg w :
  goroutines (newNATSClient env cfg w).2 = goroutines w.
Proof.
  unfold newNATSClient, natsConnect, jetstreamNew, jsObjectStore,
    jsCreateObjectStore.
  munfold. simpl.
  repeat (case_match; simpl; simplify_eq/=); reflexivity.
Qed.

Lemma InitNATS_goroutines cfg w :
  goroutines (InitNATS env cfg w).2 = goroutines w.
Proof.
  unfold InitNATS. destruct cfg as [cfg|]; [|reflexivity].
  destruct (natsOnce w); [reflexivity|].
  pose proof (newNATSClient_goroutines cfg w) as H.
  destruct (newNATSClient env cfg w) as [[c|e] w1]; simpl in *; done.
Qed.

Lemma Init_frame (s : Sys) :
  sys_close (InitS s).2 = sys_close s
  ∧ sys_cleanups (InitS s).2 = sys_cleanups s
  ∧ sys_ctx_done (InitS s).2 = sys_ctx_done s
  ∧ (retry_started s → retry_started (InitS s).2)
  ∧ (sys_authdb s = true → (InitS s).2 = s).
Proof.
  unfold Init, retry_started.
  destruct (sys_authdb s) eqn:Hdb; [done|].
  cbv zeta. rewrite (in_world_frame (osMkdirAll env DataDir 504)).
  destruct (osMkdirAll_spec DataDir 504 (sys_world s)) as (ok & m & ->).
  rewrite in_world_fault. simpl.
  destruct (env_fault env (S (clock (sys_world s)))); [done|].
  rewrite ?in_world_fault. simpl.
  destruct (env_fault env (S (S (clock (sys_world s))))); [done|].
  match goal with |- context [removeAccounts removeAccount ?rs ?s0] =>
    destruct (removeAccounts_frame rs s0) as (a & t & ->)
  end.
  simpl.
  match goal with |- context [in_world (InitNATS env ?c) ?s1] =>
    pose proof (InitNATS_goroutines c (sys_world s1)) as Hg;
    unfold in_world;
    destruct (InitNATS env c (sys_world s1)) as [[e|] w2]
  end; simpl in *; rewrite Hg, !existsb_app; simpl;
    (repeat split; try done; intros ->; done).
Qed.

Ltac step_cases Hstep :=
  simpl in Hstep; unfold writer_recv_stop, writer_ack, cleaner_body in Hstep;
  simplify_eq/=; repeat (case_match; simplify_eq/=); in_world_inv;
  rewrite ?in_world_frame in *; simpl in *.

Lemma step_retry_started l (s s' : Sys) :
  stepS l s = Some s' → retry_started s → retry_started s'.
Proof.
  unfold retry_started. intros Hstep Hr.
  destruct l; step_cases Hstep; try done.
  - by apply Init_frame.
  - by rewrite processPendingPass_goroutines.
Qed.

(** The retry loop can always take another round: no step of the
    process takes it away. *)
Lemma run_retry_started ls (s s' : Sys) :
  runS ls s = Some s' → retry_started s → retry_started s'.
Proof.
  revert s. induction ls as [|l ls IH]; intros s; simpl.
  - by intros [= <-].
  - destruct (stepS l s) as [s1|] eqn:Hs; [|done].
    intros Hrun Hr. apply (IH s1 Hrun). by apply (step_retry_started l s).
Qed.

Ltac pcs s :=
  repeat match goal with
    | H : sys_close s = _ |- _ => rewrite H in *
    | H : sys_cleaner s = _ |- _ => rewrite H in *
    | H : sys_writer s = _ |- _ => rewrite H in *
    end;
  simpl in *;
  try (destruct (sys_close s) eqn:?; simpl in * );
  try intuition congruence.

Lemma step_close_inv l (s s' : Sys) :
  stepS l s = Some s' → close_inv s → close_inv s'.
Proof.
  unfold close_inv. intros Hstep Hinv.
  destruct l; [|step_cases Hstep; pcs s ..].
  simpl in Hstep. destruct (sys_close s) eqn:Hc; simplify_eq/=.
  destruct (Init_frame s) as (Hc' & _). by rewrite Hc', Hc.
Qed.

Lemma run_close_inv ls (s s' : Sys) :
  runS ls s = Some s' → close_inv s → close_inv s'.
Proof.
  revert s. induction ls as [|l ls IH]; intros s; simpl.
  - by intros [= <-].
  - destruct (stepS l s) as [s1|] eqn:Hs; [|done].
    intros Hrun Hr. apply (IH s1 Hrun). by apply (step_close_inv l s).
Qed.

Lemma step_cleaner_gone l (s s' : Sys) :
  stepS l s = Some s' → cleaner_gone s →
  cleaner_gone s' ∧ sys_cleanups s' = sys_cleanups s.
Proof.
  unfold cleaner_gone. intros Hstep [Hcl Hdb].
  destruct l; [|step_cases Hstep; pcs s ..].
  simpl in Hstep. destruct (sys_close s) eqn:Hc; simplify_eq/=.
  destruct (Init_frame s) as (_ & _ & _ & _ & Hsame).
  rewrite (Hsame (Hdb eq_refl)). rewrite Hc. done.
Qed.

Lemma run_cleaner_gone ls (s s' : Sys) :
  runS ls s = Some s' → cleaner_gone s →
  cleaner_gone s' ∧ sys_cleanups s' = sys_cleanups s.
Proof.
  revert s. induction ls as [|l ls IH]; intros s; simpl.
  - by intros [= <-].
  - destruct (stepS l s) as [s1|] eqn:Hs; [|done].
    intros Hrun Hg. destruct (step_cleaner_gone l s s1 Hs Hg) as [Hg1 Hn].
    destruct (IH s1 Hrun Hg1) as [Hg2 Hn2]. split; [done|congruence].
Qed.


Lemma step_ctx_done l (s s' : Sys) :
  stepS l s = Some s' → sys_ctx_done s = true → sys_ctx_done s' = true.
Proof.
  intros Hstep Hd.
  destruct l; [|step_cases Hstep; try done ..].
  simpl in Hstep. destruct (sys_close s); simplify_eq/=.
  destruct (Init_frame s) as (_ & _ & Hc & _). by rewrite Hc.
Qed.

Lemma run_ctx_done ls (s s' : Sys) :
  runS ls s = Some s' → sys_ctx_done s = true → sys_ctx_done s' = true.
Proof.
  revert s. induction ls as [|l ls IH]; intros s; simpl.
  - by intros [= <-].
  - destruct (stepS l s) as [s1|] eqn:Hs; [|done].
    intros Hrun Hd. apply (IH s1 Hrun). by apply (step_ctx_done l s).
Qed.

(** C3, amended.  In every state the process reaches from one where
    [Close] has not been called and the retry loop has been started:
    - if [Close] has returned from closing the database, the writer and
      the cleaner have acknowledged and returned;
    - the cleaner, blocked in its [select], returns when it takes the
      cancellation of the context, which is ready from the cancellation
      on, and acknowledges and returns when it takes the stop request of
      [Close];
    - the retry loop has no exit: whether or not the context is
      cancelled and [Close] has returned, it makes its next round. *)
Theorem shutdown_stops_cleaner_not_retry_loop
    (s0 s : Sys) (ls : list Label) :
  sys_close s0 = CloseNotCalled →
  retry_started s0 →
  runS ls s0 = Some s →
  (∀ err, sys_close s = CloseReturned err →
          sys_writer s = WriterExited ∧ sys_cleaner s = CleanerExited)
  ∧ (sys_cleaner s = CleanerSelect → sys_ctx_done s = true →
       ∃ s', stepS LCleanerRecvDone s = Some s'
             ∧ sys_cleaner s' = CleanerExited)
  ∧ (∀ ls' s', sys_ctx_done s = true → runS ls' s = Some s' →
               sys_ctx_done s' = true)
  ∧ (∀ c, sys_cleaner s = CleanerSelect → sys_close s = CloseSendCleaner c →
       ∃ s1 s2, stepS LCleanerRecvStop s = Some s1
                ∧ stepS LCleanerAck s1 = Some s2
                ∧ sys_cleaner s2 = CleanerExited
                ∧ sys_close s2 = CloseClient)
  ∧ ¬ retry_loop_ceased listRemovals removeAccount DataDir env s
  ∧ ∃ s', stepS LRetryPass s = Some s' ∧ retry_started s'.
Proof.
  intros Hc0 Hr0 Hrun.
  assert (close_inv s0) as Hi0 by (unfold close_inv; by rewrite Hc0).
  pose proof (run_close_inv _ _ _ Hrun Hi0) as Hinv.
  pose proof (run_retry_started _ _ _ Hrun Hr0) as Hr.
  split; [|split; [|split; [|split; [|split]]]].
  - intros err Hc. unfold close_inv in Hinv. by rewrite Hc in Hinv.
  - intros Hsel Hd. simpl. rewrite Hsel, Hd. eauto.
  - intros ls' s' Hd Hrun'. by apply (run_ctx_done ls' s).
  - intros c Hsel Hc. simpl. rewrite Hsel, Hc. eexists _, _.
    split; [reflexivity|]. simpl. rewrite decide_True by done. done.
  - unfold retry_loop_ceased, retry_started in *. simpl. by rewrite Hr.
  - unfold retry_started in Hr. simpl. rewrite Hr. eexists. split; [reflexivity|].
    apply (step_retry_started LRetryPass s); [|done]. simpl. by rewrite Hr.
Qed.

(** C4, amended.  When [LoginAttemptCleanup] panics in the cleaner (the
    database being open), the deferred function catches the panic, logs
    it and counts it in the metrics; the writer, [Close] and the retry
    loop are not affected.  The cleaner's goroutine has then returned:
    from there on it stays returned and runs no further clean-up. *)
Theorem cleaner_panic_is_caught_and_ends_worker (s : Sys) (x : string) :
  sys_cleaner s = CleanerBody →
  sys_authdb s = true →
  ∃ s',
    stepS (LCleanup (CleanupPanics x)) s = Some s'
    ∧ new_events (sys_world s) (sys_world s')
        [EvLog LError "unhandled panic in LoginAttemptCleanup"
           (Some (ErrorString x))]
    ∧ sys_panics s' = S (sys_panics s)
    ∧ sys_cleaner s' = CleanerExited
    ∧ sys_writer s' = sys_writer s
    ∧ sys_close s' = sys_close s
    ∧ (retry_started s → retry_started s')
    ∧ ∀ ls s'', runS ls s' = Some s'' →
        sys_cleaner s'' = CleanerExited ∧ sys_cleanups s'' = sys_cleanups s'.
Proof.
  intros Hcl Hdb. simpl. rewrite Hcl. eexists. split; [reflexivity|].
  unfold cleaner_body, new_events, retry_started. simpl.
  split; [done|]. split; [done|]. split; [done|]. split; [done|].
  split; [done|]. split; [done|].
  intros ls s'' Hrun.
  match type of Hrun with runS ls ?s1 = _ =>
    destruct (run_cleaner_gone ls s1 s'' Hrun) as [[Hg _] Hn]
  end.
  - split; [done|]. simpl. by intros _.
  - split; [exact Hg | exact Hn].
Qed.
End LifecycleProofs.


(** C8 on the example: the removal of [a] fails, the removal of [b] is
    attempted all the same, and [Init] returns nil. *)
Lemma Init_survives_failures_witness :
  (Init ExSys.listRemovals ExSys.removeAccount ExSys.DataDir ExSys.env
     ExSys.boot).1 = None.
Proof.
  destruct (Init_survives_failures ExSys.Accounts ExSys.listRemovals
              ExSys.removeAccount ExSys.DataDir ExSys.env ExSys.boot)
    as (s1 & ok & Heq & _).
  - reflexivity.
  - reflexivity.
  - reflexivity.
  - rewrite Heq. reflexivity.
Defined.

(** C3, as stated, fails: after the context is cancelled and [Close]
    has returned, with the writer and the cleaner gone, the retry loop
    has not ceased; it scans the spool directory again. *)
Lemma shutdown_leaves_retry_loop_running :
  ∃ s s',
    ExSys.run ExSys.shutdown ExSys.boot = Some s
    ∧ sys_ctx_done s = true
    ∧ sys_close s = CloseReturned None
    ∧ sys_writer s = WriterExited
    ∧ sys_cleaner s = CleanerExited
    ∧ ¬ retry_loop_ceased ExSys.listRemovals ExSys.removeAccount
          ExSys.DataDir ExSys.env s
    ∧ ExSys.step LRetryPass s = Some s'
    ∧ ∃ ok d, new_events (sys_world s) (sys_world s')
                [EvReadDir pendingNATSDir ok; EvSleep d].
Proof.
  assert (match ExSys.run ExSys.shutdown ExSys.boot with
          | Some s =>
              sys_ctx_done s = true ∧ sys_close s = CloseReturned None
              ∧ sys_writer s = WriterExited ∧ sys_cleaner s = CleanerExited
              ∧ retry_started s ∧ globalNATSClient (sys_world s) = None
          | None => False
          end) as H
    by (vm_compute; repeat split).
  destruct (ExSys.run ExSys.shutdown ExSys.boot) as [s|]; [|done].
  destruct H as (Hd & Hc & Hw & Hcl & Hr & Hnil).
  unfold retry_started in Hr.
  exists s. eexists. split; [reflexivity|].
  split; [done|]. split; [done|]. split; [done|]. split; [done|].
  split; [unfold retry_loop_ceased; simpl; by rewrite Hr|].
  split; [simpl; rewrite Hr; reflexivity|].
  rewrite in_world_frame. simpl.
  destruct (processPendingPass_outcomes ExSys.env (sys_world s))
    as (outs & ok & d & Htr & _ & _ & _ & _ & Hdown).
  rewrite Hdown in Htr; [by exists ok, d|].
  intros t. by rewrite Hnil.
Qed.

Lemma shutdown_stops_cleaner_not_retry_loop_witness :
  ∃ s s', ExSys.run ExSys.shutdown ExSys.boot = Some s
          ∧ ExSys.step LRetryPass s = Some s'.
Proof.
  assert (match ExSys.run ExSys.shutdown ExSys.boot with
          | Some _ => True
          | None => False
          end) as H
    by (vm_compute; exact I).
  destruct (ExSys.run ExSys.shutdown ExSys.boot) as [s|] eqn:Hs; [|done].
  destruct (shutdown_stops_cleaner_not_retry_loop ExSys.Accounts
              ExSys.listRemovals ExSys.removeAccount ExSys.DataDir ExSys.env
              ExSys.boot s ExSys.shutdown)
    as (_ & _ & _ & _ & _ & s' & Hstep & _).
  - reflexivity.
  - vm_compute. reflexivity.
  - exact Hs.
  - exists s, s'. split; [reflexivity | exact Hstep].
Defined.

(** C4, as stated, fails: after a panic in one run of the clean-up the
    worker is gone.  The next tick stays in the ticker's channel and no
    clean-up can run; a later stop request of [Close] is never taken. *)
Lemma cleaner_panic_stops_the_worker :
  ∃ s1 s2,
    ExSys.run ExSys.panic_then_tick ExSys.boot = Some s1
    ∧ sys_tick_ready s1 = true
    ∧ sys_panics s1 = 1%nat
    ∧ ¬ cleaner_takes_tick ExSys.listRemovals ExSys.removeAccount
          ExSys.DataDir ExSys.env s1
    ∧ (∀ r, ExSys.step (LCleanup r) s1 = None)
    ∧ ExSys.run ExSys.panic_then_close ExSys.boot = Some s2
    ∧ (∃ c, sys_close s2 = CloseSendCleaner c)
    ∧ ¬ cleaner_takes_stop ExSys.listRemovals ExSys.removeAccount
          ExSys.DataDir ExSys.env s2.
Proof.
  assert (match ExSys.run ExSys.panic_then_tick ExSys.boot with
          | Some s =>
              sys_tick_ready s = true ∧ sys_panics s = 1%nat
              ∧ sys_cleaner s = CleanerExited
          | None => False
          end) as H1
    by (vm_compute; repeat split).
  assert (match ExSys.run ExSys.panic_then_close ExSys.boot with
          | Some s =>
              sys_close s = CloseSendCleaner 1%nat ∧ sys_cleaner s = CleanerExited
          | None => False
          end) as H2
    by (vm_compute; repeat split).
  destruct (ExSys.run ExSys.panic_then_tick ExSys.boot) as [s1|]; [|done].
  destruct (ExSys.run ExSys.panic_then_close ExSys.boot) as [s2|]; [|done].
  destruct H1 as (Ht & Hp & Hcl1). destruct H2 as (Hc & Hcl2).
  exists s1, s2. split; [reflexivity|].
  split; [done|]. split; [done|].
  split; [unfold cleaner_takes_tick; simpl; rewrite Hcl1; by intros [? ?]|].
  split; [intros r; simpl; by rewrite Hcl1|].
  split; [reflexivity|]. split; [eauto|].
  unfold cleaner_takes_stop. simpl. rewrite Hcl2. by intros [? ?].
Qed.

Lemma cleaner_panic_is_caught_and_ends_worker_witness :
  ∃ s s',
    ExSys.run [LInit] ExSys.boot = Some s
    ∧ ExSys.step (LCleanup (CleanupPanics "boom")) s = Some s'
    ∧ sys_panics s' = 1%nat
    ∧ sys_cleaner s' = CleanerExited.
Proof.
  assert (match ExSys.run [LInit] ExSys.boot with
          | Some s =>
              sys_cleaner s = CleanerBody ∧ sys_authdb s = true
              ∧ sys_panics s = 0%nat
          | None => False
          end) as H
    by (vm_compute; repeat split).
  destruct (ExSys.run [LInit] ExSys.boot) as [s|]; [|done].
  destruct H as (Hcl & Hdb & Hp).
  destruct (cleaner_panic_is_caught_and_ends_worker ExSys.Accounts
              ExSys.listRemovals ExSys.removeAccount ExSys.DataDir ExSys.env
              s "boom" Hcl Hdb)
    as (s' & Hstep & _ & Hpan & Hex & _).
  exists s, s'. split; [reflexivity|]. split; [exact Hstep|].
  split; [rewrite Hpan, Hp; reflexivity | exact Hex].
Defined.

(** * Proofs of further properties *)
(** ** StoreMessage *)

Lemma StoreMessage_outcome env c ctx id f w :
  fs (StoreMessage env (Some c) ctx id f w).2 = fs w
  ∧ match (StoreMessage env (Some c) ctx id f w).1 with
    | None =>
        ∃ h data,
          handles w !! file_fd f = Some h
          ∧ fs w !! h_path h = Some (RegularFile data)
          ∧ remote (StoreMessage env (Some c) ctx id f w).2
            = remote w ++ [message_object (os c) id (env_now env (clock w)) data]
    | Some e =>
        remote (StoreMessage env (Some c) ctx id f w).2 = remote w
        ∧ ∃ e', e = Errorf "seeking to start of message file: %w" [] e'
                ∨ e = Errorf "storing message in NATS object store: %w" [] e'
    end.
Proof.
  split; [apply StoreMessage_fs|].
  unfold StoreMessage, Seek0, Put, readAll, message_object. munfold. simpl.
  destruct (handles w !! file_fd f) as [h|] eqn:Hh; simpl; [|eauto].
  destruct (env_fault env (S (clock w))); simpl; [eauto|].
  rewrite lookup_insert_eq. simpl.
  destruct (fs w !! h_path h) as [[data|]|] eqn:Hd; simpl; [|eauto..].
  destruct (env_fault env (S (S (clock w)))); simpl; [eauto|].
  exists h, data. done.
Qed.

(** ** newNATSClient *)

Lemma newNATSClient_outcome env cfg w :
  ∃ evs,
    new_events w (newNATSClient env cfg w).2 evs
    ∧ fs (newNATSClient env cfg w).2 = fs w
    ∧ remote (newNATSClient env cfg w).2 = remote w
    ∧ globalNATSClient (newNATSClient env cfg w).2 = globalNATSClient w
    ∧ natsOnce (newNATSClient env cfg w).2 = natsOnce w
    ∧ match (newNATSClient env cfg w).1 with
      | Ok c =>
          c = {| conn := Some {| nats.conn_id := clock w |};
                 os := config.BucketName cfg; config := cfg |}
          ∧ head evs = Some (EvConnect (config.URL cfg) (connectOptions cfg) true)
          ∧ filter (λ e, is_conn_close e = true) evs = []
      | Err e =>
          (∃ e', e = Errorf "connecting to NATS: %w" [] e'
                 ∧ evs = [EvConnect (config.URL cfg) (connectOptions cfg) false])
          ∨ (∃ e', (e = Errorf "creating JetStream context: %w" [] e'
                    ∨ e = Errorf "creating/accessing object store bucket %q: %w"
                            [config.BucketName cfg] e')
                   ∧ head evs
                     = Some (EvConnect (config.URL cfg) (connectOptions cfg) true)
                   ∧ last evs = Some (EvConnClose {| nats.conn_id := clock w |})
                   ∧ filter (λ e, is_conn_close e = true) evs
                     = [EvConnClose {| nats.conn_id := clock w |}])
      end.
Proof.
  unfold newNATSClient, natsConnect, jetstreamNew, jsObjectStore,
    jsCreateObjectStore, new_events.
  munfold. simpl.
  repeat (case_match; simpl; simplify_eq/=);
    eexists; (split; [rewrite <- ?app_assoc; simpl; reflexivity|]);
    repeat (split; [reflexivity|]); eauto 10.
Qed.

(** ** InitNATS *)

Lemma connect_events_one e evs :
  is_connect e = true →
  forallb (λ e, negb (is_connect e)) evs = true →
  length (filter (λ e, is_connect e = true) (e :: evs)) = 1%nat.
Proof.
  intros He Hall. rewrite filter_cons_True by done. simpl. f_equal.
  induction evs as [|e' evs IH]; [done|].
  simpl in Hall. apply andb_prop in Hall as [H1 H2].
  rewrite filter_cons_False; [by apply IH|].
  destruct (is_connect e'); done.
Qed.

Lemma InitNATS_spec env cfg w :
  ∃ evs,
    new_events w (InitNATS env cfg w).2 evs
    ∧ fs (InitNATS env cfg w).2 = fs w
    ∧ remote (InitNATS env cfg w).2 = remote w
    ∧ match cfg with
      | None =>
          (InitNATS env cfg w).1 = None
          ∧ evs = [EvLog LDebug "NATS not configured, skipping initialization" None]
          ∧ natsOnce (InitNATS env cfg w).2 = natsOnce w
          ∧ globalNATSClient (InitNATS env cfg w).2 = globalNATSClient w
      | Some cfg' =>
          if natsOnce w then InitNATS env cfg w = (None, w) ∧ evs = []
          else
            natsOnce (InitNATS env cfg w).2 = true
            ∧ length (filter (λ e, is_connect e = true) evs) = 1%nat
            ∧ match (newNATSClient env cfg' w).1 with
              | Ok c =>
                  (InitNATS env cfg w).1 = None
                  ∧ globalNATSClient (InitNATS env cfg w).2 = Some c
              | Err e =>
                  (InitNATS env cfg w).1 = Some e
                  ∧ globalNATSClient (InitNATS env cfg w).2 = None
              end
      end.
Proof.
  unfold InitNATS, new_events. destruct cfg as [cfg|].
  - destruct (natsOnce w) eqn:Ho.
    + exists []. rewrite app_nil_r. done.
    + destruct (newNATSClient_connect env cfg w) as (ok & evs & Htr & Hall).
      destruct (newNATSClient_outcome env cfg w)
        as (evs' & _ & Hfs & Hrem & _).
      destruct (newNATSClient env cfg w) as [[c|e] w1]; simpl in *;
        eexists; (split; [exact Htr|]); (split; [done|]); (split; [done|]);
        (split; [done|]); (split; [by apply connect_events_one|done]).
  - munfold. simpl. eexists. split; [reflexivity|]. done.
Qed.

Lemma InitNATS_once_done env cfg w :
  natsOnce w = true →
  natsOnce (InitNATS env cfg w).2 = true
  ∧ globalNATSClient (InitNATS env cfg w).2 = globalNATSClient w
  ∧ (InitNATS env cfg w).1 = None
  ∧ ∃ evs, new_events w (InitNATS env cfg w).2 evs
           ∧ filter (λ e, is_connect e = true) evs = [].
Proof.
  intros Ho. destruct (InitNATS_spec env cfg w) as (evs & Hev & _ & _ & H).
  destruct cfg as [cfg|].
  - rewrite Ho in H. destruct H as [-> ->]. simpl. repeat split; try done.
    exists []. split; [|done]. unfold new_events. by rewrite app_nil_r.
  - destruct H as (H1 & -> & H3 & H4). rewrite H3, H4, Ho.
    repeat split; try done. eexists. split; [exact Hev|done].
Qed.

Lemma InitNATS_calls_once_done env cfgs w :
  natsOnce w = true →
  globalNATSClient (InitNATS_calls env cfgs w).2 = globalNATSClient w
  ∧ Forall (λ e, e = None) (InitNATS_calls env cfgs w).1
  ∧ length (InitNATS_calls env cfgs w).1 = length cfgs
  ∧ ∃ evs, new_events w (InitNATS_calls env cfgs w).2 evs
           ∧ filter (λ e, is_connect e = true) evs = [].
Proof.
  revert w. induction cfgs as [|cfg rest IH]; intros w Ho.
  - simpl. repeat split; try done. exists []. unfold new_events.
    by rewrite app_nil_r.
  - cbn [InitNATS_calls]. unfold bind, ret.
    destruct (InitNATS_once_done env cfg w Ho) as (Ho1 & Hc1 & He1 & evs1 & Hev1 & Hf1).
    destruct (InitNATS env cfg w) as [e w1]. simpl in *. subst e.
    destruct (IH w1 Ho1) as (Hc & Hall & Hlen & evs & Hev & Hf).
    destruct (InitNATS_calls env rest w1) as [es w2]. simpl in *.
    split; [congruence|]. split; [by constructor|]. split; [by f_equal|].
    exists (evs1 ++ evs). unfold new_events in *.
    rewrite Hev, Hev1, app_assoc. split; [done|].
    by rewrite filter_app, Hf1, Hf.
Qed.

Lemma no_errors_filter (es : list (option error)) :
  Forall (λ e, e = None) es → filter is_Some es = [].
Proof.
  induction 1 as [|e es -> _ IH]; [done|].
  rewrite filter_cons_False; [done|]. by intros [? ?].
Qed.

Lemma InitNATS_calls_spec env cfgs w :
  ∃ evs,
    new_events w (InitNATS_calls env cfgs w).2 evs
    ∧ (length (filter (λ e, is_connect e = true) evs) ≤ 1)%nat
    ∧ (length (filter is_Some (InitNATS_calls env cfgs w).1) ≤ 1)%nat
    ∧ length (InitNATS_calls env cfgs w).1 = length cfgs.
Proof.
  revert w. induction cfgs as [|cfg rest IH]; intros w.
  - exists []. unfold new_events. simpl. rewrite app_nil_r. repeat split; lia.
  - destruct (natsOnce w) eqn:Ho.
    + destruct (InitNATS_calls_once_done env (cfg :: rest) w Ho)
        as (_ & Hall & Hlen & evs & Hev & Hf).
      exists evs. split; [done|]. rewrite Hf, (no_errors_filter _ Hall). simpl.
      split; [lia|]. split; [lia|done].
    + cbn [InitNATS_calls]. unfold bind, ret.
      destruct (InitNATS_spec env cfg w) as (evs1 & Hev1 & _ & _ & H).
      destruct cfg as [cfg|].
      * rewrite Ho in H. destruct H as (Ho1 & Hlen1 & Hr).
        destruct (InitNATS env (Some cfg) w) as [e w1]. simpl in *.
        destruct (InitNATS_calls_once_done env rest w1 Ho1)
          as (_ & Hall & Hlen & evs & Hev & Hf).
        destruct (InitNATS_calls env rest w1) as [es w2]. simpl in *.
        exists (evs1 ++ evs). unfold new_events in *.
        rewrite Hev, Hev1, app_assoc. split; [done|].
        rewrite filter_app, Hf, app_nil_r, Hlen1. split; [lia|].
        split; [|by f_equal].
        rewrite filter_cons, (no_errors_filter _ Hall).
        case_decide; simpl; lia.
      * destruct H as (He & -> & Ho1 & Hc1).
        destruct (InitNATS env None w) as [e w1]. simpl in *. subst e.
        rewrite Ho in Ho1.
        destruct (IH w1) as (evs & Hev & Hle & Hle2 & Hlen).
        destruct (InitNATS_calls env rest w1) as [es w2]. simpl in *.
        eexists (_ ++ evs). unfold new_events in *.
        rewrite Hev, Hev1, app_assoc. split; [done|].
        rewrite filter_app. simpl. split; [done|].
        rewrite filter_cons_False; [|by intros [? ?]].
        split; [done|by f_equal].
Qed.

(** ** The spool *)

Lemma spoolEnqueue_outcome env id f data w :
  holds f data w →
  remote (spoolEnqueue env id f w).2 = remote w
  ∧ match (spoolEnqueue env id f w).1 with
    | None =>
        fs w !! queueNameAt env id (S (clock w)) = None
        ∧ fs (spoolEnqueue env id f w).2
          = <[queueNameAt env id (S (clock w)) := RegularFile data]> (fs w)
    | Some e =>
        is_queue_error e
        ∧ spooled_prefix env id data (fs w) (fs (spoolEnqueue env id f w).2)
    end.
Proof.
  intros ((h & Hh & Hp) & Hfs & Hlt). destruct h as [hp pos]. simpl in Hp. subst hp.
  assert (file_fd f ≠ next_fd w) as Hne by lia.
  unfold spoolEnqueue, Seek0, is_queue_error, spooled_prefix. munfold. simpl.
  rewrite Hh. simpl.
  destruct (env_fault env (clock w)); simpl; [eauto 10|].
  unfold osOpenFileExcl. munfold. simpl.
  fold (queueNameAt env id (S (clock w))).
  set (q := queueNameAt env id (S (clock w))).
  destruct (fs w !! q) eqn:Hq; simpl; [eauto 10|].
  assert (q ≠ file_name f) as Hqf by congruence.
  match goal with |- context [is_dir ?m ?p] => destruct (is_dir m p) end;
    simpl; [|eauto 10].
  destruct (env_fault env (S (S (S (clock w))))); simpl; [eauto 10|].
  unfold ioCopy, readAll, writeFallible, writeAll, fileClose, newHandle. munfold. simpl.
  rewrite lookup_insert_ne, lookup_insert_eq by done. simpl.
  rewrite lookup_insert_ne by done. rewrite Hfs. simpl.
  destruct (env_fault env (S (S (S (S (clock w)))))); simpl.
  - rewrite lookup_insert_ne, lookup_insert_eq by done. simpl.
    rewrite lookup_insert_eq. simpl. rewrite insert_insert_eq.
    split; [done|]. split; [eauto|]. right. exists (S (clock w)). eexists.
    split; [exact Hq|]. split; [reflexivity|]. apply write_at_prefix.
  - rewrite lookup_insert_ne, lookup_insert_eq by done. simpl.
    rewrite lookup_insert_eq. simpl. rewrite insert_insert_eq, write_at_fresh.
    done.
Qed.

Lemma StoreMessageWithQueue_outcome env c ctx id f data w :
  holds f data w →
  (∃ now,
     (StoreMessageWithQueue env (Some c) ctx id f w).1 = None
     ∧ fs (StoreMessageWithQueue env (Some c) ctx id f w).2 = fs w
     ∧ remote (StoreMessageWithQueue env (Some c) ctx id f w).2
       = remote w ++ [message_object (os c) id now data])
  ∨ (∃ e t,
       (StoreMessage env (Some c) ctx id f w).1 = Some e
       ∧ (StoreMessageWithQueue env (Some c) ctx id f w).1 = Some e
       ∧ is_store_error e
       ∧ remote (StoreMessageWithQueue env (Some c) ctx id f w).2 = remote w
       ∧ fs w !! queueNameAt env id t = None
       ∧ fs (StoreMessageWithQueue env (Some c) ctx id f w).2
         = <[queueNameAt env id t := RegularFile data]> (fs w))
  ∨ (∃ e,
       (StoreMessageWithQueue env (Some c) ctx id f w).1 = Some e
       ∧ is_queue_error e
       ∧ remote (StoreMessageWithQueue env (Some c) ctx id f w).2 = remote w
       ∧ spooled_prefix env id data (fs w)
           (fs (StoreMessageWithQueue env (Some c) ctx id f w).2)).
Proof.
  intros Hh. rewrite StoreMessageWithQueue_unfold.
  destruct (StoreMessage_content env c ctx id f data w Hh) as [_ Hh1].
  destruct (StoreMessage_outcome env c ctx id f w) as [Hfs Hout].
  destruct (StoreMessage env (Some c) ctx id f w) as [[e|] w1]; simpl in *.
  - destruct Hout as [Hrem Herr].
    assert (holds f data (logged_failure e w1)) as Hh2 by exact Hh1.
    destruct (spoolEnqueue_outcome env id f data _ Hh2) as [Hrem2 Hq].
    destruct (spoolEnqueue env id f (logged_failure e w1)) as [[eq|] w2];
      simpl in *; right.
    + right. exists eq. destruct Hq as [Hqe Hsp]. rewrite Hfs in Hsp.
      split; [done|]. split; [done|]. split; [congruence|done].
    + left. exists e, (S (clock w1)). rewrite Hfs in Hq. destruct Hq as [Hn Hq].
      split; [done|]. split; [done|]. split; [exact Herr|].
      split; [congruence|]. done.
  - left. destruct Hout as (h & d & Hh' & Hd & Hrem).
    destruct Hh as ((h0 & Hh0 & Hp) & Hdata & _).
    rewrite Hh0 in Hh'. simplify_eq. rewrite Hp, Hdata in Hd. simplify_eq.
    eauto.
Qed.

(** ** Open descriptors *)

Lemma same_fds_refl f w : same_fds f w w.
Proof. done. Qed.

Lemma same_fds_trans f w1 w2 w3 :
  same_fds f w1 w2 → same_fds f w2 w3 → same_fds f w1 w3.
Proof.
  intros (H1 & H2 & H3) (H4 & H5 & H6). split; [|split].
  - intros fd Hne. rewrite H4, H1; done.
  - by rewrite H5.
  - lia.
Qed.

Lemma same_fds_fresh f w w' :
  (file_fd f < next_fd w)%nat → fds_fresh w → same_fds f w w' → fds_fresh w'.
Proof.
  intros Hlt Hfr (H1 & _ & H3) fd Hfd.
  rewrite H1 by lia. apply Hfr. lia.
Qed.

Ltac same_fds_triv :=
  split; [done|];
  split; [try match goal with H : handles _ !! _ = _ |- _ => rewrite H end; tauto
         |simpl; lia].


Lemma StoreMessage_same_fds env nc ctx id f w :
  same_fds f w (StoreMessage env nc ctx id f w).2.
Proof.
  destruct nc as [c|]; [|same_fds_triv].
  unfold same_fds, StoreMessage, Seek0, Put, readAll. munfold. simpl.
  destruct (handles w !! file_fd f) as [h|] eqn:Hh; simpl; [|same_fds_triv].
  destruct (env_fault env (S (clock w))); simpl; [same_fds_triv|].
  rewrite lookup_insert_eq. simpl.
  destruct (fs w !! h_path h) as [[data|]|]; simpl.
  - destruct (env_fault env (S (S (clock w)))); simpl;
      (split; [|split; [|simpl; lia]];
       [intros fd Hne; by rewrite !lookup_insert_ne
       |rewrite lookup_insert_eq, ?Hh; split; eauto]).
  - split; [|split; [|simpl; lia]];
      [intros fd Hne; by rewrite !lookup_insert_ne
      |rewrite lookup_insert_eq, ?Hh; split; eauto].
  - split; [|split; [|simpl; lia]];
      [intros fd Hne; by rewrite !lookup_insert_ne
      |rewrite lookup_insert_eq, ?Hh; split; eauto].
Qed.

Lemma spoolEnqueue_same_fds env id f w :
  fds_fresh w → (file_fd f < next_fd w)%nat →
  same_fds f w (spoolEnqueue env id f w).2.
Proof.
  intros Hfr Hlt.
  assert (file_fd f ≠ next_fd w) as Hne by lia.
  assert (handles w !! next_fd w = None) as Hnone by (apply Hfr; lia).
  unfold same_fds, spoolEnqueue, Seek0. munfold. simpl.
  destruct (handles w !! file_fd f) as [h|] eqn:Hh; simpl; [|same_fds_triv].
  destruct (env_fault env (clock w)); simpl; [same_fds_triv|].
  unfold osOpenFileExcl. munfold. simpl.
  match goal with |- context [fs w !! ?p] => set (q := p) end.
  assert (∀ h', (∀ fd, fd ≠ file_fd f →
                   <[file_fd f := h']> (handles w) !! fd = handles w !! fd)
                ∧ (is_Some (<[file_fd f := h']> (handles w) !! file_fd f)
                   ↔ is_Some (handles w !! file_fd f))) as Hseek.
  { intros h'. split.
    - intros fd Hfd. by rewrite lookup_insert_ne.
    - rewrite lookup_insert_eq, ?Hh. split; eauto. }
  rewrite Hh in Hseek.
  destruct (fs w !! q) eqn:Hq; simpl;
    [split; [apply Hseek|split; [apply Hseek|simpl; lia]]|].
  match goal with |- context [is_dir ?m ?p] => destruct (is_dir m p) end;
    simpl; [|split; [apply Hseek|split; [apply Hseek|simpl; lia]]].
  destruct (env_fault env (S (S (S (clock w))))); simpl;
    [split; [apply Hseek|split; [apply Hseek|simpl; lia]]|].
  unfold ioCopy, readAll, writeFallible, writeAll, fileClose, newHandle. munfold. simpl.
  rewrite lookup_insert_ne, lookup_insert_eq by done. simpl.
  assert (∀ (m : gmap nat Handle),
            (∀ fd, fd ≠ next_fd w → fd ≠ file_fd f → m !! fd = handles w !! fd) →
            is_Some (m !! file_fd f) →
            (∀ fd, fd ≠ file_fd f → delete (next_fd w) m !! fd = handles w !! fd)
            ∧ (is_Some (delete (next_fd w) m !! file_fd f)
               ↔ is_Some (handles w !! file_fd f))) as Hclose.
  { intros m Hm Hf. split.
    - intros fd Hfd. destruct (decide (fd = next_fd w)) as [->|Hn].
      + by rewrite lookup_delete_eq, Hnone.
      + rewrite lookup_delete_ne by done. by apply Hm.
    - rewrite lookup_delete_ne by done. rewrite ?Hh. split; eauto. }
  rewrite Hh in Hclose.
  destruct (<[q:=RegularFile []]> (fs w) !! h_path h) as [[data|]|] eqn:Hd; simpl.
  - destruct (env_fault env (S (S (S (S (clock w)))))); simpl;
      rewrite ?lookup_insert_ne, ?lookup_insert_eq by done; simpl;
      rewrite ?lookup_insert_eq; simpl.
    + match goal with |- context [delete (next_fd w) ?m] =>
        destruct (Hclose m) as [H1 H2]
      end.
      * intros fd H1 H2. by rewrite !lookup_insert_ne.
      * rewrite lookup_insert_ne, lookup_insert_eq by done. eauto.
      * split; [exact H1|]. split; [exact H2|simpl; lia].
    + match goal with |- context [delete (next_fd w) ?m] =>
        destruct (Hclose m) as [H1 H2]
      end.
      * intros fd H1 H2. by rewrite !lookup_insert_ne.
      * rewrite lookup_insert_ne, lookup_insert_eq by done. eauto.
      * split; [exact H1|]. split; [exact H2|simpl; lia].
  - match goal with |- context [delete (next_fd w) ?m] =>
      destruct (Hclose m) as [H1 H2]
    end.
    * intros fd H1 H2. by rewrite !lookup_insert_ne.
    * rewrite lookup_insert_ne, lookup_insert_eq by done. eauto.
    * split; [exact H1|]. split; [exact H2|simpl; lia].
  - match goal with |- context [delete (next_fd w) ?m] =>
      destruct (Hclose m) as [H1 H2]
    end.
    * intros fd H1 H2. by rewrite !lookup_insert_ne.
    * rewrite lookup_insert_ne, lookup_insert_eq by done. eauto.
    * split; [exact H1|]. split; [exact H2|simpl; lia].
Qed.

Lemma StoreMessageWithQueue_same_fds env nc ctx id f w :
  fds_fresh w → (file_fd f < next_fd w)%nat →
  same_fds f w (StoreMessageWithQueue env nc ctx id f w).2.
Proof.
  intros Hfr Hlt. destruct nc as [c|]; [|done].
  rewrite StoreMessageWithQueue_unfold.
  pose proof (StoreMessage_same_fds env (Some c) ctx id f w) as H1.
  destruct (StoreMessage env (Some c) ctx id f w) as [[e|] w1]; simpl in *; [|done].
  pose proof (spoolEnqueue_same_fds env id f (logged_failure e w1)) as H2.
  destruct (spoolEnqueue env id f (logged_failure e w1)) as [q w2]. simpl in *.
  eapply same_fds_trans; [exact H1|]. apply H2.
  - apply (same_fds_fresh f w); done.
  - destruct H1 as (_ & _ & H1). simpl. lia.
Qed.

(** ** The enqueue when nothing is in its way *)

Lemma spoolEnqueue_succeeds env id f data w :
  holds f data w →
  is_dir (fs w) pendingNATSDir = true →
  env_fault env (clock w) = None →
  fs w !! queueNameAt env id (S (clock w)) = None →
  env_fault env (3 + clock w) = None →
  env_fault env (4 + clock w) = None →
  (spoolEnqueue env id f w).1 = None
  ∧ fs (spoolEnqueue env id f w).2
    = <[queueNameAt env id (S (clock w)) := RegularFile data]> (fs w).
Proof.
  intros ((h & Hh & Hp) & Hfs & Hlt) Hdir Hf0 Hfree Hf3 Hf4.
  destruct h as [hp pos]. simpl in Hp, Hf3, Hf4. subst hp.
  assert (file_fd f ≠ next_fd w) as Hne by lia.
  unfold spoolEnqueue, Seek0. munfold. simpl.
  rewrite Hh. simpl. rewrite Hf0. simpl.
  unfold osOpenFileExcl. munfold. simpl.
  fold (queueNameAt env id (S (clock w))).
  set (q := queueNameAt env id (S (clock w))) in *.
  rewrite Hfree. simpl.
  assert (q ≠ file_name f) as Hqf by congruence.
  change (is_dir (fs w) ["store"; "tmp"; "nats-pending"])
    with (is_dir (fs w) pendingNATSDir).
  rewrite Hdir. simpl. rewrite Hf3. simpl.
  unfold ioCopy, readAll, writeFallible, writeAll, fileClose, newHandle. munfold. simpl.
  rewrite lookup_insert_ne, lookup_insert_eq by done. simpl.
  rewrite lookup_insert_ne by done. rewrite Hfs. simpl.
  rewrite Hf4. simpl.
  rewrite lookup_insert_ne, lookup_insert_eq by done. simpl.
  rewrite lookup_insert_eq. simpl. rewrite insert_insert_eq, write_at_fresh.
  done.
Qed.

(** ** The goroutine of the asynchronous store *)



(** ** The retry loop: a round with the service reachable *)

Lemma list_dir_elem dir m e :
  e ∈ list_dir dir m
  ↔ ∃ node, m !! Join dir (entry_name e) = Some node
            ∧ entry_isdir e = match node with Directory => true | _ => false end.
Proof.
  unfold list_dir. rewrite merge_sort_Permutation, list_elem_of_omap. split.
  - intros ([k node] & Hin & He). apply elem_of_map_to_list in Hin.
    pose proof (entry_under_key _ _ _ He) as Hk. simpl in Hk. subst k.
    exists node. split; [done|].
    unfold entry_under in He. simpl in He.
    destruct (last (Join dir (entry_name e))); [|done].
    case_decide; [|done]. by injection He as <-.
  - intros (node & Hl & Hd). exists (Join dir (entry_name e), node).
    split; [by apply elem_of_map_to_list|].
    unfold entry_under, Join. simpl. rewrite last_snoc.
    rewrite decide_True by done. destruct e as [name isdir]. simpl in *.
    by rewrite Hd.
Qed.

Lemma processPendingFiles_skip env f rest w :
  well_formed env f = false →
  processPendingFiles env (f :: rest) w = processPendingFiles env rest w.
Proof.
  intros Hwf.
  destruct (processPendingFiles_cons env f rest w)
    as [[_ Heq]|[(Hwf' & _)|(Hwf' & _)]]; congruence.
Qed.

Lemma processPendingFiles_deliver env c cn f id d rest w :
  entry_isdir f = false →
  env_sscanf env (entry_name f) = Some id →
  globalNATSClient w = Some c → conn c = Some cn →
  calm env (clock w) →
  fs w !! entry_path f = Some (RegularFile d) →
  ∃ w1,
    processPendingFiles env (f :: rest) w = processPendingFiles env rest w1
    ∧ fs w1 = delete (entry_path f) (fs w)
    ∧ remote w1
      = remote w ++ [message_object (os c) id (env_now env (S (S (clock w)))) d]
    ∧ globalNATSClient w1 = globalNATSClient w
    ∧ clock w1 = (5 + clock w)%nat.
Proof.
  intros Hdir Hid Hc Hcn Hcalm Hd.
  cbn [processPendingFiles]. rewrite Hdir, Hid.
  unfold GetNATSClient, IsConnected, connIsConnected, StoreMessage, osOpen,
    Seek0, Put, readAll, fileClose, osRemove, newHandle, message_object.
  munfold. simpl. rewrite Hc. simpl. rewrite Hcn. simpl.
  destruct (Hcalm (clock w)) as [_ ->]; [lia|]. simpl.
  fold (entry_path f). rewrite Hd. simpl.
  destruct (Hcalm (S (clock w))) as [-> _]; [lia|]. simpl.
  rewrite lookup_insert_eq. simpl.
  destruct (Hcalm (S (S (S (clock w))))) as [-> _]; [lia|]. simpl.
  rewrite lookup_insert_eq. simpl. rewrite Hd. simpl.
  destruct (Hcalm (S (S (S (S (clock w)))))) as [-> _]; [lia|]. simpl.
  rewrite Hd. eexists. split; [reflexivity|]. simpl. done.
Qed.

Lemma processPendingFiles_fs_None env files w p :
  fs w !! p = None → fs (processPendingFiles env files w).2 !! p = None.
Proof.
  intros Hn.
  destruct (processPendingFiles_outcomes env files w)
    as (outs & _ & _ & _ & -> & _).
  by apply outcomes_fs_None.
Qed.

Lemma calm_later env t t' : (t ≤ t')%nat → calm env t → calm env t'.
Proof. intros Hle Hc u Hu. apply Hc. lia. Qed.

Lemma processPendingFiles_drain env c cn files w :
  globalNATSClient w = Some c → conn c = Some cn →
  calm env (clock w) →
  NoDup (entry_name <$> files) →
  (∀ f, f ∈ files → entry_isdir f = false →
        ∃ d, fs w !! entry_path f = Some (RegularFile d)) →
  (∀ f id d, f ∈ files → entry_isdir f = false →
     env_sscanf env (entry_name f) = Some id →
     fs w !! entry_path f = Some (RegularFile d) →
     fs (processPendingFiles env files w).2 !! entry_path f = None
     ∧ ∃ t, message_object (os c) id (env_now env t) d
              ∈ remote (processPendingFiles env files w).2)
  ∧ (∀ p, (∀ f, f ∈ files → well_formed env f = true → p ≠ entry_path f) →
          fs (processPendingFiles env files w).2 !! p = fs w !! p)
  ∧ ∃ objs, remote (processPendingFiles env files w).2 = remote w ++ objs
            ∧ length objs
              = length (filter (λ f, well_formed env f = true) files).
Proof.
  revert w. induction files as [|f rest IH]; intros w Hc Hcn Hcalm Hnd Hreg.
  - simpl. split; [by intros ??? ?%elem_of_nil|]. split; [done|].
    exists []. by rewrite app_nil_r.
  - apply NoDup_cons in Hnd as [Hnin Hnd].
    destruct (well_formed env f) eqn:Hwf.
    + pose proof Hwf as Hwf'. unfold well_formed in Hwf'.
      apply andb_prop in Hwf' as [Hdir Hsome].
      apply negb_true_iff in Hdir.
      apply bool_decide_eq_true in Hsome as [id Hid].
      destruct (Hreg f) as [d Hd]; [by left|done|].
      destruct (processPendingFiles_deliver env c cn f id d rest w)
        as (w1 & Heq & Hfs1 & Hrem1 & Hc1 & Hclock); try done.
      rewrite Heq.
      assert (∀ g, g ∈ rest → entry_path g ≠ entry_path f) as Hother.
      { intros g Hg Hp. apply entry_path_inj in Hp. apply Hnin.
        rewrite <- Hp. by apply list_elem_of_fmap_2. }
      destruct (IH w1) as (Hall & Hkept & objs & Hrem & Hlen).
      { congruence. } { done. }
      { apply (calm_later env (clock w)); [lia|done]. }
      { done. }
      { intros g Hg Hgd. destruct (Hreg g) as [dg Hdg]; [by right|done|].
        exists dg. rewrite Hfs1, lookup_delete_ne; [done|].
        intros Heq'. by apply (Hother g). }
      split; [|split].
      * intros g idg dg [->|Hg]%elem_of_cons Hgd Hgid Hgdata.
        -- rewrite Hid in Hgid. rewrite Hd in Hgdata. simplify_eq. split.
           ++ apply processPendingFiles_fs_None. rewrite Hfs1.
              apply lookup_delete_eq.
           ++ exists (S (S (clock w))). rewrite Hrem, Hrem1. set_solver.
        -- apply Hall; try done.
           rewrite Hfs1, lookup_delete_ne; [done|].
           intros Heq'. by apply (Hother g).
      * intros p Hp. rewrite Hkept.
        -- rewrite Hfs1. apply lookup_delete_ne. intros Heq'.
           apply (Hp f); [by left|done|done].
        -- intros g Hg Hgwf. apply Hp; [by right|done].
      * eexists. rewrite Hrem, Hrem1, <- app_assoc. split; [reflexivity|].
        rewrite filter_cons_True by done. simpl. by rewrite Hlen.
    + rewrite processPendingFiles_skip by done.
      destruct (IH w) as (Hall & Hkept & objs & Hrem & Hlen); try done.
      { intros g Hg. apply Hreg. by right. }
      split; [|split].
      * intros g idg dg [->|Hg]%elem_of_cons Hgd Hgid Hgdata.
        -- unfold well_formed in Hwf. rewrite Hgd, Hgid in Hwf. done.
        -- by apply Hall.
      * intros p Hp. apply Hkept. intros g Hg. apply Hp. by right.
      * exists objs. rewrite filter_cons_False by congruence. done.
Qed.

Lemma processPendingPass_drain env c cn w :
  globalNATSClient w = Some c → conn c = Some cn →
  calm env (clock w) →
  is_dir (fs w) pendingNATSDir = true →
  (∀ name id d,
     env_sscanf env name = Some id →
     fs w !! Join pendingNATSDir name = Some (RegularFile d) →
     fs (processPendingPass env w).2 !! Join pendingNATSDir name = None
     ∧ ∃ t, message_object (os c) id (env_now env t) d
              ∈ remote (processPendingPass env w).2)
  ∧ (∀ p, (∀ name id d,
             env_sscanf env name = Some id →
             fs w !! Join pendingNATSDir name = Some (RegularFile d) →
             p ≠ Join pendingNATSDir name) →
          fs (processPendingPass env w).2 !! p = fs w !! p)
  ∧ ∃ objs, remote (processPendingPass env w).2 = remote w ++ objs
            ∧ length objs
              = length (filter (λ f, well_formed env f = true)
                          (list_dir pendingNATSDir (fs w))).
Proof.
  intros Hc Hcn Hcalm Hdir.
  unfold processPendingPass, osReadDir. munfold. rewrite Hdir. simpl.
  destruct (Hcalm (clock w)) as [-> _]; [lia|]. simpl.
  match goal with |- context [processPendingFiles env ?l ?w1] =>
    destruct (processPendingFiles_drain env c cn l w1)
      as (Hall & Hkept & objs & Hrem & Hlen);
    [done|done|simpl; apply (calm_later env (clock w)); [lia|done]
    |apply list_dir_NoDup| |];
    [|destruct (processPendingFiles env l w1) as [[] w2] eqn:Hrun]
  end.
  { simpl. intros f Hf Hfd. apply list_dir_elem in Hf as (node & Hl & Hn).
    rewrite Hfd in Hn. destruct node as [d|]; [|done]. by exists d. }
  simpl in *. split; [|split].
  - intros name id d Hid Hd.
    apply (Hall {| entry_name := name; entry_isdir := false |} id d); try done.
    apply list_dir_elem. exists (RegularFile d). done.
  - intros p Hp. apply Hkept. intros f Hf Hwf.
    unfold well_formed in Hwf. apply andb_prop in Hwf as [Hfd Hsome].
    apply negb_true_iff in Hfd.
    apply bool_decide_eq_true in Hsome as [id Hid].
    apply list_dir_elem in Hf as (node & Hl & Hn).
    rewrite Hfd in Hn. destruct node as [d|]; [|done].
    by apply (Hp (entry_name f) id d).
  - exists objs. done.
Qed.

(** ** The retry loop: what every round leaves alone *)

Lemma processPendingFiles_cons_world env f rest w :
  ∃ w1,
    (processPendingFiles env (f :: rest) w = processPendingFiles env rest w1
     ∨ processPendingFiles env (f :: rest) w = (tt, w1))
    ∧ remote w `prefix_of` remote w1
    ∧ natsOnce w1 = natsOnce w
    ∧ (handles w1 = handles w ∧ next_fd w1 = next_fd w
       ∨ handles w1 = delete (next_fd w) (handles w)
         ∧ next_fd w1 = S (next_fd w)).
Proof.
  assert (∃ w1,
            (processPendingFiles env rest w = processPendingFiles env rest w1
             ∨ processPendingFiles env rest w = (tt, w1))
            ∧ remote w `prefix_of` remote w1
            ∧ natsOnce w1 = natsOnce w
            ∧ (handles w1 = handles w ∧ next_fd w1 = next_fd w
               ∨ handles w1 = delete (next_fd w) (handles w)
                 ∧ next_fd w1 = S (next_fd w))) as Hskip.
  { exists w. split; [by left|]. split; [done|]. split; [done|]. by left. }
  cbn [processPendingFiles].
  destruct (entry_isdir f); [exact Hskip|].
  destruct (env_sscanf env (entry_name f)); [|exact Hskip].
  clear Hskip.
  unfold GetNATSClient, IsConnected, connIsConnected, StoreMessage, osOpen,
    Seek0, Put, readAll, fileClose, osRemove, newHandle.
  munfold. simpl.
  repeat (case_match; simpl; simplify_eq/=);
    eexists;
    (split; [first [left; reflexivity | right; reflexivity]|]); simpl;
    (split; [first [done | by apply prefix_app_r]|]);
    (split; [done|]);
    first [left; done | right; by rewrite ?delete_insert_eq].
Qed.

Lemma delete_fresh w : fds_fresh w → delete (next_fd w) (handles w) = handles w.
Proof. intros Hfr. apply delete_id, Hfr. lia. Qed.

Lemma processPendingFiles_world env files w :
  remote w `prefix_of` remote (processPendingFiles env files w).2
  ∧ natsOnce (processPendingFiles env files w).2 = natsOnce w
  ∧ (fds_fresh w →
     handles (processPendingFiles env files w).2 = handles w
     ∧ fds_fresh (processPendingFiles env files w).2).
Proof.
  revert w. induction files as [|f rest IH]; intros w; [done|].
  destruct (processPendingFiles_cons_world env f rest w)
    as (w1 & Heq & Hpre & Honce & Hh).
  assert (fds_fresh w → handles w1 = handles w ∧ fds_fresh w1) as Hfresh.
  { intros Hfr. destruct Hh as [[Hh Hn]|[Hh Hn]].
    - split; [done|]. intros fd. rewrite Hh, Hn. apply Hfr.
    - rewrite delete_fresh in Hh by done. split; [done|].
      intros fd Hfd. rewrite Hh. apply Hfr. lia. }
  destruct Heq as [-> | ->].
  - destruct (IH w1) as (Hp1 & Ho1 & Hh1).
    split; [by etrans|]. split; [congruence|].
    intros Hfr. destruct (Hfresh Hfr) as [Hh0 Hfr1].
    destruct (Hh1 Hfr1) as [Hh2 Hfr2]. split; [congruence|done].
  - simpl. done.
Qed.

Lemma retired_refl env m : retired env m m.
Proof. intros p. by left. Qed.

Lemma retired_trans env m1 m2 m3 :
  retired env m1 m2 → retired env m2 m3 → retired env m1 m3.
Proof.
  intros H12 H23 p.
  destruct (H23 p) as [Heq|(Hn & name & id & d & -> & Hid & Hd)].
  - rewrite Heq. apply H12.
  - right. split; [done|]. exists name, id, d. split; [done|]. split; [done|].
    destruct (H12 (Join pendingNATSDir name)) as [Heq|[Hn' _]]; congruence.
Qed.

Lemma retired_subseteq env m m' : retired env m m' → m' ⊆ m.
Proof.
  intros H. apply map_subseteq_spec. intros p x Hp.
  destruct (H p) as [Heq|[Hn _]]; congruence.
Qed.

Lemma outcomes_fs_lookup outs m p :
  outcomes_fs outs m !! p = m !! p
  ∨ (outcomes_fs outs m !! p = None
     ∧ ∃ fo, fo ∈ outs ∧ is_stored fo.2 = true ∧ entry_path fo.1 = p).
Proof.
  revert m. induction outs as [|[f o] outs IH]; intros m; [by left|].
  simpl. destruct (is_stored o) eqn:Hst.
  - destruct (decide (entry_path f = p)) as [<-|Hne].
    + right. split; [apply outcomes_fs_None, lookup_delete_eq|].
      exists (f, o). split; [by left|done].
    + destruct (IH (delete (entry_path f) m)) as [Heq|[Hn (fo & Hin & H)]].
      * left. by rewrite Heq, lookup_delete_ne.
      * right. split; [done|]. exists fo. split; [by right|done].
  - destruct (IH m) as [Heq|[Hn (fo & Hin & H)]]; [by left|].
    right. split; [done|]. exists fo. split; [by right|done].
Qed.

Lemma processPendingPass_world env w :
  retired env (fs w) (fs (processPendingPass env w).2)
  ∧ remote w `prefix_of` remote (processPendingPass env w).2
  ∧ globalNATSClient (processPendingPass env w).2 = globalNATSClient w
  ∧ natsOnce (processPendingPass env w).2 = natsOnce w
  ∧ goroutines (processPendingPass env w).2 = goroutines w
  ∧ (fds_fresh w →
     handles (processPendingPass env w).2 = handles w
     ∧ fds_fresh (processPendingPass env w).2).
Proof.
  split.
  { destruct (processPendingPass_outcomes env w)
      as (outs & ok & d & _ & Hsub & _ & Hfs & _ & _).
    intros p. rewrite Hfs.
    destruct (outcomes_fs_lookup outs (fs w) p)
      as [Heq|[Hn (fo & Hin & Hst & <-)]]; [by left|].
    destruct (fs w !! entry_path fo.1) as [node'|] eqn:Hl'; [|left; congruence].
    right. split; [done|].
    assert (fo.1 ∈ filter (λ f, well_formed env f = true)
                      (list_dir pendingNATSDir (fs w))) as Hf.
    { eapply elem_of_sublist; [|exact Hsub]. by apply list_elem_of_fmap_2. }
    apply list_elem_of_filter in Hf as [Hwf Hf].
    unfold well_formed in Hwf. apply andb_prop in Hwf as [Hfd Hsome].
    apply negb_true_iff in Hfd.
    apply bool_decide_eq_true in Hsome as [id Hid].
    apply list_dir_elem in Hf as (node & Hnode & Hisdir).
    rewrite Hfd in Hisdir. destruct node as [dd|]; [|done].
    exists (entry_name fo.1), id, dd.
    split; [reflexivity|]. split; [done|].
    unfold entry_path in Hl'. congruence. }
  split; [|split; [|split; [|split; [apply processPendingPass_goroutines|]]]].
  - unfold processPendingPass, osReadDir. munfold.
    destruct (is_dir (fs w) pendingNATSDir); simpl; [|done].
    destruct (env_fault env (clock w)); simpl; [done|].
    match goal with |- context [processPendingFiles env ?l ?w1] =>
      destruct (processPendingFiles_world env l w1) as (H & _);
      destruct (processPendingFiles env l w1) as [[] w2]
    end.
    simpl in *. done.
  - destruct (processPendingPass_outcomes env w)
      as (outs & ok & d & _ & _ & _ & _ & Hc & _). done.
  - unfold processPendingPass, osReadDir. munfold.
    destruct (is_dir (fs w) pendingNATSDir); simpl; [|done].
    destruct (env_fault env (clock w)); simpl; [done|].
    match goal with |- context [processPendingFiles env ?l ?w1] =>
      destruct (processPendingFiles_world env l w1) as (_ & H & _);
      destruct (processPendingFiles env l w1) as [[] w2]
    end.
    simpl in *. done.
  - intros Hfr. unfold processPendingPass, osReadDir. munfold.
    destruct (is_dir (fs w) pendingNATSDir); simpl; [|done].
    destruct (env_fault env (clock w)); simpl; [done|].
    match goal with |- context [processPendingFiles env ?l ?w1] =>
      destruct (processPendingFiles_world env l w1) as (_ & _ & H);
      destruct (processPendingFiles env l w1) as [[] w2]
    end.
    simpl in *. destruct (H Hfr) as [Hh Hfr2]. done.
Qed.

Lemma processPendingNATSLoop_world env n w :
  retired env (fs w) (fs (processPendingNATSLoop env n w).2)
  ∧ remote w `prefix_of` remote (processPendingNATSLoop env n w).2
  ∧ globalNATSClient (processPendingNATSLoop env n w).2 = globalNATSClient w
  ∧ natsOnce (processPendingNATSLoop env n w).2 = natsOnce w
  ∧ goroutines (processPendingNATSLoop env n w).2 = goroutines w
  ∧ (fds_fresh w →
     handles (processPendingNATSLoop env n w).2 = handles w
     ∧ fds_fresh (processPendingNATSLoop env n w).2).
Proof.
  revert w. induction n as [|n IH]; intros w.
  - simpl. split; [apply retired_refl|done].
  - cbn [processPendingNATSLoop]. unfold bind.
    destruct (processPendingPass_world env w) as (H1 & H2 & H3 & H4 & H5 & H6).
    destruct (processPendingPass env w) as [[] w1]. simpl in *.
    destruct (IH w1) as (I1 & I2 & I3 & I4 & I5 & I6).
    split; [by eapply retired_trans|]. split; [by etrans|].
    split; [congruence|]. split; [congruence|]. split; [congruence|].
    intros Hfr. destruct (H6 Hfr) as [Hh Hfr1].
    destruct (I6 Hfr1) as [Hh2 Hfr2]. split; [congruence|done].
Qed.

(** ** The retry loop: pace and reach *)

Lemma slept_app evs1 evs2 : slept (evs1 ++ evs2) = slept evs1 + slept evs2.
Proof.
  induction evs1 as [|e evs1 IH]; simpl; [done|].
  destruct e; rewrite ?IH; lia.
Qed.

Lemma outcomes_events_quiet outs :
  slept (outcomes_events outs) = 0
  ∧ filter (λ e, is_readdir e = true) (outcomes_events outs) = [].
Proof.
  induction outs as [|[f o] outs [IH1 IH2]]; [done|].
  rewrite outcomes_events_cons, slept_app, filter_app, IH1, IH2.
  destruct o; done.
Qed.

Lemma processPendingPass_pace env w :
  ∃ ok evs,
    new_events w (processPendingPass env w).2 (EvReadDir pendingNATSDir ok :: evs)
    ∧ filter (λ e, is_readdir e = true) evs = []
    ∧ slept evs = (if ok then 30 * Second else 10 * Second).
Proof.
  unfold processPendingPass, osReadDir, new_events. munfold.
  destruct (is_dir (fs w) pendingNATSDir); simpl.
  2:{ exists false. eexists. rewrite <- app_assoc. split; [reflexivity|]. done. }
  destruct (env_fault env (clock w)); simpl.
  { exists false. eexists. rewrite <- app_assoc. split; [reflexivity|]. done. }
  match goal with |- context [processPendingFiles env ?l ?w1] =>
    destruct (processPendingFiles_outcomes env l w1) as (outs & H1 & _);
    destruct (processPendingFiles env l w1) as [[] w2] eqn:Hrun
  end.
  simpl in *. exists true. eexists. rewrite H1, <- !app_assoc.
  split; [reflexivity|].
  destruct (outcomes_events_quiet outs) as [Hs Hf].
  rewrite filter_app, slept_app, Hs, Hf. done.
Qed.

Lemma processPendingNATSLoop_pace env n w :
  ∃ evs,
    new_events w (processPendingNATSLoop env n w).2 evs
    ∧ length (filter (λ e, is_readdir e = true) evs) = n
    ∧ 10 * Second * Z.of_nat n ≤ slept evs ≤ 30 * Second * Z.of_nat n.
Proof.
  revert w. induction n as [|n IH]; intros w.
  - exists []. unfold new_events. simpl. rewrite app_nil_r. split; [done|].
    split; [done|]. simpl. lia.
  - cbn [processPendingNATSLoop]. unfold bind.
    destruct (processPendingPass_pace env w) as (ok & evs1 & Hev1 & Hf1 & Hs1).
    destruct (processPendingPass env w) as [[] w1]. simpl in *.
    destruct (IH w1) as (evs & Hev & Hlen & Hs).
    exists ((EvReadDir pendingNATSDir ok :: evs1) ++ evs).
    unfold new_events in *. rewrite Hev, Hev1, app_assoc. split; [done|].
    rewrite filter_app, filter_cons_True by done. rewrite Hf1. simpl.
    split; [by rewrite Hlen|].
    rewrite slept_app, Hs1. unfold Second in *. destruct ok; lia.
Qed.

Lemma outcome_event_path p o e q :
  outcome_on p o → e ∈ outcome_events p o → event_path e = Some q → q = p.
Proof.
  destruct o; simpl; intros Hon Hin Hq; set_unfold;
    repeat destruct Hin as [->|Hin]; simpl in *; try done; congruence.
Qed.

Lemma processPendingPass_reach env w e p :
  (∃ evs, new_events w (processPendingPass env w).2 evs ∧ e ∈ evs) →
  event_path e = Some p →
  ∃ f, f ∈ list_dir pendingNATSDir (fs w)
       ∧ well_formed env f = true
       ∧ p = entry_path f.
Proof.
  intros (evs & Hev & Hin) Hp.
  destruct (processPendingPass_outcomes env w)
    as (outs & ok & d & Htr & Hsub & Hon & _).
  unfold new_events in Hev. rewrite Htr in Hev.
  apply app_inv_head in Hev. subst evs.
  apply pass_events_elem in Hin as [->|[Hin| ->]]; [done| |done].
  apply elem_outcomes_events in Hin as (fo & Hfo & Hin).
  rewrite Forall_forall in Hon.
  pose proof (outcome_event_path _ _ _ _ (Hon _ Hfo) Hin Hp) as ->.
  assert (fo.1 ∈ filter (λ f, well_formed env f = true)
                    (list_dir pendingNATSDir (fs w))) as Hf.
  { eapply elem_of_sublist; [|exact Hsub]. by apply list_elem_of_fmap_2. }
  apply list_elem_of_filter in Hf as [Hwf Hf]. eauto.
Qed.

(** ** StoreMessageAsync *)

Lemma StoreMessageAsync_frame env c ctx id f w :
  fs (StoreMessageAsync env (Some c) ctx id f w).2 = fs w
  ∧ remote (StoreMessageAsync env (Some c) ctx id f w).2 = remote w
  ∧ ∃ evs,
      new_events w (StoreMessageAsync env (Some c) ctx id f w).2 evs
      ∧ put_paths evs = []
      ∧ ((goroutines (StoreMessageAsync env (Some c) ctx id f w).2 = goroutines w
          ∧ ∃ msg e, last evs = Some (EvLog LError msg (Some e)))
         ∨ ∃ data,
             fs w !! file_name f = Some (RegularFile data)
             ∧ last evs = Some (EvGo (GoAsyncStore c id data))
             ∧ goroutines (StoreMessageAsync env (Some c) ctx id f w).2
               = goroutines w ++ [GoAsyncStore c id data]).
Proof.
  unfold StoreMessageAsync, Seek0, osReadFile, new_events. munfold. simpl.
  repeat (case_match; simpl; simplify_eq/=);
    (split; [done|]); (split; [done|]);
    eexists; (split; [rewrite <- ?app_assoc; simpl; reflexivity|]);
    (split; [done|]); eauto 10.
Qed.

(** ** Lifecycle: early returns of [Init], and [Close] without the cleaner *)

Section LifecycleMore.
Variable Accounts : Type.
Variable listRemovals : Accounts → list AccountRemove.
Variable removeAccount : string → Accounts → option error * Accounts.
Variable DataDir : Path.
Variable env : Env.

Abbreviation SysM := (System Accounts).
Abbreviation InitM := (Init listRemovals removeAccount DataDir env).
Abbreviation stepM := (step listRemovals removeAccount DataDir env).
Abbreviation runM := (run listRemovals removeAccount DataDir env).

Lemma Init_open_fails (s : SysM) e :
  sys_authdb s = false →
  env_fault env (S (clock (sys_world s))) = Some e →
  (InitM s).1 = Some e
  ∧ sys_authdb (InitM s).2 = false
  ∧ sys_cleaner (InitM s).2 = sys_cleaner s
  ∧ sys_writer (InitM s).2 = sys_writer s
  ∧ sys_accounts (InitM s).2 = sys_accounts s
  ∧ goroutines (sys_world (InitM s).2) = goroutines (sys_world s)
  ∧ globalNATSClient (sys_world (InitM s).2) = globalNATSClient (sys_world s).
Proof.
  intros Hdb Hopen. unfold Init. rewrite Hdb. cbv zeta.
  rewrite (@in_world_frame _ _ (osMkdirAll env DataDir 504)).
  destruct (osMkdirAll_spec env DataDir 504 (sys_world s)) as (ok & m & ->).
  rewrite in_world_fault. simpl. rewrite Hopen. simpl. done.
Qed.

Lemma Init_list_fails (s : SysM) e :
  sys_authdb s = false →
  db_opens env s →
  env_fault env (S (S (clock (sys_world s)))) = Some e →
  (InitM s).1 = Some (Errorf "listing scheduled account removals: %v" [] e)
  ∧ sys_authdb (InitM s).2 = true
  ∧ sys_cleaner (InitM s).2 = sys_cleaner s
  ∧ sys_writer (InitM s).2 = sys_writer s
  ∧ sys_accounts (InitM s).2 = sys_accounts s
  ∧ goroutines (sys_world (InitM s).2) = goroutines (sys_world s)
  ∧ globalNATSClient (sys_world (InitM s).2) = globalNATSClient (sys_world s)
  ∧ InitM (InitM s).2 = (Some (ErrorString "already initialized"), (InitM s).2).
Proof.
  intros Hdb Hopen Hlist. unfold db_opens in Hopen.
  assert ((InitM s).1
          = Some (Errorf "listing scheduled account removals: %v" [] e)
          ∧ sys_authdb (InitM s).2 = true
          ∧ sys_cleaner (InitM s).2 = sys_cleaner s
          ∧ sys_writer (InitM s).2 = sys_writer s
          ∧ sys_accounts (InitM s).2 = sys_accounts s
          ∧ goroutines (sys_world (InitM s).2) = goroutines (sys_world s)
          ∧ globalNATSClient (sys_world (InitM s).2)
            = globalNATSClient (sys_world s)) as H.
  { unfold Init. rewrite Hdb. cbv zeta.
    rewrite (@in_world_frame _ _ (osMkdirAll env DataDir 504)).
    destruct (osMkdirAll_spec env DataDir 504 (sys_world s)) as (ok & m & ->).
    rewrite in_world_fault. simpl. rewrite Hopen.
    rewrite ?in_world_fault. simpl. rewrite Hlist. simpl. done. }
  destruct H as (H1 & H2 & H3 & H4 & H5 & H6 & H7).
  repeat (split; [done|]).
  unfold Init at 1. by rewrite H2.
Qed.

Ltac world_steps :=
  repeat match goal with
    | H : in_world ?m ?s = (?a, ?s') |- _ =>
        apply in_world_eq in H as [? ->]
    end;
  rewrite ?in_world_frame in *; simpl in *.

Ltac step_inv Hstep :=
  simpl in Hstep; unfold writer_recv_stop, writer_ack, cleaner_body in Hstep;
  simplify_eq/=; repeat (case_match; simplify_eq/=); world_steps.

Ltac by_pc s :=
  repeat match goal with
    | H : sys_close s = _ |- _ => rewrite H in *
    | H : sys_cleaner s = _ |- _ => rewrite H in *
    | H : sys_writer s = _ |- _ => rewrite H in *
    end;
  simpl in *;
  try (destruct (sys_close s) eqn:?; simpl in * );
  try intuition congruence.

Lemma step_close_stuck l (s s' : SysM) :
  stepM l s = Some s' → close_stuck s → close_stuck s'.
Proof.
  unfold close_stuck, close_waits. intros Hstep (Hcl & Hdb & Hw).
  destruct l; [|step_inv Hstep; by_pc s ..].
  simpl in Hstep. destruct (sys_close s) eqn:Hc; simplify_eq/=.
  destruct (Init_frame Accounts listRemovals removeAccount DataDir env s)
    as (_ & _ & _ & _ & Hsame).
  rewrite (Hsame Hdb). by rewrite Hc.
Qed.

Lemma run_close_stuck ls (s s' : SysM) :
  runM ls s = Some s' → close_stuck s → close_stuck s'.
Proof.
  revert s. induction ls as [|l ls IH]; intros s; simpl.
  - by intros [= <-].
  - destruct (stepM l s) as [s1|] eqn:Hs; [|done].
    intros Hrun Hg. apply (IH s1 Hrun). by apply (step_close_stuck l s).
Qed.

Lemma Init_client (s : SysM) :
  natsOnce (sys_world s) = true →
  natsOnce (sys_world (InitM s).2) = true
  ∧ globalNATSClient (sys_world (InitM s).2) = globalNATSClient (sys_world s).
Proof.
  intros Ho. unfold Init.
  destruct (sys_authdb s) eqn:Hdb; [done|].
  cbv zeta. rewrite (@in_world_frame _ _ (osMkdirAll env DataDir 504)).
  destruct (osMkdirAll_spec env DataDir 504 (sys_world s)) as (ok & m & ->).
  rewrite in_world_fault. simpl.
  destruct (env_fault env (S (clock (sys_world s)))); [done|].
  rewrite ?in_world_fault. simpl.
  destruct (env_fault env (S (S (clock (sys_world s))))); [done|].
  match goal with |- context [removeAccounts removeAccount ?rs ?s0] =>
    destruct (removeAccounts_frame _ removeAccount rs s0) as (a & t & ->)
  end.
  simpl.
  match goal with |- context [in_world (InitNATS env ?c) ?s1] =>
    destruct (InitNATS_once_done env c (sys_world s1)) as (H1 & H2 & _);
    [exact Ho|];
    unfold in_world;
    destruct (InitNATS env c (sys_world s1)) as [[e|] w2]
  end; simpl in *; done.
Qed.

Lemma step_client_fixed l (s s' : SysM) :
  stepM l s = Some s' →
  natsOnce (sys_world s) = true →
  natsOnce (sys_world s') = true
  ∧ globalNATSClient (sys_world s') = globalNATSClient (sys_world s).
Proof.
  intros Hstep Ho. destruct l.
  - simpl in Hstep. destruct (sys_close s); simplify_eq/=.
    by apply Init_client.
  - step_inv Hstep; done.
  - step_inv Hstep; done.
  - step_inv Hstep; done.
  - step_inv Hstep; done.
  - step_inv Hstep; done.
  - step_inv Hstep; done.
  - step_inv Hstep; done.
  - step_inv Hstep; done.
  - step_inv Hstep; done.
  - step_inv Hstep; done.
  - step_inv Hstep; unfold Close, GetNATSClient in *; munfold;
      repeat (case_match; simplify_eq/=); done.
  - step_inv Hstep; done.
  - step_inv Hstep.
    destruct (processPendingPass_world env (sys_world s))
      as (_ & _ & Hc & Hn & _).
    split; congruence.
Qed.

Lemma run_client_fixed ls (s s' : SysM) :
  runM ls s = Some s' →
  natsOnce (sys_world s) = true →
  natsOnce (sys_world s') = true
  ∧ globalNATSClient (sys_world s') = globalNATSClient (sys_world s).
Proof.
  revert s. induction ls as [|l ls IH]; intros s; simpl.
  - by intros [= <-].
  - destruct (stepM l s) as [s1|] eqn:Hs; [|done].
    intros Hrun Ho.
    destruct (step_client_fixed l s s1 Hs Ho) as [Ho1 Hc1].
    destruct (IH s1 Hrun Ho1) as [Ho2 Hc2]. split; [done|congruence].
Qed.

End LifecycleMore.

(** * Further properties of the client *)

(** X1.  [StoreMessage] on a configured client never touches the file
    system, and is all or nothing on the bucket: when it returns nil,
    the message file was open on a regular file and exactly one object
    was added, in the client's bucket, named msg-{id}-{seconds} after
    the message ID and the wall clock read at the start of the call,
    and holding the whole content of the file whatever the offset of
    the descriptor was; when it returns an error, the error is the
    wrapped failure of the seek or of the put and the bucket is as
    before. *)
Theorem StoreMessage_all_or_nothing (env : Env) (c : NATSClient) (ctx : Context)
    (messageID : Z) (msgFile : File) (w : World) :
  fs (StoreMessage env (Some c) ctx messageID msgFile w).2 = fs w
  ∧ match (StoreMessage env (Some c) ctx messageID msgFile w).1 with
    | None =>
        ∃ h data,
          handles w !! file_fd msgFile = Some h
          ∧ fs w !! h_path h = Some (RegularFile data)
          ∧ remote (StoreMessage env (Some c) ctx messageID msgFile w).2
            = remote w
                ++ [message_object (os c) messageID (env_now env (clock w)) data]
    | Some e =>
        remote (StoreMessage env (Some c) ctx messageID msgFile w).2 = remote w
        ∧ is_store_error e
    end.
Proof. apply StoreMessage_outcome. Qed.

(** X2.  [newNATSClient] never leaks a connection and never installs
    anything: it leaves the file system, the bucket and the global
    client alone; when it returns a client, that client carries the
    connection just made, the configured bucket and the configuration,
    and the connection has not been closed; when it returns an error
    after the connection was made (JetStream context or bucket), the
    last thing it did was to close that connection, once; when the
    connection itself failed there is nothing to close. *)
Theorem newNATSClient_closes_failed_connection (env : Env) (cfg : config.NATS)
    (w : World) :
  ∃ evs,
    new_events w (newNATSClient env cfg w).2 evs
    ∧ fs (newNATSClient env cfg w).2 = fs w
    ∧ remote (newNATSClient env cfg w).2 = remote w
    ∧ globalNATSClient (newNATSClient env cfg w).2 = globalNATSClient w
    ∧ natsOnce (newNATSClient env cfg w).2 = natsOnce w
    ∧ match (newNATSClient env cfg w).1 with
      | Ok c =>
          c = {| conn := Some {| nats.conn_id := clock w |};
                 os := config.BucketName cfg; config := cfg |}
          ∧ head evs = Some (EvConnect (config.URL cfg) (connectOptions cfg) true)
          ∧ filter (λ e, is_conn_close e = true) evs = []
      | Err e =>
          (∃ e', e = Errorf "connecting to NATS: %w" [] e'
                 ∧ evs = [EvConnect (config.URL cfg) (connectOptions cfg) false])
          ∨ (∃ e', (e = Errorf "creating JetStream context: %w" [] e'
                    ∨ e = Errorf "creating/accessing object store bucket %q: %w"
                            [config.BucketName cfg] e')
                   ∧ head evs
                     = Some (EvConnect (config.URL cfg) (connectOptions cfg) true)
                   ∧ last evs = Some (EvConnClose {| nats.conn_id := clock w |})
                   ∧ filter (λ e, is_conn_close e = true) evs
                     = [EvConnClose {| nats.conn_id := clock w |}])
      end.
Proof. apply newNATSClient_outcome. Qed.

(** X3.  However often [InitNATS] is called, and with whatever
    configurations (nil or not), the process makes at most one
    connection attempt and at most one of the calls returns an error;
    once the construction has run, successfully or not, no later call
    connects, returns an error or changes the global client. *)
Theorem InitNATS_connects_at_most_once (env : Env)
    (cfgs : list (option config.NATS)) (w : World) :
  ∃ evs,
    new_events w (InitNATS_calls env cfgs w).2 evs
    ∧ (length (filter (λ e, is_connect e = true) evs) ≤ 1)%nat
    ∧ (length (filter is_Some (InitNATS_calls env cfgs w).1) ≤ 1)%nat
    ∧ length (InitNATS_calls env cfgs w).1 = length cfgs
    ∧ (natsOnce w = true →
       filter (λ e, is_connect e = true) evs = []
       ∧ Forall (λ e, e = None) (InitNATS_calls env cfgs w).1
       ∧ globalNATSClient (InitNATS_calls env cfgs w).2 = globalNATSClient w).
Proof.
  destruct (InitNATS_calls_spec env cfgs w) as (evs & Hev & H1 & H2 & H3).
  exists evs. split; [done|]. split; [done|]. split; [done|]. split; [done|].
  intros Ho.
  destruct (InitNATS_calls_once_done env cfgs w Ho)
    as (Hc & Hall & _ & evs' & Hev' & Hf).
  unfold new_events in *. rewrite Hev in Hev'.
  apply app_inv_head in Hev'. subst evs'. done.
Qed.

(** X4.  The first call of [InitNATS] with a configuration runs the
    construction and uses up the once: when it returns nil,
    [GetNATSClient] returns the client just built, whose [Config] is
    the configuration given; when it returns an error, the error is
    that of [newNATSClient] and [GetNATSClient] returns nil.  The file
    system and the bucket are not touched. *)
Theorem InitNATS_installs_client (env : Env) (cfg : config.NATS) (w : World) :
  natsOnce w = false →
  natsOnce (InitNATS env (Some cfg) w).2 = true
  ∧ fs (InitNATS env (Some cfg) w).2 = fs w
  ∧ remote (InitNATS env (Some cfg) w).2 = remote w
  ∧ match (InitNATS env (Some cfg) w).1 with
    | None =>
        (GetNATSClient (InitNATS env (Some cfg) w).2).1
        = Some {| conn := Some {| nats.conn_id := clock w |};
                  os := config.BucketName cfg; config := cfg |}
        ∧ Config (GetNATSClient (InitNATS env (Some cfg) w).2).1 = Some cfg
    | Some e =>
        (GetNATSClient (InitNATS env (Some cfg) w).2).1 = None
        ∧ (newNATSClient env cfg w).1 = Err e
    end.
Proof.
  intros Ho.
  destruct (InitNATS_spec env (Some cfg) w) as (evs & _ & Hfs & Hrem & H).
  rewrite Ho in H. destruct H as (Ho1 & _ & H).
  split; [done|]. split; [done|]. split; [done|].
  destruct (newNATSClient_outcome env cfg w) as (evs1 & _ & _ & _ & _ & _ & Hout).
  unfold GetNATSClient. cbn beta iota delta [fst].
  destruct (newNATSClient env cfg w) as [[c|e] w1]; cbn [fst] in H, Hout;
    destruct H as [Hr Hg]; rewrite Hr, Hg.
  - destruct Hout as (Hc & _). rewrite Hc. done.
  - done.
Qed.

Lemma InitNATS_installs_client_witness :
  (GetNATSClient
     (InitNATS Ex2.env_up (Some Ex.cfg) Ex.world_unconfigured).2).1
  = Some {| conn := Some {| nats.conn_id := 0 |}; os := "mox-emails";
            config := Ex.cfg |}.
Proof.
  pose proof (InitNATS_installs_client Ex2.env_up Ex.cfg Ex.world_unconfigured
                eq_refl) as (_ & _ & _ & H).
  assert ((InitNATS Ex2.env_up (Some Ex.cfg) Ex.world_unconfigured).1 = None)
    as Hr by (vm_compute; reflexivity).
  rewrite Hr in H. destruct H as [H _]. exact H.
Defined.

(** * Further properties of the spool *)

(** X5.  [StoreMessageWithQueue] on an open message file holding [data]
    does not lose the message silently.  Either it returns nil and the
    bucket has gained one object holding [data], the file system being
    as before; or it returns the error of the failed store itself, and
    then the spool has gained exactly one entry, under a name that was
    free, holding the whole of [data], everything else being as
    before; or it returns an error of the enqueue (seek, create or
    copy), and then the file system is as before or has gained one
    entry holding a prefix of [data]. *)
Theorem StoreMessageWithQueue_never_loses_silently
    (env : Env) (c : NATSClient) (ctx : Context) (messageID : Z)
    (msgFile : File) (data : bytes) (w : World) :
  holds msgFile data w →
  (∃ now,
     (StoreMessageWithQueue env (Some c) ctx messageID msgFile w).1 = None
     ∧ fs (StoreMessageWithQueue env (Some c) ctx messageID msgFile w).2 = fs w
     ∧ remote (StoreMessageWithQueue env (Some c) ctx messageID msgFile w).2
       = remote w ++ [message_object (os c) messageID now data])
  ∨ (∃ e t,
       (StoreMessage env (Some c) ctx messageID msgFile w).1 = Some e
       ∧ (StoreMessageWithQueue env (Some c) ctx messageID msgFile w).1 = Some e
       ∧ is_store_error e
       ∧ remote (StoreMessageWithQueue env (Some c) ctx messageID msgFile w).2
         = remote w
       ∧ fs w !! queueNameAt env messageID t = None
       ∧ fs (StoreMessageWithQueue env (Some c) ctx messageID msgFile w).2
         = <[queueNameAt env messageID t := RegularFile data]> (fs w))
  ∨ (∃ e,
       (StoreMessageWithQueue env (Some c) ctx messageID msgFile w).1 = Some e
       ∧ is_queue_error e
       ∧ remote (StoreMessageWithQueue env (Some c) ctx messageID msgFile w).2
         = remote w
       ∧ spooled_prefix env messageID data (fs w)
           (fs (StoreMessageWithQueue env (Some c) ctx messageID msgFile w).2)).
Proof. apply StoreMessageWithQueue_outcome. Qed.

Lemma holds_example : holds Ex.msgFile Ex.msg Ex.world.
Proof.
  split; [eexists; split; reflexivity|]. split; [reflexivity|]. simpl. lia.
Qed.

Lemma fds_fresh_example : fds_fresh Ex.world.
Proof.
  intros fd Hfd. simpl in *. rewrite lookup_insert_ne by lia. done.
Qed.

Lemma store_error_not_queue_error e : is_store_error e → is_queue_error e → False.
Proof.
  intros (e1 & [->| ->]) (e2 & [H|[H|H]]); discriminate.
Qed.

Lemma StoreMessageWithQueue_never_loses_silently_witness :
  ∃ t,
    fs (StoreMessageWithQueue Ex.env (Some Ex.client) Background 42 Ex.msgFile
          Ex.world).2 !! queueNameAt Ex.env 42 t
    = Some (RegularFile Ex.msg).
Proof.
  assert ((StoreMessageWithQueue Ex.env (Some Ex.client) Background 42
             Ex.msgFile Ex.world).1
          = Some (Errorf "storing message in NATS object store: %w" []
                    Ex.net_down)) as Hr
    by (vm_compute; reflexivity).
  destruct (StoreMessageWithQueue_never_loses_silently Ex.env Ex.client
              Background 42 Ex.msgFile Ex.msg Ex.world holds_example)
    as [(now & Hn & _)|[(e & t & _ & _ & _ & _ & _ & Hfs)|(e & He & Hq & _)]].
  - rewrite Hr in Hn. discriminate.
  - exists t. rewrite Hfs. apply lookup_insert_eq.
  - rewrite Hr in He. injection He as <-. destruct (store_error_not_queue_error _
      (ex_intro _ Ex.net_down (or_intror eq_refl)) Hq).
Defined.

(** X6.  The enqueue succeeds when nothing is in its way: with the
    message file open and holding [data], the spool directory present
    (as package initialisation leaves it), the generated entry name
    free, and no failure of the seek, the create and the copy, a
    [StoreMessageWithQueue] whose store failed with [e] returns [e],
    leaves the bucket as it was, and has added to the file system
    exactly the entry of the generated name, holding [data]. *)
Theorem StoreMessageWithQueue_enqueues
    (env : Env) (c : NATSClient) (ctx : Context) (messageID : Z)
    (msgFile : File) (data : bytes) (w w1 : World) (e : error) :
  holds msgFile data w →
  is_dir (fs w) pendingNATSDir = true →
  StoreMessage env (Some c) ctx messageID msgFile w = (Some e, w1) →
  env_fault env (clock w1) = None →
  fs w !! queueNameAt env messageID (S (clock w1)) = None →
  env_fault env (3 + clock w1) = None →
  env_fault env (4 + clock w1) = None →
  (StoreMessageWithQueue env (Some c) ctx messageID msgFile w).1 = Some e
  ∧ remote (StoreMessageWithQueue env (Some c) ctx messageID msgFile w).2
    = remote w
  ∧ fs (StoreMessageWithQueue env (Some c) ctx messageID msgFile w).2
    = <[queueNameAt env messageID (S (clock w1)) := RegularFile data]> (fs w).
Proof.
  intros Hh Hdir Hrun Hf0 Hfree Hf3 Hf4.
  rewrite StoreMessageWithQueue_unfold, Hrun.
  destruct (StoreMessage_content env c ctx messageID msgFile data w Hh)
    as [_ Hh1].
  destruct (StoreMessage_outcome env c ctx messageID msgFile w) as [Hfs Hout].
  rewrite Hrun in Hh1, Hfs, Hout. simpl in Hh1, Hfs, Hout.
  destruct Hout as [Hrem _].
  assert (holds msgFile data (logged_failure e w1)) as Hh2 by exact Hh1.
  destruct (spoolEnqueue_succeeds env messageID msgFile data
              (logged_failure e w1) Hh2) as [Hr Hq]; try done.
  { simpl. by rewrite Hfs. }
  { simpl. by rewrite Hfs. }
  destruct (spoolEnqueue_outcome env messageID msgFile data _ Hh2) as [Hrem2 _].
  destruct (spoolEnqueue env messageID msgFile (logged_failure e w1))
    as [q w2]. simpl in *. subst q.
  split; [done|]. split; [congruence|]. by rewrite Hq, Hfs.
Qed.

Lemma StoreMessageWithQueue_enqueues_witness :
  fs (StoreMessageWithQueue Ex.env (Some Ex.client) Background 42 Ex.msgFile
        Ex.world).2
  = <[queueNameAt Ex.env 42 4 := RegularFile Ex.msg]> (fs Ex.world).
Proof.
  assert (StoreMessage Ex.env (Some Ex.client) Background 42 Ex.msgFile
            Ex.world
          = (Some (Errorf "storing message in NATS object store: %w" []
                     Ex.net_down),
             (StoreMessage Ex.env (Some Ex.client) Background 42
                Ex.msgFile Ex.world).2)) as Hrun
    by (vm_compute; reflexivity).
  destruct (StoreMessageWithQueue_enqueues Ex.env Ex.client Background 42
              Ex.msgFile Ex.msg Ex.world _ _ holds_example eq_refl Hrun)
    as (_ & _ & Hfs).
  - vm_compute; reflexivity.
  - vm_compute; reflexivity.
  - vm_compute; reflexivity.
  - vm_compute; reflexivity.
  - exact Hfs.
Defined.

(** X7.  [StoreMessageWithQueue] closes the spool file it opens: every
    descriptor other than the caller's is after the call as it was
    before it, the caller's is open exactly when it was, and no
    descriptor that had not been handed out is open. *)
Theorem StoreMessageWithQueue_closes_spool_file
    (env : Env) (nc : option NATSClient) (ctx : Context) (messageID : Z)
    (msgFile : File) (w : World) :
  fds_fresh w →
  (file_fd msgFile < next_fd w)%nat →
  same_fds msgFile w (StoreMessageWithQueue env nc ctx messageID msgFile w).2
  ∧ fds_fresh (StoreMessageWithQueue env nc ctx messageID msgFile w).2.
Proof.
  intros Hfr Hlt.
  pose proof (StoreMessageWithQueue_same_fds env nc ctx messageID msgFile w
                Hfr Hlt) as H.
  split; [done|]. by apply (same_fds_fresh msgFile w).
Qed.

Lemma StoreMessageWithQueue_closes_spool_file_witness :
  handles (StoreMessageWithQueue Ex.env (Some Ex.client) Background 42
             Ex.msgFile Ex.world).2 !! 4%nat = None.
Proof.
  destruct (StoreMessageWithQueue_closes_spool_file Ex.env (Some Ex.client)
              Background 42 Ex.msgFile Ex.world fds_fresh_example)
    as [(H & _) _].
  - simpl. lia.
  - rewrite H; [reflexivity|]. simpl. lia.
Defined.



(** X9.  [StoreMessageAsync] on a configured client does no remote work
    itself: it leaves the file system and the bucket as they are and
    hands nothing to [Put].  Either it logs an error and starts no
    goroutine, or it starts exactly one goroutine, which carries the
    content that the file of that name held at the call. *)
Theorem StoreMessageAsync_defers_store (env : Env) (c : NATSClient)
    (ctx : Context) (messageID : Z) (msgFile : File) (w : World) :
  fs (StoreMessageAsync env (Some c) ctx messageID msgFile w).2 = fs w
  ∧ remote (StoreMessageAsync env (Some c) ctx messageID msgFile w).2 = remote w
  ∧ ∃ evs,
      new_events w (StoreMessageAsync env (Some c) ctx messageID msgFile w).2 evs
      ∧ put_paths evs = []
      ∧ ((goroutines (StoreMessageAsync env (Some c) ctx messageID msgFile w).2
          = goroutines w
          ∧ ∃ msg e, last evs = Some (EvLog LError msg (Some e)))
         ∨ ∃ data,
             fs w !! file_name msgFile = Some (RegularFile data)
             ∧ last evs = Some (EvGo (GoAsyncStore c messageID data))
             ∧ goroutines
                 (StoreMessageAsync env (Some c) ctx messageID msgFile w).2
               = goroutines w ++ [GoAsyncStore c messageID data]).
Proof. apply StoreMessageAsync_frame. Qed.

(** * Further properties of the retry loop *)

(** X10.  A round of the retry loop that finds the client connected and
    meets no failure drains the spool: every regular file of the spool
    directory whose name is that of an entry is gone afterwards, and
    for each the bucket holds an object with the bytes of the file,
    named after the message ID read from the entry name; nothing else
    in the file system changes, and the bucket has gained exactly one
    object per entry. *)
Theorem processPendingPass_drains_spool (env : Env) (c : NATSClient)
    (cn : nats.Conn) (w : World) :
  globalNATSClient w = Some c → conn c = Some cn →
  calm env (clock w) →
  is_dir (fs w) pendingNATSDir = true →
  (∀ name id d,
     env_sscanf env name = Some id →
     fs w !! Join pendingNATSDir name = Some (RegularFile d) →
     fs (processPendingPass env w).2 !! Join pendingNATSDir name = None
     ∧ ∃ t, message_object (os c) id (env_now env t) d
              ∈ remote (processPendingPass env w).2)
  ∧ (∀ p, (∀ name id d,
             env_sscanf env name = Some id →
             fs w !! Join pendingNATSDir name = Some (RegularFile d) →
             p ≠ Join pendingNATSDir name) →
          fs (processPendingPass env w).2 !! p = fs w !! p)
  ∧ ∃ objs, remote (processPendingPass env w).2 = remote w ++ objs
            ∧ length objs
              = length (filter (λ f, well_formed env f = true)
                          (list_dir pendingNATSDir (fs w))).
Proof. apply processPendingPass_drain. Qed.

Lemma calm_up t : calm Ex2.env_up t.
Proof. intros u _. done. Qed.

Lemma processPendingPass_drains_spool_witness :
  fs (processPendingPass Ex2.env_up Ex.world_spool).2 !! Ex.entry1 = None
  ∧ fs (processPendingPass Ex2.env_up Ex.world_spool).2 !! Ex.entry2 = None.
Proof.
  destruct (processPendingPass_drains_spool Ex2.env_up Ex.client
              {| nats.conn_id := 0 |} Ex.world_spool eq_refl eq_refl
              (calm_up _) eq_refl) as (H & _).
  split.
  - apply (H "msg-41-1700000000000000001-17" 41 [Byte.x41]);
      vm_compute; reflexivity.
  - apply (H "msg-42-1700000000000000002-18" 42 [Byte.x42; Byte.x43]);
      vm_compute; reflexivity.
Defined.

(** X11.  A message that [StoreMessageWithQueue] could not store and
    has enqueued (it returned the error of the store) is delivered by
    the next round of the retry loop that runs with the client
    connected and no failure, provided [fmt.Sscanf] reads the message
    ID back from the entry name: the entry holds the whole message
    before the round, is gone after it, and the bucket then holds an
    object with the message's bytes named after its ID. *)
Theorem spooled_message_is_delivered
    (env : Env) (c : NATSClient) (cn : nats.Conn) (ctx : Context)
    (messageID : Z) (msgFile : File) (data : bytes) (w w1 w2 : World)
    (e : error) :
  holds msgFile data w →
  conn c = Some cn →
  StoreMessageWithQueue env (Some c) ctx messageID msgFile w = (Some e, w1) →
  is_store_error e →
  (∀ rest, env_sscanf env ("msg-" +:+ pretty messageID +:+ "-" +:+ rest)
           = Some messageID) →
  fs w2 = fs w1 →
  globalNATSClient w2 = Some c →
  is_dir (fs w2) pendingNATSDir = true →
  calm env (clock w2) →
  ∃ t t',
    fs w !! queueNameAt env messageID t = None
    ∧ fs w2 !! queueNameAt env messageID t = Some (RegularFile data)
    ∧ fs (processPendingPass env w2).2 !! queueNameAt env messageID t = None
    ∧ message_object (os c) messageID (env_now env t') data
        ∈ remote (processPendingPass env w2).2.
Proof.
  intros Hh Hcn Hrun Hse Hscan Hfs2 Hc2 Hdir Hcalm.
  destruct (StoreMessageWithQueue_outcome env c ctx messageID msgFile data w Hh)
    as [(now & Hn & _)|[(e' & t & _ & He & _ & _ & Hfree & Hfs)|(e' & He & Hq & _)]];
    rewrite Hrun in *; simpl in *.
  - discriminate.
  - destruct (processPendingPass_drain env c cn w2 Hc2 Hcn Hcalm Hdir)
      as (Hall & _).
    assert (fs w2 !! queueNameAt env messageID t = Some (RegularFile data)) as Hl.
    { rewrite Hfs2, Hfs. apply lookup_insert_eq. }
    destruct (Hall _ messageID data (Hscan _) Hl) as (Hgone & t' & Hobj).
    exists t, t'. done.
  - injection He as <-. destruct (store_error_not_queue_error _ Hse Hq).
Qed.

Lemma calm_outage t : (3 ≤ t)%nat → calm Ex2.env_outage t.
Proof.
  intros Ht u Hu. split; [|done]. simpl. rewrite decide_False by lia. done.
Qed.

Lemma spooled_message_is_delivered_witness :
  ∃ t',
    message_object "mox-emails" 42 (env_now Ex2.env_outage t') Ex.msg
      ∈ remote
          (processPendingPass Ex2.env_outage
             (StoreMessageWithQueue Ex2.env_outage (Some Ex.client) Background
                42 Ex.msgFile Ex.world).2).2.
Proof.
  set (r := StoreMessageWithQueue Ex2.env_outage (Some Ex.client) Background
              42 Ex.msgFile Ex.world).
  assert (r = (Some (Errorf "storing message in NATS object store: %w" []
                       Ex.net_down), r.2)) as Hrun
    by (vm_compute; reflexivity).
  assert (globalNATSClient r.2 = Some Ex.client) as Hc
    by (vm_compute; reflexivity).
  assert (is_dir (fs r.2) pendingNATSDir = true) as Hdir
    by (vm_compute; reflexivity).
  assert (clock r.2 = 8%nat) as Hclock by (vm_compute; reflexivity).
  destruct (spooled_message_is_delivered Ex2.env_outage Ex.client
              {| nats.conn_id := 0 |} Background 42 Ex.msgFile Ex.msg
              Ex.world r.2 r.2 _ holds_example eq_refl Hrun)
    as (t & t' & _ & _ & _ & Hobj).
  - exists Ex.net_down. by right.
  - intros rest. reflexivity.
  - reflexivity.
  - exact Hc.
  - exact Hdir.
  - apply calm_outage. lia.
  - exists t'. exact Hobj.
Defined.

(** X12.  Whatever the environment does, [n] rounds of the retry loop
    only ever retire entries: every path of the file system is as
    before, or it was a regular file of the spool directory whose name
    is that of an entry and it is gone (so no file is created or
    rewritten, and nothing outside the spool is touched); the bucket
    only grows; the global client, the once and the goroutines are as
    before; and every file the loop opened is closed again, the open
    descriptors being exactly those open before. *)
Theorem processPendingNATSLoop_only_retires (env : Env) (n : nat) (w : World) :
  retired env (fs w) (fs (processPendingNATSLoop env n w).2)
  ∧ fs (processPendingNATSLoop env n w).2 ⊆ fs w
  ∧ remote w `prefix_of` remote (processPendingNATSLoop env n w).2
  ∧ globalNATSClient (processPendingNATSLoop env n w).2 = globalNATSClient w
  ∧ natsOnce (processPendingNATSLoop env n w).2 = natsOnce w
  ∧ goroutines (processPendingNATSLoop env n w).2 = goroutines w
  ∧ (fds_fresh w →
     handles (processPendingNATSLoop env n w).2 = handles w
     ∧ fds_fresh (processPendingNATSLoop env n w).2).
Proof.
  destruct (processPendingNATSLoop_world env n w) as (H1 & H2).
  split; [done|]. split; [by apply (retired_subseteq env)|done].
Qed.

(** X13.  The retry loop never spins: every round scans the spool
    directory once and then sleeps, 10 seconds when the scan failed and
    30 seconds otherwise, so that [n] rounds make [n] scans and sleep
    between [10 n] and [30 n] seconds, whatever the environment does. *)
Theorem processPendingNATSLoop_paces (env : Env) (n : nat) (w : World) :
  (∃ ok evs,
     new_events w (processPendingPass env w).2
       (EvReadDir pendingNATSDir ok :: evs)
     ∧ filter (λ e, is_readdir e = true) evs = []
     ∧ slept evs = (if ok then 30 * Second else 10 * Second))
  ∧ ∃ evs,
      new_events w (processPendingNATSLoop env n w).2 evs
      ∧ length (filter (λ e, is_readdir e = true) evs) = n
      ∧ 10 * Second * Z.of_nat n ≤ slept evs ≤ 30 * Second * Z.of_nat n.
Proof.
  split; [apply processPendingPass_pace | apply processPendingNATSLoop_pace].
Qed.

(** X14.  In a round of the retry loop, every file that is opened,
    sought, read for [Put], closed or removed is an entry of the spool
    directory, as listed at the start of the round, that is not a
    directory and whose name [fmt.Sscanf] accepts: subdirectories,
    files with other names and files elsewhere are never touched. *)
Theorem processPendingPass_reaches_only_entries (env : Env) (w : World) :
  ∃ evs,
    new_events w (processPendingPass env w).2 evs
    ∧ ∀ e p, e ∈ evs → event_path e = Some p →
        ∃ f, f ∈ list_dir pendingNATSDir (fs w)
             ∧ well_formed env f = true
             ∧ p = entry_path f.
Proof.
  destruct (processPendingPass_outcomes env w) as (outs & ok & d & Htr & _).
  eexists. split; [exact Htr|].
  intros e p Hin Hp. apply (processPendingPass_reach env w e p); [|done].
  eexists. split; [exact Htr|done].
Qed.

(** * Further properties of the lifecycle *)

Section LifecycleTheorems.
Variable Accounts : Type.
Variable listRemovals : Accounts → list AccountRemove.
Variable removeAccount : string → Accounts → option error * Accounts.
Variable DataDir : Path.
Variable env : Env.

Abbreviation SysT := (System Accounts).
Abbreviation InitT := (Init listRemovals removeAccount DataDir env).
Abbreviation stepT := (step listRemovals removeAccount DataDir env).
Abbreviation runT := (run listRemovals removeAccount DataDir env).

(** X15.  The two early returns of [Init] on a process that is not
    initialised.  When [bstore.Open] fails, [Init] returns that error
    as it is, the database stays closed, and no account is removed and
    no worker started.  When the database opens and the listing of the
    pending removals fails, [Init] returns the error wrapped as
    "listing scheduled account removals", again with no account
    removed and no worker started, but the database stays open: a
    second call of [Init] is then refused with "already initialized"
    and changes nothing. *)
Theorem Init_early_errors (s : SysT) (e : error) :
  sys_authdb s = false →
  (env_fault env (S (clock (sys_world s))) = Some e →
   (InitT s).1 = Some e
   ∧ sys_authdb (InitT s).2 = false
   ∧ sys_cleaner (InitT s).2 = sys_cleaner s
   ∧ sys_writer (InitT s).2 = sys_writer s
   ∧ sys_accounts (InitT s).2 = sys_accounts s
   ∧ goroutines (sys_world (InitT s).2) = goroutines (sys_world s)
   ∧ globalNATSClient (sys_world (InitT s).2) = globalNATSClient (sys_world s))
  ∧ (db_opens env s →
     env_fault env (S (S (clock (sys_world s)))) = Some e →
     (InitT s).1 = Some (Errorf "listing scheduled account removals: %v" [] e)
     ∧ sys_authdb (InitT s).2 = true
     ∧ sys_cleaner (InitT s).2 = sys_cleaner s
     ∧ sys_writer (InitT s).2 = sys_writer s
     ∧ sys_accounts (InitT s).2 = sys_accounts s
     ∧ goroutines (sys_world (InitT s).2) = goroutines (sys_world s)
     ∧ globalNATSClient (sys_world (InitT s).2) = globalNATSClient (sys_world s)
     ∧ InitT (InitT s).2
       = (Some (ErrorString "already initialized"), (InitT s).2)).
Proof.
  intros Hdb. split.
  - by apply Init_open_fails.
  - by apply Init_list_fails.
Qed.

(** X16.  Once the cleaner has returned through [ctx.Done()] while the
    database is open and [Close] has not yet been served by it, no call
    of [Close] ever returns: in every state the process reaches, the
    cleaner stays returned, the database stays open, [Close] stands at
    or before its stop request to the cleaner, and that request cannot
    be taken. *)
Theorem Close_blocks_after_cleaner_returned (s : SysT) :
  sys_cleaner s = CleanerSelect →
  sys_ctx_done s = true →
  sys_authdb s = true →
  close_waits (sys_close s) →
  ∃ s1,
    stepT LCleanerRecvDone s = Some s1
    ∧ ∀ ls s',
        runT ls s1 = Some s' →
        close_stuck s'
        ∧ (∀ err, sys_close s' ≠ CloseReturned err)
        ∧ stepT LCleanerRecvStop s' = None
        ∧ stepT LCloseDB s' = None.
Proof.
  intros Hsel Hdone Hdb Hw. simpl. rewrite Hsel, Hdone.
  eexists. split; [reflexivity|].
  intros ls s' Hrun.
  assert (close_stuck s') as Hst.
  { apply (run_close_stuck _ _ _ _ _ _ _ _ Hrun). done. }
  split; [done|]. destruct Hst as (Hcl & _ & Hw').
  split; [|split].
  - intros err Hc. by rewrite Hc in Hw'.
  - simpl. by rewrite Hcl.
  - simpl. destruct (sys_close s'); done.
Qed.

(** X17.  Once the construction of the archival client has run, the
    global client is never replaced or cleared: through every
    interleaving of [Init], the workers, the retry loop and [Close],
    [GetNATSClient] keeps returning the same client (or nil), also
    after [Close] has closed its connection and returned, and the once
    stays used up. *)
Theorem global_client_is_never_replaced (s s' : SysT) (ls : list Label) :
  natsOnce (sys_world s) = true →
  runT ls s = Some s' →
  natsOnce (sys_world s') = true
  ∧ (GetNATSClient (sys_world s')).1 = (GetNATSClient (sys_world s)).1.
Proof.
  intros Ho Hrun.
  by apply (run_client_fixed Accounts listRemovals removeAccount DataDir env
              ls s s').
Qed.
End LifecycleTheorems.

Lemma Init_early_errors_witness :
  (Init ExSys.listRemovals ExSys.removeAccount ExSys.DataDir Ex.env
     ExSys.boot).1 = Some Ex.net_down.
Proof.
  destruct (Init_early_errors ExSys.Accounts ExSys.listRemovals
              ExSys.removeAccount ExSys.DataDir Ex.env ExSys.boot
              Ex.net_down eq_refl) as [H _].
  apply H. vm_compute. reflexivity.
Defined.

Lemma Close_blocks_after_cleaner_returned_witness :
  ∃ s s1,
    ExSys.run Ex2.cancel_then_close ExSys.boot = Some s
    ∧ ExSys.step LCleanerRecvDone s = Some s1
    ∧ ∀ ls s', ExSys.run ls s1 = Some s' →
               ∀ err, sys_close s' ≠ CloseReturned err.
Proof.
  assert (match ExSys.run Ex2.cancel_then_close ExSys.boot with
          | Some s =>
              sys_cleaner s = CleanerSelect ∧ sys_ctx_done s = true
              ∧ sys_authdb s = true ∧ sys_close s = CloseSendCleaner 1%nat
          | None => False
          end) as H
    by (vm_compute; repeat split).
  destruct (ExSys.run Ex2.cancel_then_close ExSys.boot) as [s|]; [|done].
  destruct H as (Hsel & Hdone & Hdb & Hc).
  destruct (Close_blocks_after_cleaner_returned ExSys.Accounts
              ExSys.listRemovals ExSys.removeAccount ExSys.DataDir ExSys.env
              s Hsel Hdone Hdb) as (s1 & Hstep & Hall).
  - by rewrite Hc.
  - exists s, s1. split; [reflexivity|]. split; [exact Hstep|].
    intros ls s' Hrun. by destruct (Hall ls s' Hrun) as (_ & H & _).
Defined.

Lemma global_client_is_never_replaced_witness :
  ∃ s',
    ExSys.run ExSys.shutdown Ex2.running = Some s'
    ∧ sys_close s' = CloseReturned None
    ∧ (GetNATSClient (sys_world s')).1 = Some Ex.client.
Proof.
  assert (match ExSys.run ExSys.shutdown Ex2.running with
          | Some s => sys_close s = CloseReturned None
          | None => False
          end) as H
    by (vm_compute; reflexivity).
  destruct (ExSys.run ExSys.shutdown Ex2.running) as [s'|] eqn:Hrun; [|done].
  destruct (global_client_is_never_replaced ExSys.Accounts ExSys.listRemovals
              ExSys.removeAccount ExSys.DataDir ExSys.env Ex2.running s'
              ExSys.shutdown eq_refl Hrun) as [_ Hc].
  exists s'. split; [reflexivity|]. split; [exact H|]. rewrite Hc. reflexivity.
Defined.
